(** * A shallow embedding of the Airtable / Instagram content pipeline

    Sources: [airtable_content_automation.py], [instagram_poster.py],
    [config.py].  Python [str] values are modelled as Rocq [string]s: the
    text itself for ASCII text, the UTF-8 encoding where other characters
    matter ([str.isdigit] on a media ID).  Python's no-argument
    [str.split] / [str.strip] treat the ASCII characters 9-13 and 28-32
    as whitespace, and so do we on ASCII text. *)

From Stdlib Require Import String Ascii List Bool ZArith Lia.
Import ListNotations.
Open Scope string_scope.

(* ------------------------------------------------------------------ *)
(** ** Python string builtins used by the code *)

Module Py.

(** [str.isspace] on one ASCII character. *)
Definition is_space (c : ascii) : bool :=
  let n := nat_of_ascii c in
  ((9 <=? n) && (n <=? 13) || (28 <=? n) && (n <=? 32))%nat.

Fixpoint lstrip (s : string) : string :=
  match s with
  | EmptyString => EmptyString
  | String c s' => if is_space c then lstrip s' else s
  end.

Fixpoint rstrip (s : string) : string :=
  match s with
  | EmptyString => EmptyString
  | String c s' =>
      let r := rstrip s' in
      if is_space c && (r =? "") then "" else String c r
  end.

(** [s.strip()] *)
Definition strip (s : string) : string := rstrip (lstrip s).

(** [s.split()]: maximal runs of non-whitespace characters. *)
Fixpoint split_aux (cur : string) (s : string) : list string :=
  match s with
  | EmptyString => if cur =? "" then [] else [cur]
  | String c s' =>
      if is_space c
      then (if cur =? "" then split_aux "" s' else cur :: split_aux "" s')
      else split_aux (cur ++ String c "") s'
  end.

Definition split (s : string) : list string := split_aux "" s.

(** [s.replace(a, b)] for a one-character [a]. *)
Fixpoint replace_char (a : ascii) (b : string) (s : string) : string :=
  match s with
  | EmptyString => EmptyString
  | String c s' => (if Ascii.eqb c a then b else String c "") ++ replace_char a b s'
  end.

(** [s[:n]] *)
Fixpoint take (n : nat) (s : string) : string :=
  match n, s with
  | O, _ => EmptyString
  | S _, EmptyString => EmptyString
  | S n', String c s' => String c (take n' s')
  end.

(** [s[n:]] *)
Fixpoint drop (n : nat) (s : string) : string :=
  match n, s with
  | O, _ => s
  | S _, EmptyString => EmptyString
  | S n', String _ s' => drop n' s'
  end.

(** [sep in s] *)
Fixpoint contains (sep s : string) : bool :=
  String.prefix sep s ||
  match s with
  | EmptyString => false
  | String _ s' => contains sep s'
  end.

(** [s.split(sep, 1)] when [sep] occurs: the text before the first
    occurrence and the text after it. *)
Fixpoint split_once (sep s : string) : option (string * string) :=
  if String.prefix sep s then Some (EmptyString, drop (String.length sep) s)
  else match s with
       | EmptyString => None
       | String c s' =>
           match split_once sep s' with
           | Some (a, b) => Some (String c a, b)
           | None => None
           end
       end.

(** The ASCII digits 0-9. *)
Definition is_digit (c : ascii) : bool :=
  let n := nat_of_ascii c in ((48 <=? n) && (n <=? 57))%nat.

Fixpoint all_digits (s : string) : bool :=
  match s with
  | EmptyString => true
  | String c s' => is_digit c && all_digits s'
  end.

(** A Python [str] that holds characters beyond ASCII is represented by
    its UTF-8 encoding; [utf8_decode] gives back its code points. *)
Definition byte (c : ascii) : Z := Z.of_nat (nat_of_ascii c).

Definition cont_byte (c : ascii) : bool := ((128 <=? byte c) && (byte c <? 192))%Z.

Fixpoint utf8_decode (s : string) : option (list Z) :=
  match s with
  | EmptyString => Some []
  | String c0 s1 =>
      let b0 := byte c0 in
      if (b0 <? 128)%Z then option_map (cons b0) (utf8_decode s1)
      else if ((194 <=? b0) && (b0 <? 224))%Z then
        match s1 with
        | String c1 s2 =>
            if cont_byte c1
            then option_map (cons ((b0 - 192) * 64 + (byte c1 - 128))%Z) (utf8_decode s2)
            else None
        | EmptyString => None
        end
      else if ((224 <=? b0) && (b0 <? 240))%Z then
        match s1 with
        | String c1 (String c2 s3) =>
            let cp := (((b0 - 224) * 64 + (byte c1 - 128)) * 64 + (byte c2 - 128))%Z in
            if cont_byte c1 && cont_byte c2 && (2048 <=? cp)%Z
               && negb ((55296 <=? cp) && (cp <=? 57343))%Z
            then option_map (cons cp) (utf8_decode s3) else None
        | _ => None
        end
      else if ((240 <=? b0) && (b0 <? 245))%Z then
        match s1 with
        | String c1 (String c2 (String c3 s4)) =>
            let cp := ((((b0 - 240) * 64 + (byte c1 - 128)) * 64 + (byte c2 - 128)) * 64
                       + (byte c3 - 128))%Z in
            if cont_byte c1 && cont_byte c2 && cont_byte c3 && (65536 <=? cp)%Z
               && (cp <=? 1114111)%Z
            then option_map (cons cp) (utf8_decode s4) else None
        | _ => None
        end
      else None
  end.

(** The code points for which [str.isdigit] holds (Unicode Numeric_Type
    Digit or Decimal; the database of Python 3.11, Unicode 14.0), as
    ranges. *)
Definition DIGIT_RANGES : list (Z * Z) := [
  (48, 57); (178, 179); (185, 185); (1632, 1641); (1776, 1785); (1984, 1993);
  (2406, 2415); (2534, 2543); (2662, 2671); (2790, 2799); (2918, 2927); (3046, 3055);
  (3174, 3183); (3302, 3311); (3430, 3439); (3558, 3567); (3664, 3673); (3792, 3801);
  (3872, 3881); (4160, 4169); (4240, 4249); (4969, 4977); (6112, 6121); (6160, 6169);
  (6470, 6479); (6608, 6618); (6784, 6793); (6800, 6809); (6992, 7001); (7088, 7097);
  (7232, 7241); (7248, 7257); (8304, 8304); (8308, 8313); (8320, 8329); (9312, 9320);
  (9332, 9340); (9352, 9360); (9450, 9450); (9461, 9469); (9471, 9471); (10102, 10110);
  (10112, 10120); (10122, 10130); (42528, 42537); (43216, 43225); (43264, 43273);
  (43472, 43481); (43504, 43513); (43600, 43609); (44016, 44025); (65296, 65305);
  (66720, 66729); (68160, 68163); (68912, 68921); (69216, 69224); (69714, 69722);
  (69734, 69743); (69872, 69881); (69942, 69951); (70096, 70105); (70384, 70393);
  (70736, 70745); (70864, 70873); (71248, 71257); (71360, 71369); (71472, 71481);
  (71904, 71913); (72016, 72025); (72784, 72793); (73040, 73049); (73120, 73129);
  (92768, 92777); (92864, 92873); (93008, 93017); (120782, 120831); (123200, 123209);
  (123632, 123641); (125264, 125273); (127232, 127242); (130032, 130041)
  ]%Z.

Definition is_digit_cp (cp : Z) : bool :=
  existsb (fun '(lo, hi) => (lo <=? cp) && (cp <=? hi))%Z DIGIT_RANGES.

(** [s.isdigit()]: non-empty, and every character a digit. *)
Definition isdigit (s : string) : bool :=
  match utf8_decode s with
  | Some ((_ :: _) as cps) => forallb is_digit_cp cps
  | _ => false
  end.

End Py.

Definition dquote : ascii := ascii_of_nat 34.
Definition newline : ascii := ascii_of_nat 10.

(* ------------------------------------------------------------------ *)
(** ** [sanitize_filename] *)

(** The character class of the regular expression in [sanitize_filename]:
    the characters < > : double-quote / backslash | ? and *. *)
Definition invalid_filename_chars : list ascii :=
  ["<"; ">"; ":"; dquote; "/"; "\"; "|"; "?"; "*"]%char.

Definition is_invalid_filename_char (c : ascii) : bool :=
  existsb (Ascii.eqb c) invalid_filename_chars.

(** [re.sub] of that character class by the empty string. *)
Fixpoint remove_invalid_chars (s : string) : string :=
  match s with
  | EmptyString => EmptyString
  | String c s' =>
      if is_invalid_filename_char c then remove_invalid_chars s'
      else String c (remove_invalid_chars s')
  end.

Definition sanitize_filename (filename : string) : string :=
  let filename := remove_invalid_chars filename in
  let filename := Py.replace_char " " "_" filename in
  Py.take 50 filename.

(* ------------------------------------------------------------------ *)
(** ** Caption splitting in [CaptionGenerator.generate_caption] *)

Inductive CaptionResult :=
| CapOk (caption hashtags : string)  (** [{"caption": ..., "hashtags": ...}] *)
| CapErr (error : string).           (** [{"error": str(err)}] *)

(** [x.strip()], then newlines replaced by spaces, then double quotes
    removed, as in [generate_caption]. *)
Definition clean_caption (s : string) : string :=
  Py.replace_char dquote "" (Py.replace_char newline " " (Py.strip s)).

Definition HASHTAGS_SEP := "Hashtags:".

(** The body of the [try] block of [generate_caption] once [content]
    has been read from the response. *)
Definition caption_from_content (content : string) : CaptionResult :=
  if Py.contains HASHTAGS_SEP content then
    match Py.split_once HASHTAGS_SEP content with
    | Some (caption, hashtags_str) =>
        let caption := clean_caption caption in
        let hashtags_list :=
          map Py.strip
              (filter (fun tag => String.prefix "#" tag)
                      (Py.split (Py.strip hashtags_str))) in
        CapOk caption (String.concat " " hashtags_list)
    | None => (* unreachable: [split_once] succeeds whenever [contains] does *)
        CapOk (clean_caption content) ""
    end
  else CapOk (clean_caption content) "".

Example caption_from_content_ex :
  caption_from_content "A golden sunset. Hashtags: #sunset #nature"
  = CapOk "A golden sunset." "#sunset #nature".
Proof. reflexivity. Qed.

Example sanitize_ex :
  sanitize_filename "a <b>: c?" = "a_b_c".
Proof. reflexivity. Qed.

(* ------------------------------------------------------------------ *)
(** ** Facts about the string builtins *)

Fixpoint str_all (p : ascii -> bool) (s : string) : bool :=
  match s with
  | EmptyString => true
  | String c s' => p c && str_all p s'
  end.

Lemma str_all_append p s t :
  str_all p (s ++ t) = str_all p s && str_all p t.
Proof.
  induction s as [|c s IH]; simpl; [reflexivity|].
  rewrite IH, andb_assoc; reflexivity.
Qed.

Lemma str_all_take p n s :
  str_all p s = true -> str_all p (Py.take n s) = true.
Proof.
  revert s; induction n as [|n IH]; intros [|c s] H; simpl in *; auto.
  apply andb_true_iff in H as [H1 H2]. rewrite H1, (IH s H2). reflexivity.
Qed.

Lemma take_length_le n s : String.length (Py.take n s) <= n.
Proof.
  revert s; induction n as [|n IH]; intros [|c s]; simpl; try lia.
  specialize (IH s). lia.
Qed.

Lemma take_id n s : String.length s <= n -> Py.take n s = s.
Proof.
  revert s; induction n as [|n IH]; intros [|c s] H; simpl in *; try reflexivity; try lia.
  rewrite IH by lia. reflexivity.
Qed.

Lemma remove_invalid_chars_valid s :
  str_all (fun c => negb (is_invalid_filename_char c)) (remove_invalid_chars s) = true.
Proof.
  induction s as [|c s IH]; simpl; [reflexivity|].
  destruct (is_invalid_filename_char c) eqn:E; simpl; rewrite ?E, ?IH; reflexivity.
Qed.

Lemma remove_invalid_chars_id s :
  str_all (fun c => negb (is_invalid_filename_char c)) s = true ->
  remove_invalid_chars s = s.
Proof.
  induction s as [|c s IH]; simpl; intros H; [reflexivity|].
  apply andb_true_iff in H as [H1 H2].
  destruct (is_invalid_filename_char c); simpl in H1; [discriminate|].
  rewrite IH; auto.
Qed.

(** The characters a sanitized name may contain. *)
Definition filename_ok_char (c : ascii) : bool :=
  negb (is_invalid_filename_char c) && negb (Ascii.eqb c " ").

Lemma replace_space_ok s :
  str_all (fun c => negb (is_invalid_filename_char c)) s = true ->
  str_all filename_ok_char (Py.replace_char " " "_" s) = true.
Proof.
  induction s as [|c s IH]; simpl; intros H; [reflexivity|].
  apply andb_true_iff in H as [H1 H2].
  destruct (Ascii.eqb c " ") eqn:E; simpl.
  - exact (IH H2).
  - unfold filename_ok_char. rewrite H1, E. exact (IH H2).
Qed.

Lemma replace_space_id s :
  str_all filename_ok_char s = true -> Py.replace_char " " "_" s = s.
Proof.
  induction s as [|c s IH]; simpl; intros H; [reflexivity|].
  apply andb_true_iff in H as [H1 H2]. unfold filename_ok_char in H1.
  apply andb_true_iff in H1 as [_ H1].
  destruct (Ascii.eqb c " "); simpl in H1; [discriminate|].
  simpl. rewrite IH; auto.
Qed.

Lemma filename_ok_valid s :
  str_all filename_ok_char s = true ->
  str_all (fun c => negb (is_invalid_filename_char c)) s = true.
Proof.
  induction s as [|c s IH]; simpl; intros H; [reflexivity|].
  apply andb_true_iff in H as [H1 H2]. unfold filename_ok_char in H1.
  apply andb_true_iff in H1 as [H1 _]. rewrite H1, IH; auto.
Qed.

Lemma sanitize_filename_ok s :
  str_all filename_ok_char (sanitize_filename s) = true.
Proof.
  unfold sanitize_filename. apply str_all_take, replace_space_ok,
    remove_invalid_chars_valid.
Qed.

(** *** Whitespace splitting *)

Lemma split_aux_lstrip s : Py.split_aux "" (Py.lstrip s) = Py.split_aux "" s.
Proof.
  induction s as [|c s IH]; [reflexivity|].
  cbn [Py.lstrip]. destruct (Py.is_space c) eqn:E; [|reflexivity].
  rewrite IH. simpl. rewrite E. reflexivity.
Qed.

Lemma split_aux_rstrip s cur :
  Py.split_aux cur (Py.rstrip s) = Py.split_aux cur s.
Proof.
  revert cur; induction s as [|c s IH]; intros cur; simpl; [reflexivity|].
  destruct (Py.is_space c) eqn:Hc; simpl.
  - destruct (Py.rstrip s =? "")%string eqn:Hr; simpl.
    + apply String.eqb_eq in Hr.
      assert (Hs : Py.split_aux "" s = []) by (rewrite <- IH, Hr; reflexivity).
      rewrite Hs. destruct (cur =? "")%string; reflexivity.
    + rewrite Hc, !IH. reflexivity.
  - rewrite Hc, IH. reflexivity.
Qed.

Lemma split_strip s : Py.split (Py.strip s) = Py.split s.
Proof.
  unfold Py.split, Py.strip. rewrite split_aux_rstrip. apply split_aux_lstrip.
Qed.

Definition no_space (s : string) : bool := str_all (fun c => negb (Py.is_space c)) s.

Lemma strip_no_space s : no_space s = true -> Py.strip s = s.
Proof.
  unfold no_space, Py.strip. intros H.
  assert (Hl : Py.lstrip s = s).
  { destruct s as [|c s]; simpl in *; [reflexivity|].
    apply andb_true_iff in H as [H _]. destruct (Py.is_space c); easy. }
  rewrite Hl. clear Hl.
  induction s as [|c s IH]; simpl in *; [reflexivity|].
  apply andb_true_iff in H as [H1 H2].
  rewrite IH by exact H2. destruct (Py.is_space c); simpl in *; easy.
Qed.

Lemma split_aux_tokens s cur :
  no_space cur = true -> Forall (fun t => no_space t = true) (Py.split_aux cur s).
Proof.
  revert cur; induction s as [|c s IH]; intros cur Hcur; simpl.
  - destruct (cur =? "")%string; auto.
  - destruct (Py.is_space c) eqn:Hc.
    + destruct (cur =? "")%string; auto.
    + apply IH. unfold no_space in *. rewrite str_all_append, Hcur; simpl.
      rewrite Hc. reflexivity.
Qed.

Lemma map_strip_split s : map Py.strip (Py.split s) = Py.split s.
Proof.
  pose proof (split_aux_tokens s "" eq_refl) as H. unfold Py.split.
  induction H as [|t l Ht _ IH]; simpl; [reflexivity|].
  rewrite strip_no_space by exact Ht. f_equal. exact IH.
Qed.

Lemma map_strip_filter_split p s :
  map Py.strip (filter p (Py.split s)) = filter p (Py.split s).
Proof.
  pose proof (split_aux_tokens s "" eq_refl) as H. unfold Py.split.
  induction H as [|t l Ht _ IH]; simpl; [reflexivity|].
  destruct (p t); simpl; [rewrite strip_no_space by exact Ht; f_equal|]; exact IH.
Qed.

(** *** Searching for the separator *)

Lemma prefix_self_app sep x : String.prefix sep (sep ++ x) = true.
Proof.
  induction sep as [|c sep IH]; simpl; [destruct x; reflexivity|].
  destruct (ascii_dec c c) as [_|n]; [exact IH|contradiction].
Qed.

Lemma drop_length_app sep x : Py.drop (String.length sep) (sep ++ x) = x.
Proof. induction sep as [|c sep IH]; simpl; [destruct x|]; auto. Qed.

Lemma contains_of_prefix sep s : String.prefix sep s = true -> Py.contains sep s = true.
Proof. intros H; destruct s; cbn [Py.contains]; rewrite H; reflexivity. Qed.

Lemma contains_app sep pre post : Py.contains sep (pre ++ sep ++ post) = true.
Proof.
  induction pre as [|c pre IH]; simpl.
  - apply contains_of_prefix, prefix_self_app.
  - rewrite IH, orb_true_r. reflexivity.
Qed.

Lemma split_once_eq sep s :
  Py.split_once sep s =
  if String.prefix sep s then Some (EmptyString, Py.drop (String.length sep) s)
  else match s with
       | EmptyString => None
       | String c s' =>
           match Py.split_once sep s' with
           | Some (a, b) => Some (String c a, b)
           | None => None
           end
       end.
Proof. destruct s; reflexivity. Qed.

(** [pre] ends where the FIRST occurrence of [sep] in [s] starts. *)
Definition first_occurrence (sep s pre post : string) : Prop :=
  s = pre ++ sep ++ post /\
  (forall p1 p2, pre = p1 ++ p2 -> p2 <> EmptyString ->
                 String.prefix sep (p2 ++ sep ++ post) = false).

Lemma split_once_first sep pre post :
  (forall p1 p2, pre = p1 ++ p2 -> p2 <> EmptyString ->
                 String.prefix sep (p2 ++ sep ++ post) = false) ->
  Py.split_once sep (pre ++ sep ++ post) = Some (pre, post).
Proof.
  induction pre as [|c pre IH]; intros H; rewrite split_once_eq.
  - change ("" ++ sep ++ post) with (sep ++ post).
    rewrite prefix_self_app, drop_length_app. reflexivity.
  - rewrite (H EmptyString (String c pre)) by (reflexivity || discriminate).
    simpl. rewrite IH; [reflexivity|].
    intros p1 p2 E. apply (H (String c p1) p2). simpl; congruence.
Qed.

Lemma caption_from_content_first content pre post :
  first_occurrence HASHTAGS_SEP content pre post ->
  caption_from_content content =
  CapOk (clean_caption pre)
        (String.concat " " (filter (fun tag => String.prefix "#" tag) (Py.split post))).
Proof.
  intros [-> Hfirst]. unfold caption_from_content.
  rewrite contains_app, split_once_first by exact Hfirst.
  rewrite split_strip, map_strip_filter_split. reflexivity.
Qed.

(* ------------------------------------------------------------------ *)
(** ** Configuration ([config.py], default values) *)

Definition STATUS_PENDING := "Pending".
Definition STATUS_READY := "Ready".
Definition STATUS_COMPLETED := "Completed".
Definition STATUS_FAILED := "Failed".

Definition FIELD_PROMPT := "Prompt".
Definition FIELD_CAPTION := "Generated Captions".
Definition FIELD_IMAGE_URL := "Image URL".
Definition FIELD_PUBLISHED := "Published".
Definition FIELD_MEDIA_ID := "Media ID".
Definition FIELD_PUBLISH_DATE := "Publish Date".
Definition FIELD_STATUS := "Status".

(* ------------------------------------------------------------------ *)
(** ** Tables *)

(** A row of the Posts table.  An empty string stands for an empty cell:
    Airtable leaves empty cells out of [record['fields']], so the code's
    test [FIELD in fields and fields[FIELD]] is [value <> ""]. *)
Record Post := mkPost {
  f_prompt : string;
  f_caption : string;
  f_image_url : string;
  f_published : string;
  f_media_id : string;
  f_publish_date : string;
  f_status : string }.

(** A Python dict of cell values, in insertion order. *)
Definition Fields := list (string * string).

(** Writing one cell; a name that is not a column makes Airtable reject
    the request. *)
Definition set_field (k v : string) (p : Post) : option Post :=
  let '(mkPost pr ca iu pu mi pd st) := p in
  if k =? FIELD_PROMPT then Some (mkPost v ca iu pu mi pd st)
  else if k =? FIELD_CAPTION then Some (mkPost pr v iu pu mi pd st)
  else if k =? FIELD_IMAGE_URL then Some (mkPost pr ca v pu mi pd st)
  else if k =? FIELD_PUBLISHED then Some (mkPost pr ca iu v mi pd st)
  else if k =? FIELD_MEDIA_ID then Some (mkPost pr ca iu pu v pd st)
  else if k =? FIELD_PUBLISH_DATE then Some (mkPost pr ca iu pu mi v st)
  else if k =? FIELD_STATUS then Some (mkPost pr ca iu pu mi pd v)
  else None.

(** A PATCH of a record: the given cells are overwritten, the others kept. *)
Fixpoint apply_fields (kvs : Fields) (p : Post) : option Post :=
  match kvs with
  | [] => Some p
  | (k, v) :: kvs' =>
      match set_field k v p with
      | Some p' => apply_fields kvs' p'
      | None => None
      end
  end.

(** A row of the Retry Queue table (the [Created] timestamp is not modelled). *)
Record RetryEntry := mkRetry {
  r_operation : string;
  r_record_id : string;
  r_details : option string;
  r_status : string }.

(** A value [ast.literal_eval] returns: a dict of cell values, or any
    other value (a list, a number, a string, ...), given by its [str] and
    its truth value. *)
Inductive PyLit :=
| LDict (kvs : Fields)
| LOther (text : string) (truthy : bool).

(** The Python builtins that serialise and parse retry payloads:
    [str(details)] on a dict and [ast.literal_eval]; [None] is a raised
    exception.  They are not part of this repository. *)
Class PyLiterals := {
  dict_str : Fields -> string;
  literal_eval : string -> option PyLit }.

(** The Airtable formulas of the [get_*] queries of [AirtableClient]. *)
Inductive PostsQuery :=
| QNeedCaptions      (** [get_records_needing_captions] *)
| QNeedImages        (** [get_records_needing_images] *)
| QReadyToPublish    (** [get_unpublished_ready_posts] *)
| QAnyUnpublished.   (** [get_any_unpublished_posts] *)

Definition query_matches (q : PostsQuery) (p : Post) : bool :=
  match q with
  | QNeedCaptions =>
      (f_caption p =? "") && negb (f_published p =? "Yes")
  | QNeedImages =>
      negb (f_caption p =? "") && (f_image_url p =? "") && negb (f_published p =? "Yes")
  | QReadyToPublish =>
      negb (f_image_url p =? "") && negb (f_published p =? "Yes")
      && (f_status p =? STATUS_READY)
  | QAnyUnpublished =>
      negb (f_image_url p =? "") && negb (f_published p =? "Yes")
  end.

(** The requests the code sends to Airtable. *)
Inductive Request :=
| ListPosts (q : PostsQuery)
| UpdatePost (rid : string) (fields : Fields)
| BatchUpdatePosts (items : list (string * Fields))
| FirstRetry
| ListPendingRetry
| CreateRetry (e : RetryEntry)
| UpdateRetryStatus (iid : nat) (status : string)
| ListFirstPost                     (** [posts_table.all(max_records=1)] *)
| UpdatePostOther (rid text : string).
  (** [posts_table.update(record_id, fields)] with [fields] a value other
      than a dict, whose [str] is [text] *)

(** What the network and Airtable do with a request, after the retries of
    [safe_request] (three attempts) are exhausted.  [Failure k]: the
    request raised; for a batch update, its first [k] chunks of ten
    records had been written before. *)
Inductive Outcome := Success | Failure (chunks_done : nat).

(** One attempt of the chat-completion call in [generate_caption]:
    the [content] of the first choice, a [requests] exception with its
    message, or any other exception. *)
Inductive LlmAttempt :=
| LlmContent (content : string)
| LlmRequestError (msg : string)
| LlmOtherError.

(** The world the pipeline runs in: both tables, and oracles for the
    outcome of the [n]-th Airtable request and the [n]-th language-model
    attempt. *)
Record St := mkSt {
  posts : list (string * Post);
  retry_table : list (nat * RetryEntry);
  next_retry_id : nat;
  net : nat -> Request -> Outcome;
  calls : nat;
  llm : nat -> string -> LlmAttempt;
  llm_calls : nat;
  clock : string }.

Definition set_posts (ps : list (string * Post)) (st : St) : St :=
  mkSt ps (retry_table st) (next_retry_id st) (net st) (calls st)
       (llm st) (llm_calls st) (clock st).

Definition set_retry (rt : list (nat * RetryEntry)) (nid : nat) (st : St) : St :=
  mkSt (posts st) rt nid (net st) (calls st) (llm st) (llm_calls st) (clock st).

Definition tick (st : St) : St :=
  mkSt (posts st) (retry_table st) (next_retry_id st) (net st) (S (calls st))
       (llm st) (llm_calls st) (clock st).

Definition tick_llm (st : St) : St :=
  mkSt (posts st) (retry_table st) (next_retry_id st) (net st) (calls st)
       (llm st) (S (llm_calls st)) (clock st).

(* ------------------------------------------------------------------ *)
(** ** A state and exception monad for the Python code *)

Inductive Exn := AirtableError | RequestException | LlmError | RetryError | ValueError.

Inductive Res (A : Type) := Ok (a : A) | Raise (e : Exn).
Arguments Ok {A} a.
Arguments Raise {A} e.

Definition M (A : Type) : Type := St -> Res A * St.

Definition ret {A} (a : A) : M A := fun st => (Ok a, st).
Definition raise {A} (e : Exn) : M A := fun st => (Raise e, st).
Definition bind {A B} (m : M A) (k : A -> M B) : M B := fun st =>
  match m st with
  | (Ok a, st') => k a st'
  | (Raise e, st') => (Raise e, st')
  end.
(** [try: m except: h]; the effects of [m] before it raised are kept. *)
Definition try_except {A} (m : M A) (h : Exn -> M A) : M A := fun st =>
  match m st with
  | (Ok a, st') => (Ok a, st')
  | (Raise e, st') => h e st'
  end.

Notation "x <- m ;; k" := (bind m (fun x => k))
  (at level 61, m at next level, right associativity).
Notation "m ;;; k" := (bind m (fun _ => k))
  (at level 61, right associativity).

Fixpoint for_each {A} (l : list A) (f : A -> M unit) : M unit :=
  match l with
  | [] => ret tt
  | x :: l' => f x ;;; for_each l' f
  end.

(** One Airtable request. *)
Definition request {A} (r : Request) (exec : St -> option (A * St)) : M A := fun st =>
  let st1 := tick st in
  match net st (calls st) r with
  | Success =>
      match exec st1 with
      | Some (a, st2) => (Ok a, st2)
      | None => (Raise AirtableError, st1)
      end
  | Failure _ => (Raise AirtableError, st1)
  end.

(* ------------------------------------------------------------------ *)
(** ** Airtable primitives *)

(** [posts_table.all(formula=...)]: the matching rows, in table order. *)
Definition posts_all (q : PostsQuery) : M (list (string * Post)) :=
  request (ListPosts q)
    (fun st => Some (filter (fun '(_, p) => query_matches q p) (posts st), st)).

(** Apply a PATCH to every row with id [rid]. *)
Fixpoint update_rows (rid : string) (kvs : Fields) (l : list (string * Post))
  : option (list (string * Post)) :=
  match l with
  | [] => Some []
  | (i, p) :: l' =>
      match update_rows rid kvs l' with
      | None => None
      | Some l'' =>
          if i =? rid then
            match apply_fields kvs p with
            | Some p' => Some ((i, p') :: l'')
            | None => None
            end
          else Some ((i, p) :: l'')
      end
  end.

Definition has_row (rid : string) (l : list (string * Post)) : bool :=
  existsb (fun '(i, _) => i =? rid) l.

(** Airtable rejects the update of a missing record or of an unknown field. *)
Definition patch_rows (rid : string) (kvs : Fields) (l : list (string * Post))
  : option (list (string * Post)) :=
  if has_row rid l then update_rows rid kvs l else None.

(** [posts_table.update(record_id, fields)] *)
Definition posts_update (rid : string) (kvs : Fields) : M unit :=
  request (UpdatePost rid kvs)
    (fun st => match patch_rows rid kvs (posts st) with
               | Some l => Some (tt, set_posts l st)
               | None => None
               end).

(** [posts_table.update(record_id, fields)] with [fields] not a dict:
    Airtable takes only an object as a record's fields and rejects it. *)
Definition posts_update_other (rid text : string) : M unit :=
  request (UpdatePostOther rid text) (fun _ => None).

(** [posts_table.batch_update] sends the records in chunks of ten, one
    request per chunk; Airtable validates each chunk as a whole. *)
Fixpoint chunks_aux {A} (fuel : nat) (l : list A) : list (list A) :=
  match fuel with
  | O => []
  | S fuel' =>
      match l with
      | [] => []
      | _ => firstn 10 l :: chunks_aux fuel' (skipn 10 l)
      end
  end.

Definition chunks {A} (l : list A) : list (list A) := chunks_aux (length l) l.

Fixpoint apply_chunk (items : list (string * Fields)) (l : list (string * Post))
  : option (list (string * Post)) :=
  match items with
  | [] => Some l
  | (rid, kvs) :: items' =>
      match patch_rows rid kvs l with
      | Some l' => apply_chunk items' l'
      | None => None
      end
  end.

(** Write the chunks in order; [limit = Some k]: the call fails after [k]
    chunks.  The boolean tells whether the whole call succeeded. *)
Fixpoint apply_chunks (limit : option nat) (cs : list (list (string * Fields)))
  (l : list (string * Post)) : bool * list (string * Post) :=
  match cs with
  | [] => (match limit with None => true | Some _ => false end, l)
  | c :: cs' =>
      match limit with
      | Some O => (false, l)
      | _ =>
          match apply_chunk c l with
          | Some l' => apply_chunks (option_map pred limit) cs' l'
          | None => (false, l)
          end
      end
  end.

(** [posts_table.batch_update(batch_operations)] *)
Definition posts_batch_update (items : list (string * Fields)) : M unit := fun st =>
  let st1 := tick st in
  let limit := match net st (calls st) (BatchUpdatePosts items) with
               | Success => None
               | Failure k => Some k
               end in
  let '(ok, l) := apply_chunks limit (chunks items) (posts st1) in
  (if ok then Ok tt else Raise AirtableError, set_posts l st1).

(** [retry_table.first()] *)
Definition retry_first : M (option (nat * RetryEntry)) :=
  request FirstRetry (fun st => Some (hd_error (retry_table st), st)).

Definition is_pending (e : RetryEntry) : bool := r_status e =? STATUS_PENDING.

(** [retry_table.all(formula="{Status} = 'Pending'")] *)
Definition retry_all_pending : M (list (nat * RetryEntry)) :=
  request ListPendingRetry
    (fun st => Some (filter (fun '(_, e) => is_pending e) (retry_table st), st)).

(** [retry_table.create(...)]: a new row at the end of the table. *)
Definition retry_create (e : RetryEntry) : M unit :=
  request (CreateRetry e)
    (fun st => Some (tt, set_retry (retry_table st ++ [(next_retry_id st, e)])%list
                                   (S (next_retry_id st)) st)).

Definition set_retry_status (s : string) (e : RetryEntry) : RetryEntry :=
  mkRetry (r_operation e) (r_record_id e) (r_details e) s.

(** [retry_table.update(item_id, {"Status": status})] *)
Definition retry_update_status (iid : nat) (s : string) : M unit :=
  request (UpdateRetryStatus iid s)
    (fun st =>
       if existsb (fun '(i, _) => Nat.eqb i iid) (retry_table st)
       then Some (tt, set_retry (map (fun '(i, e) => if Nat.eqb i iid
                                                     then (i, set_retry_status s e)
                                                     else (i, e)) (retry_table st))
                                (next_retry_id st) st)
       else None).

Definition get_clock : M string := fun st => (Ok (clock st), st).

(* ------------------------------------------------------------------ *)
(** ** [AirtableClient] *)

Section Client.
Context {PL : PyLiterals}.

(** [add_to_retry_queue(operation, record_id, details)] *)
Definition add_to_retry_queue (operation rid : string) (details : Fields) : M bool :=
  try_except
    (retry_create (mkRetry operation rid
                     (match details with [] => None | _ => Some (dict_str details) end)
                     STATUS_PENDING) ;;;
     ret true)
    (fun _ => ret false).

(** [update_record(record_id, fields)] *)
Definition update_record (rid : string) (kvs : Fields) : M bool :=
  try_except
    (posts_update rid kvs ;;; ret true)
    (fun _ => add_to_retry_queue "update" rid kvs ;;; ret false).

(** [batch_update_records(records_data)] *)
Definition batch_update_records (records_data : list (string * Fields)) : M bool :=
  match records_data with
  | [] => ret true
  | _ =>
      try_except
        (posts_batch_update records_data ;;; ret true)
        (fun _ => for_each records_data
                    (fun '(rid, kvs) => add_to_retry_queue "update" rid kvs ;;; ret tt) ;;;
                  ret false)
  end.

(** [update_record(record_id, fields)] when [fields] is a value other
    than a dict: the update raises, and [add_to_retry_queue] stores
    [str(details) if details else None]. *)
Definition update_record_other (rid text : string) (truthy : bool) : M bool :=
  try_except
    (posts_update_other rid text ;;; ret true)
    (fun _ =>
       try_except
         (retry_create (mkRetry "update" rid (if truthy then Some text else None)
                                STATUS_PENDING) ;;;
          ret true)
         (fun _ => ret false) ;;;
       ret false).

(** [update_record(record_id, update_fields)] on whatever value
    [ast.literal_eval] returned. *)
Definition update_record_lit (rid : string) (v : PyLit) : M bool :=
  match v with
  | LDict kvs => update_record rid kvs
  | LOther text truthy => update_record_other rid text truthy
  end.

(** The [Details] cell [add_to_retry_queue] writes for a payload:
    [str(details) if details else None]. *)
Definition lit_details (v : PyLit) : option string :=
  match v with
  | LDict kvs => match kvs with [] => None | _ => Some (dict_str kvs) end
  | LOther text truthy => if truthy then Some text else None
  end.

(** [ast.literal_eval(details) if details else {}] *)
Definition replay_payload (details : option string) : option PyLit :=
  match details with
  | None => Some (LDict [])
  | Some d => if d =? "" then Some (LDict []) else literal_eval d
  end.

(** The body of the [for item in retry_items] loop. *)
Definition retry_item (item : nat * RetryEntry) : M unit :=
  let '(item_id, e) := item in
  success <- (if r_operation e =? "update" then
                try_except
                  (match replay_payload (r_details e) with
                   | Some update_fields => update_record_lit (r_record_id e) update_fields
                   | None => raise ValueError
                   end)
                  (fun _ => ret false)
              else ret false) ;;
  retry_update_status item_id (if success then STATUS_COMPLETED else STATUS_FAILED).

(** [process_retry_queue()] *)
Definition process_retry_queue : M unit :=
  try_except
    (_ <- retry_first ;;
     retry_items <- retry_all_pending ;;
     for_each retry_items retry_item)
    (fun _ => ret tt).

End Client.

(* ------------------------------------------------------------------ *)
(** ** [CaptionGenerator] *)

(** One attempt of [generate_caption]: a 429 error and any non-request
    exception raise (and are retried); other request errors are returned
    as [{"error": ...}]. *)
Definition generate_caption_attempt (prompt : string) : M CaptionResult := fun st =>
  let st1 := tick_llm st in
  match llm st (llm_calls st) prompt with
  | LlmContent content => (Ok (caption_from_content content), st1)
  | LlmRequestError msg =>
      if Py.contains "429" msg then (Raise RequestException, st1)
      else (Ok (CapErr msg), st1)
  | LlmOtherError => (Raise LlmError, st1)
  end.

(** [@retry(stop=stop_after_attempt(3))]: three attempts, then
    [tenacity.RetryError]. *)
Definition retry3 {A} (m : M A) : M A :=
  try_except m (fun _ => try_except m (fun _ => try_except m (fun _ => raise RetryError))).

Definition generate_caption (prompt : string) : M CaptionResult :=
  retry3 (generate_caption_attempt prompt).

Definition caption_prompt (content company_name : string) : string :=
  "Generate a detailed caption based on " ++ content ++ " and " ++ company_name ++
  ", include power words and realism and include 10 relevant hashtags at the end of the caption.".

Definition CAPTION_ERROR_TEXT := "API Error: Rate limit exceeded".

(** The [batch_updates] entries produced for one record. *)
Definition caption_update (rid : string) (result : CaptionResult) : string * Fields :=
  match result with
  | CapErr _ =>
      (rid, [(FIELD_CAPTION, CAPTION_ERROR_TEXT); (FIELD_STATUS, STATUS_FAILED)])
  | CapOk c h =>
      (rid, [(FIELD_CAPTION, c ++ " " ++ h); (FIELD_STATUS, STATUS_PENDING)])
  end.

(** The [for record in records] loop of [generate_captions_from_airtable]. *)
Fixpoint caption_updates (company_name : string) (records : list (string * Post))
  : M (list (string * Fields)) :=
  match records with
  | [] => ret []
  | (rid, p) :: records' =>
      upd <- (if negb (f_prompt p =? "") then
                result <- generate_caption (caption_prompt (f_prompt p) company_name) ;;
                ret [caption_update rid result]
              else ret []) ;;
      rest <- caption_updates company_name records' ;;
      ret (upd ++ rest)%list
  end.

Inductive PassResult := PassNoNewPrompts | PassCompleted | PassError.

Section Stages.
Context {PL : PyLiterals}.

(** [generate_captions_from_airtable(company_name)] *)
Definition generate_captions_from_airtable (company_name : string) : M PassResult :=
  try_except
    (records <- posts_all QNeedCaptions ;;
     match records with
     | [] => ret PassNoNewPrompts
     | _ =>
         batch_updates <- caption_updates company_name records ;;
         (match batch_updates with
          | [] => ret true
          | _ => batch_update_records batch_updates
          end) ;;;
         ret PassCompleted
     end)
    (fun _ => ret PassError).

End Stages.

(* ------------------------------------------------------------------ *)
(** ** [instagram_poster.publish_single_post] *)

(** A JSON value as the code sees it: a string, an integer, or anything
    else together with its [str()] text. *)
Inductive PyVal := VStr (s : string) | VInt (z : Z) | VOther (text : string).

Definition digit_char (d : Z) : ascii := ascii_of_nat (48 + Z.to_nat d).

Fixpoint pos_digits (fuel : nat) (n : Z) (acc : string) : string :=
  match fuel with
  | O => acc
  | S fuel' =>
      let acc' := String (digit_char (n mod 10)) acc in
      if (n <? 10)%Z then acc' else pos_digits fuel' (n / 10)%Z acc'
  end.

(** [str(z)] for an integer. *)
Definition z_str (z : Z) : string :=
  if (z <? 0)%Z then "-" ++ pos_digits (Z.to_nat (Z.log2 (- z)) + 1) (- z)%Z ""
  else pos_digits (Z.to_nat (Z.log2 z) + 1) z "".

Definition py_str (v : PyVal) : string :=
  match v with
  | VStr s => s
  | VInt z => z_str z
  | VOther t => t
  end.

(** A JSON object; [obj.get(k)] and [obj[k]] see the last binding of [k],
    as [json.loads] keeps the last duplicate key. *)
Definition JsonObj := list (string * PyVal).

Fixpoint json_get (k : string) (o : JsonObj) : option PyVal :=
  match o with
  | [] => None
  | (k', v) :: o' =>
      match json_get k o' with
      | Some v' => Some v'
      | None => if k' =? k then Some v else None
      end
  end.

(** A [requests.post] call: it raises, or returns a response with
    [response.ok] and a body that [response.json()] decodes to an object
    (a body that is not a JSON object makes every use in the code raise). *)
Inductive HttpResponse :=
| HttpRaise
| HttpResp (ok : bool) (json : option JsonObj).

(** The two Graph API endpoints: the media container (image URL and
    caption), and [media_publish] (the [creation_id]). *)
Record InstagramApi := mkApi {
  post_container : string -> string -> HttpResponse;
  post_publish : option PyVal -> HttpResponse }.

(** The body of the outer [try] of [publish_single_post]. *)
Definition publish_body (api : InstagramApi) (image_url caption : string)
  : Res (option string) :=
  match post_container api image_url caption with
  | HttpRaise => Raise RequestException
  | HttpResp ok j =>
      if negb ok then
        (* logging.error(f"Container error: {response.json()}") *)
        match j with None => Raise ValueError | Some _ => Ok None end
      else
        match j with
        | None => Raise ValueError
        | Some o =>
            let creation_id := json_get "id" o in
            match post_publish api creation_id with
            | HttpRaise => Raise RequestException
            | HttpResp ok2 j2 =>
                if negb ok2 then
                  match j2 with None => Raise ValueError | Some _ => Ok None end
                else
                  match j2 with
                  | None => Raise ValueError
                  | Some o2 =>
                      match json_get "id" o2 with
                      | None => Ok None                 (* except KeyError *)
                      | Some v =>
                          let media_id := py_str v in
                          if Py.isdigit media_id then Ok (Some media_id)
                          else Raise ValueError          (* "Invalid ID format" *)
                      end
                  end
            end
        end
  end.

(** [except Exception: return None] *)
Definition publish_single_post (api : InstagramApi) (image_url caption : string)
  : option string :=
  match publish_body api image_url caption with
  | Ok r => r
  | Raise _ => None
  end.

Example z_str_ex : z_str 1790 = "1790" /\ z_str (-5) = "-5" /\ z_str 0 = "0".
Proof. repeat split; reflexivity. Qed.

(* ------------------------------------------------------------------ *)
(** ** [process_next_post] *)

(** Python truthiness of [media_id] ([None] or a string). *)
Definition truthy (o : option string) : bool :=
  match o with Some s => negb (s =? "") | None => false end.

Section Publish.
Context {PL : PyLiterals}.

(** The part of [process_next_post] after [record = records[0]]. *)
Definition publish_record (api : InstagramApi) (record_id : string) (fields : Post)
  : M bool :=
  if (f_image_url fields =? "") || (f_caption fields =? "") then
    update_record record_id [(FIELD_STATUS, STATUS_FAILED)] ;;; ret false
  else
    let full_caption := Py.strip (f_caption fields) in
    let media_id := publish_single_post api (f_image_url fields) full_caption in
    if truthy media_id then
      now <- get_clock ;;
      update_record record_id
        [(FIELD_PUBLISHED, "Yes");
         (FIELD_MEDIA_ID, match media_id with Some m => m | None => "" end);
         (FIELD_PUBLISH_DATE, now);
         (FIELD_STATUS, STATUS_COMPLETED)] ;;;
      ret true
    else
      update_record record_id [(FIELD_STATUS, STATUS_FAILED)] ;;; ret false.

Definition process_next_post (api : InstagramApi) : M bool :=
  try_except
    (records <- posts_all QReadyToPublish ;;
     records <- (match records with
                 | [] => posts_all QAnyUnpublished
                 | _ => ret records
                 end) ;;
     match records with
     | [] => ret false
     | (record_id, fields) :: _ => publish_record api record_id fields
     end)
    (fun _ => ret false).

End Publish.

(** The record the publish stage acts on, as the spec describes it: the
    first result of the primary query, or else of the fallback query. *)
Definition publish_target (ps : list (string * Post)) : option string :=
  match filter (fun '(_, p) => query_matches QReadyToPublish p) ps with
  | (i, _) :: _ => Some i
  | [] =>
      match filter (fun '(_, p) => query_matches QAnyUnpublished p) ps with
      | (i, _) :: _ => Some i
      | [] => None
      end
  end.

(* ------------------------------------------------------------------ *)
(** ** Helpers for concrete checks *)

(** The non-empty suffixes of a string. *)
Fixpoint suffixes (s : string) : list string :=
  match s with
  | EmptyString => []
  | String _ s' => s :: suffixes s'
  end.

Lemma in_suffixes p1 p2 : p2 <> EmptyString -> In p2 (suffixes (p1 ++ p2)).
Proof.
  intros H; induction p1 as [|c p1 IH]; simpl.
  - destruct p2; [contradiction|left; reflexivity].
  - right; exact IH.
Qed.

(** A decision procedure for the second half of [first_occurrence]. *)
Definition first_occurrence_b (sep pre post : string) : bool :=
  forallb (fun p2 => negb (String.prefix sep (p2 ++ sep ++ post))) (suffixes pre).

Lemma first_occurrence_b_sound sep pre post :
  first_occurrence_b sep pre post = true ->
  first_occurrence sep (pre ++ sep ++ post) pre post.
Proof.
  intros H; split; [reflexivity|]. intros p1 p2 -> Hne.
  unfold first_occurrence_b in H. rewrite forallb_forall in H.
  apply negb_true_iff, H, in_suffixes, Hne.
Qed.

Lemma str_all_In p s c :
  str_all p s = true -> In c (list_ascii_of_string s) -> p c = true.
Proof.
  induction s as [|c' s IH]; simpl; [contradiction|].
  intros H [<-|Hin]; apply andb_true_iff in H as [H1 H2]; auto.
Qed.

(* ------------------------------------------------------------------ *)
(** ** Reasoning about computations in [M] *)

(** A relation between the state before and after a computation that
    every step of it keeps. *)
Class StepRel (R : St -> St -> Prop) := {
  step_refl : forall st, R st st;
  step_trans : forall s1 s2 s3, R s1 s2 -> R s2 s3 -> R s1 s3 }.

Definition preserves (R : St -> St -> Prop) {A} (m : M A) : Prop :=
  forall st, R st (snd (m st)).

Section Preserves.
Context (R : St -> St -> Prop) `{StepRel R}.

Lemma preserves_ret {A} (a : A) : preserves R (ret a).
Proof. intros st; apply step_refl. Qed.

Lemma preserves_raise {A} e : preserves R (@raise A e).
Proof. intros st; apply step_refl. Qed.

Lemma preserves_bind {A B} (m : M A) (k : A -> M B) :
  preserves R m -> (forall a, preserves R (k a)) -> preserves R (bind m k).
Proof.
  intros Hm Hk st. unfold bind. specialize (Hm st).
  destruct (m st) as [[a|e] st']; simpl in *; [|exact Hm].
  eapply step_trans; [exact Hm|apply Hk].
Qed.

Lemma preserves_try {A} (m : M A) (h : Exn -> M A) :
  preserves R m -> (forall e, preserves R (h e)) -> preserves R (try_except m h).
Proof.
  intros Hm Hh st. unfold try_except. specialize (Hm st).
  destruct (m st) as [[a|e] st']; simpl in *; [exact Hm|].
  eapply step_trans; [exact Hm|apply Hh].
Qed.

Lemma preserves_for_each {A} (l : list A) (f : A -> M unit) :
  (forall x, In x l -> preserves R (f x)) -> preserves R (for_each l f).
Proof.
  induction l as [|x l IH]; intros Hf; simpl; [apply preserves_ret|].
  apply preserves_bind; [apply Hf; left; reflexivity|].
  intros _; apply IH; intros y Hy; apply Hf; right; exact Hy.
Qed.

Lemma preserves_request {A} r (exec : St -> option (A * St)) :
  (forall st, R st (tick st)) ->
  (forall st a st', exec (tick st) = Some (a, st') -> R st st') ->
  preserves R (request r exec).
Proof.
  intros Ht He st. unfold request.
  destruct (net st (calls st) r); [|apply Ht].
  destruct (exec (tick st)) as [[a st']|] eqn:E; [eapply He; eauto|apply Ht].
Qed.

Lemma preserves_get_clock : preserves R get_clock.
Proof. intros st; apply step_refl. Qed.

End Preserves.

(** Only the rows with id [rid] of the Posts table may change (the table
    keeps its shape). *)
Definition rows_rel (rid : string) (l l' : list (string * Post)) : Prop :=
  Forall2 (fun a b => fst a = fst b /\ (fst a <> rid -> snd a = snd b)) l l'.

Definition posts_only_at (rid : string) (st st' : St) : Prop :=
  rows_rel rid (posts st) (posts st').

Lemma rows_rel_refl rid l : rows_rel rid l l.
Proof. induction l; constructor; auto. Qed.

Lemma rows_rel_trans rid l1 l2 l3 :
  rows_rel rid l1 l2 -> rows_rel rid l2 l3 -> rows_rel rid l1 l3.
Proof.
  intros H12; revert l3; induction H12 as [|a b l1 l2 [Hab Hab'] _ IH]; intros l3 H23.
  - inversion H23; constructor.
  - inversion H23 as [|b' c l2' l3' [Hbc Hbc'] H23']; subst.
    constructor; [|apply IH; exact H23'].
    split; [congruence|]. intros Hne. rewrite (Hab' Hne). apply Hbc'. congruence.
Qed.

#[export] Instance posts_only_at_step rid : StepRel (posts_only_at rid).
Proof.
  split; unfold posts_only_at; [intros; apply rows_rel_refl|].
  intros s1 s2 s3; apply rows_rel_trans.
Qed.

Lemma update_rows_rel rid kvs l l' :
  update_rows rid kvs l = Some l' -> rows_rel rid l l'.
Proof.
  revert l'; induction l as [|[i p] l IH]; intros l' E; simpl in E.
  - injection E as <-; constructor.
  - destruct (update_rows rid kvs l) as [l''|] eqn:E1; [|discriminate].
    destruct (i =? rid) eqn:Ei.
    + destruct (apply_fields kvs p) as [p'|]; [|discriminate].
      injection E as <-. constructor; [|apply IH; reflexivity].
      simpl. split; [reflexivity|]. intros Hne. apply String.eqb_eq in Ei. contradiction.
    + injection E as <-. constructor; [split; reflexivity|apply IH; reflexivity].
Qed.

Lemma patch_rows_rel rid kvs l l' :
  patch_rows rid kvs l = Some l' -> rows_rel rid l l'.
Proof.
  unfold patch_rows. destruct (has_row rid l); [apply update_rows_rel|discriminate].
Qed.

Lemma posts_update_only rid kvs : preserves (posts_only_at rid) (posts_update rid kvs).
Proof.
  apply preserves_request; [intros st; apply rows_rel_refl|].
  intros st a st' E. destruct (patch_rows rid kvs (posts (tick st))) eqn:P; [|discriminate].
  injection E as <- <-. apply (patch_rows_rel _ _ _ _ P).
Qed.

(** A step that leaves the Posts table as it is. *)
Definition posts_same (st st' : St) : Prop := posts st' = posts st.

#[export] Instance posts_same_step : StepRel posts_same.
Proof. split; unfold posts_same; [reflexivity|intros; congruence]. Qed.

Lemma posts_same_only rid st st' : posts_same st st' -> posts_only_at rid st st'.
Proof. unfold posts_same, posts_only_at; intros ->; apply rows_rel_refl. Qed.

Lemma preserves_weaken (R R' : St -> St -> Prop) {A} (m : M A) :
  (forall s s', R s s' -> R' s s') -> preserves R m -> preserves R' m.
Proof. intros HR Hm st. apply HR, Hm. Qed.

Lemma posts_all_same q : preserves posts_same (posts_all q).
Proof.
  apply preserves_request; [intros; reflexivity|].
  intros st a st' E; injection E as <- <-; reflexivity.
Qed.

Lemma retry_create_same e : preserves posts_same (retry_create e).
Proof.
  apply preserves_request; [intros; reflexivity|].
  intros st a st' E; injection E as <- <-; reflexivity.
Qed.

Section ClientFacts.
Context {PL : PyLiterals}.

Lemma add_to_retry_queue_same op rid d : preserves posts_same (add_to_retry_queue op rid d).
Proof.
  unfold add_to_retry_queue.
  apply preserves_try; try typeclasses eauto; [ |intros e; apply preserves_ret; try typeclasses eauto].
  apply preserves_bind; try typeclasses eauto; [apply retry_create_same|].
  intros x; apply preserves_ret; try typeclasses eauto.
Qed.

Lemma update_record_only rid kvs : preserves (posts_only_at rid) (update_record rid kvs).
Proof.
  unfold update_record.
  apply preserves_try; try typeclasses eauto; [ |].
  - apply preserves_bind; try typeclasses eauto; [apply posts_update_only|].
    intros x; apply preserves_ret; try typeclasses eauto.
  - intros e. apply preserves_bind; try typeclasses eauto; [ |].
    + eapply preserves_weaken; [apply posts_same_only|apply add_to_retry_queue_same].
    + intros x; apply preserves_ret; try typeclasses eauto.
Qed.

Lemma publish_record_only api rid p : preserves (posts_only_at rid) (publish_record api rid p).
Proof.
  unfold publish_record.
  destruct ((f_image_url p =? "") || (f_caption p =? "")).
  2: destruct (truthy _).
  all: repeat first [ apply preserves_bind; try typeclasses eauto; [ |intros ?x]
                    | apply update_record_only
                    | apply preserves_get_clock; try typeclasses eauto
                    | apply preserves_ret; try typeclasses eauto ].
Qed.

End ClientFacts.

Lemma rows_rel_to_target rid (target : option string) l l' :
  target = Some rid -> rows_rel rid l l' ->
  Forall2 (fun a b => fst a = fst b /\ (Some (fst a) <> target -> snd a = snd b)) l l'.
Proof.
  intros -> H. eapply Forall2_impl; [|exact H].
  intros a b [H1 H2]. split; [exact H1|]. intros Hne; apply H2; congruence.
Qed.

Lemma same_rows_to_target (target : option string) (l : list (string * Post)) :
  Forall2 (fun a b => fst a = fst b /\ (Some (fst a) <> target -> snd a = snd b)) l l.
Proof. induction l; constructor; auto. Qed.

Lemma publish_target_primary ps rid p rest :
  filter (fun '(_, p) => query_matches QReadyToPublish p) ps = (rid, p) :: rest ->
  publish_target ps = Some rid.
Proof. unfold publish_target; intros ->; reflexivity. Qed.

Lemma publish_target_fallback ps rid p rest :
  filter (fun '(_, p) => query_matches QReadyToPublish p) ps = [] ->
  filter (fun '(_, p) => query_matches QAnyUnpublished p) ps = (rid, p) :: rest ->
  publish_target ps = Some rid.
Proof. unfold publish_target; intros -> ->; reflexivity. Qed.

Lemma Forall2_refl_gen {A} (R : A -> A -> Prop) l :
  (forall a, R a a) -> Forall2 R l l.
Proof. intros H; induction l; constructor; auto. Qed.

Lemma Forall2_trans_gen {A} (R : A -> A -> Prop) l1 l2 l3 :
  (forall a b c, R a b -> R b c -> R a c) ->
  Forall2 R l1 l2 -> Forall2 R l2 l3 -> Forall2 R l1 l3.
Proof.
  intros HT H12; revert l3; induction H12; intros l3 H23; inversion H23; subst;
    constructor; eauto.
Qed.

(** The publication cells of a row: published flag, media ID, publish date. *)
Definition pub_same (a b : string * Post) : Prop :=
  fst a = fst b /\ f_published (snd b) = f_published (snd a) /\
  f_media_id (snd b) = f_media_id (snd a) /\
  f_publish_date (snd b) = f_publish_date (snd a).

Definition posts_pub_same (st st' : St) : Prop :=
  Forall2 pub_same (posts st) (posts st').

#[export] Instance posts_pub_same_step : StepRel posts_pub_same.
Proof.
  split; unfold posts_pub_same.
  - intros st; apply Forall2_refl_gen. intros a; repeat split.
  - intros s1 s2 s3; apply Forall2_trans_gen.
    intros a b c (H1 & H2 & H3 & H4) (H5 & H6 & H7 & H8); repeat split; congruence.
Qed.

Lemma posts_same_pub st st' : posts_same st st' -> posts_pub_same st st'.
Proof.
  unfold posts_same, posts_pub_same; intros ->.
  apply Forall2_refl_gen; intros a; repeat split.
Qed.

Definition set_status (s : string) (p : Post) : Post :=
  mkPost (f_prompt p) (f_caption p) (f_image_url p) (f_published p)
         (f_media_id p) (f_publish_date p) s.

Definition set_status_rows (rid s : string) (l : list (string * Post)) :=
  map (fun '(i, p) => if i =? rid then (i, set_status s p) else (i, p)) l.

Lemma update_rows_status rid s l :
  update_rows rid [(FIELD_STATUS, s)] l = Some (set_status_rows rid s l).
Proof.
  induction l as [|[i p] l IH]; simpl; [reflexivity|].
  rewrite IH. destruct (i =? rid); [destruct p|]; reflexivity.
Qed.

Lemma set_status_rows_pub rid s l : Forall2 pub_same l (set_status_rows rid s l).
Proof.
  induction l as [|[i p] l IH]; simpl; constructor; auto.
  destruct (i =? rid); repeat split.
Qed.

Lemma set_status_rows_status rid s l p :
  In (rid, p) (set_status_rows rid s l) -> f_status p = s.
Proof.
  induction l as [|[i q] l IH]; simpl; [contradiction|].
  destruct (i =? rid) eqn:E; intros [Hh|Ht]; auto.
  - injection Hh as _ <-. reflexivity.
  - injection Hh as -> _. rewrite String.eqb_refl in E. discriminate.
Qed.

Lemma posts_update_status_pub rid s :
  preserves posts_pub_same (posts_update rid [(FIELD_STATUS, s)]).
Proof.
  apply preserves_request.
  - intros st. apply posts_same_pub. reflexivity.
  - intros st a st' E. unfold patch_rows in E.
    destruct (has_row rid (posts (tick st))); [|discriminate].
    rewrite update_rows_status in E. injection E as <- <-.
    apply set_status_rows_pub.
Qed.

Section NoRaise.
Context {PL : PyLiterals}.

Lemma add_to_retry_queue_ok op rid d st :
  exists b, fst (add_to_retry_queue op rid d st) = Ok b.
Proof.
  unfold add_to_retry_queue, try_except, bind, ret.
  destruct (retry_create _ st) as [[[]|e] st']; simpl; eauto.
Qed.

Lemma update_record_ok rid kvs st : exists b, fst (update_record rid kvs st) = Ok b.
Proof.
  unfold update_record, try_except, bind at 1, ret.
  destruct (posts_update rid kvs st) as [[[]|e] st']; simpl; [eauto|].
  unfold bind. pose proof (add_to_retry_queue_ok "update" rid kvs st') as [b Hb].
  destruct (add_to_retry_queue "update" rid kvs st') as [[b'|e'] st'']; simpl in *;
    [eauto|discriminate].
Qed.

Lemma update_record_status_pub rid s :
  preserves posts_pub_same (update_record rid [(FIELD_STATUS, s)]).
Proof.
  unfold update_record.
  apply preserves_try; try typeclasses eauto.
  - apply preserves_bind; try typeclasses eauto; [apply posts_update_status_pub|].
    intros x; apply preserves_ret; try typeclasses eauto.
  - intros e. apply preserves_bind; try typeclasses eauto.
    + eapply preserves_weaken; [apply posts_same_pub|apply add_to_retry_queue_same].
    + intros x; apply preserves_ret; try typeclasses eauto.
Qed.

(** When the store accepts every request, [update_record] writes the status. *)
Lemma update_record_status_written rid s st :
  (forall n r, net st n r = Success) -> has_row rid (posts st) = true ->
  snd (update_record rid [(FIELD_STATUS, s)] st) =
  set_posts (set_status_rows rid s (posts st)) (tick st).
Proof.
  intros Hnet Hrow. unfold update_record, try_except, bind, posts_update, request.
  rewrite Hnet. simpl. unfold patch_rows. rewrite Hrow, update_rows_status. reflexivity.
Qed.

Lemma publish_record_failed api rid p st :
  (forall u c, publish_single_post api u c = None) ->
  fst (publish_record api rid p st) = Ok false /\
  posts_pub_same st (snd (publish_record api rid p st)) /\
  ((forall n r, net st n r = Success) -> has_row rid (posts st) = true ->
   posts (snd (publish_record api rid p st)) = set_status_rows rid STATUS_FAILED (posts st)).
Proof.
  intros Hnone. unfold publish_record.
  assert (Hb : forall m, m = update_record rid [(FIELD_STATUS, STATUS_FAILED)] ->
     fst ((m ;;; ret false) st) = Ok false /\ posts_pub_same st (snd ((m ;;; ret false) st)) /\
     ((forall n r, net st n r = Success) -> has_row rid (posts st) = true ->
      posts (snd ((m ;;; ret false) st)) = set_status_rows rid STATUS_FAILED (posts st))).
  { intros m ->. pose proof (update_record_status_pub rid STATUS_FAILED st) as Hp.
    pose proof (update_record_ok rid [(FIELD_STATUS, STATUS_FAILED)] st) as [b Hb].
    unfold bind, ret.
    destruct (update_record rid [(FIELD_STATUS, STATUS_FAILED)] st) as [[b'|e] st'] eqn:E;
      simpl in *; [|discriminate].
    split; [reflexivity|]. split; [exact Hp|]. intros Hnet Hrow.
    pose proof (update_record_status_written rid STATUS_FAILED st Hnet Hrow) as W.
    rewrite E in W. simpl in W. rewrite W. reflexivity. }
  destruct ((f_image_url p =? "") || (f_caption p =? "")); [apply Hb; reflexivity|].
  rewrite Hnone. simpl. apply Hb; reflexivity.
Qed.

End NoRaise.

Lemma publish_none_of_non_numeric api u c o o2 v :
  post_container api u c = HttpResp true (Some o) ->
  post_publish api (json_get "id" o) = HttpResp true (Some o2) ->
  json_get "id" o2 = Some v -> Py.isdigit (py_str v) = false ->
  publish_single_post api u c = None.
Proof.
  intros H1 H2 H3 H4. unfold publish_single_post, publish_body.
  rewrite H1; simpl. rewrite H2; simpl. rewrite H3, H4. reflexivity.
Qed.

Lemma filter_first_has_row (f : string * Post -> bool) l rid p rest :
  filter f l = (rid, p) :: rest -> has_row rid l = true.
Proof.
  intros E. assert (Hin : In (rid, p) (filter f l)) by (rewrite E; left; reflexivity).
  apply filter_In in Hin as [Hin _]. unfold has_row. apply existsb_exists.
  exists (rid, p). split; [exact Hin|apply String.eqb_refl].
Qed.

(* ------------------------------------------------------------------ *)
(** ** Concrete scenarios *)

(** A stand-in for [str] and [ast.literal_eval] that knows two payloads. *)
Definition demo_payload : Fields := [(FIELD_STATUS, STATUS_READY)].

Definition demo_literals : PyLiterals := {|
  dict_str := fun kvs =>
    "{" ++ String.concat ", " (map (fun '(k, v) => "'" ++ k ++ "': '" ++ v ++ "'") kvs)
    ++ "}";
  literal_eval := fun s =>
    if s =? "{'Status': 'Ready'}" then Some (LDict demo_payload)
    else if s =? "[1, 2]" then Some (LOther "[1, 2]" true)
    else None |}.

Definition all_success : nat -> Request -> Outcome := fun _ _ => Success.

(** The store rejects every update of a post. *)
Definition reject_post_updates : nat -> Request -> Outcome := fun _ r =>
  match r with UpdatePost _ _ => Failure 0 | _ => Success end.

Definition SUNSET_RESPONSE := "A golden sunset. Hashtags: #sunset #nature".

Definition post_sunset : Post := mkPost "sunset over mountains" "" "" "No" "" "" "".

Definition st_sunset : St :=
  mkSt [("rec1", post_sunset)] [] 0 all_success 0
       (fun _ _ => LlmContent SUNSET_RESPONSE) 0 "2026-01-01".

Definition post_ready : Post :=
  mkPost "sunset over mountains" "A golden sunset." "https://example.com/1.jpg"
         "No" "" "" STATUS_READY.

Definition st_publish (nt : nat -> Request -> Outcome) : St :=
  mkSt [("rec1", post_ready)] [] 0 nt 0 (fun _ _ => LlmOtherError) 0 "2026-01-01".

(** The Graph API accepts both calls but answers with a media ID [abc]. *)
Definition api_non_numeric : InstagramApi :=
  mkApi (fun _ _ => HttpResp true (Some [("id", VStr "17")]))
        (fun _ => HttpResp true (Some [("id", VStr "abc")])).

(** U+00B2 SUPERSCRIPT TWO, UTF-8 encoded: [str.isdigit] holds for it. *)
Definition SUPERSCRIPT_TWO : string :=
  String (ascii_of_nat 194) (String (ascii_of_nat 178) EmptyString).

(** The Graph API accepts both calls and answers with the media ID ['²']. *)
Definition api_superscript : InstagramApi :=
  mkApi (fun _ _ => HttpResp true (Some [("id", VStr "17")]))
        (fun _ => HttpResp true (Some [("id", VStr SUPERSCRIPT_TWO)])).

(** "A purely numeric string", read literally: non-empty, every character
    one of 0-9. *)
Definition purely_numeric (s : string) : bool := negb (s =? "") && Py.all_digits s.

Lemma bind_ok {A B} (m : M A) (k : A -> M B) st a st' :
  m st = (Ok a, st') -> bind m k st = k a st'.
Proof. intros E. unfold bind. rewrite E. reflexivity. Qed.

Lemma bind_raise {A B} (m : M A) (k : A -> M B) st e st' :
  m st = (Raise e, st') -> bind m k st = (Raise e, st').
Proof. intros E. unfold bind. rewrite E. reflexivity. Qed.

(* ------------------------------------------------------------------ *)
(** ** Dead-lettering *)

(** The retry entry [add_to_retry_queue] creates for an update. *)
Definition dead_letter {PL : PyLiterals} (item : string * Fields) : RetryEntry :=
  let '(rid, kvs) := item in
  mkRetry "update" rid (match kvs with [] => None | _ => Some (dict_str kvs) end)
          STATUS_PENDING.

(** The entries appended, with their ids, when [items] are dead-lettered
    one after the other starting at id [nid]. *)
Definition dead_letters {PL : PyLiterals} (nid : nat) (items : list (string * Fields))
  : list (nat * RetryEntry) :=
  combine (seq nid (length items)) (map dead_letter items).

Section DeadLetter.
Context {PL : PyLiterals}.

Lemma add_to_retry_queue_created rid kvs st :
  net st (calls st) (CreateRetry (dead_letter (rid, kvs))) = Success ->
  add_to_retry_queue "update" rid kvs st =
  (Ok true, set_retry (retry_table st ++ [(next_retry_id st, dead_letter (rid, kvs))])%list
                      (S (next_retry_id st)) (tick st)).
Proof.
  intros H. unfold add_to_retry_queue, try_except, bind, retry_create, request.
  cbn [dead_letter] in H. rewrite H. reflexivity.
Qed.

Lemma dead_letter_all items st :
  (forall n e, net st n (CreateRetry e) = Success) ->
  fst (for_each items (fun '(rid, kvs) => add_to_retry_queue "update" rid kvs ;;; ret tt) st)
    = Ok tt /\
  retry_table (snd (for_each items
                      (fun '(rid, kvs) => add_to_retry_queue "update" rid kvs ;;; ret tt) st))
    = (retry_table st ++ dead_letters (next_retry_id st) items)%list.
Proof.
  revert st; induction items as [|[rid kvs] items IH]; intros st Hnet.
  - cbn. rewrite app_nil_r. split; reflexivity.
  - set (f := fun '(rid, kvs) => add_to_retry_queue "update" rid kvs ;;; ret tt).
    set (st' := set_retry (retry_table st ++ [(next_retry_id st, dead_letter (rid, kvs))])%list
                          (S (next_retry_id st)) (tick st)).
    assert (E : for_each ((rid, kvs) :: items) f st = for_each items f st').
    { cbn [for_each]. unfold f; unfold bind; cbv beta iota.
      rewrite (add_to_retry_queue_created rid kvs st (Hnet _ _)). reflexivity. }
    rewrite E. unfold f. destruct (IH st' Hnet) as [H1 H2].
    split; [exact H1|]. rewrite H2. cbn. rewrite <- app_assoc. reflexivity.
Qed.

End DeadLetter.

(** The store rejects batch updates and accepts everything else. *)
Definition reject_batches : nat -> Request -> Outcome := fun _ r =>
  match r with BatchUpdatePosts _ => Failure 0 | _ => Success end.

Definition reject_all : nat -> Request -> Outcome := fun _ _ => Failure 0.

Definition batch_items : list (string * Fields) :=
  [("rec1", [(FIELD_STATUS, STATUS_FAILED)]); ("rec2", [])].

(* ------------------------------------------------------------------ *)
(** ** The retry table across a sweep *)

(** A step of one retry row: same id, and either unchanged or given the
    status Completed or Failed. *)
Definition entry_step (a b : nat * RetryEntry) : Prop :=
  fst a = fst b /\
  (snd b = snd a \/
   exists s, (s = STATUS_COMPLETED \/ s = STATUS_FAILED) /\ snd b = set_retry_status s (snd a)).

(** The retry table only grows at the end, its rows only move to Completed
    or Failed, the id counter only grows, and the store stays the same. *)
Definition retry_grows (st st' : St) : Prop :=
  net st' = net st /\ next_retry_id st <= next_retry_id st' /\
  exists pre ext, retry_table st' = (pre ++ ext)%list /\
                  Forall2 entry_step (retry_table st) pre.

(** The row at position [k] stays [x]. *)
Definition keep_entry (k : nat) (x : nat * RetryEntry) (st st' : St) : Prop :=
  nth_error (retry_table st) k = Some x -> nth_error (retry_table st') k = Some x.

(** The retry table, its counter and the store are untouched. *)
Definition retry_same (st st' : St) : Prop :=
  retry_table st' = retry_table st /\ next_retry_id st' = next_retry_id st /\
  net st' = net st.

Lemma entry_step_trans a b c : entry_step a b -> entry_step b c -> entry_step a c.
Proof.
  intros [Hab Hb] [Hbc Hc]. split; [congruence|].
  destruct a as [i ea], b as [i' eb], c as [i'' ec]; cbn in *.
  destruct Hb as [->|(s & Hs & ->)]; [exact Hc|].
  destruct Hc as [->|(s' & Hs' & ->)]; [right; eauto|].
  right. exists s'. split; [exact Hs'|]. reflexivity.
Qed.

#[export] Instance retry_grows_step : StepRel retry_grows.
Proof.
  split.
  - intros st. split; [reflexivity|]. split; [lia|].
    exists (retry_table st), []. rewrite app_nil_r. split; [reflexivity|].
    apply Forall2_refl_gen. intros a. split; [reflexivity|left; reflexivity].
  - intros s1 s2 s3 (N12 & I12 & pre & ext & E2 & F12) (N23 & I23 & pre' & ext' & E3 & F23).
    split; [congruence|]. split; [lia|].
    rewrite E2 in F23. apply Forall2_app_inv_l in F23 as (p1 & p2 & Fp1 & Fp2 & ->).
    exists p1, (p2 ++ ext')%list. rewrite E3, app_assoc. split; [reflexivity|].
    eapply Forall2_trans_gen; [apply entry_step_trans|exact F12|exact Fp1].
Qed.

#[export] Instance keep_entry_step k x : StepRel (keep_entry k x).
Proof. split; unfold keep_entry; auto. Qed.

#[export] Instance retry_same_step : StepRel retry_same.
Proof.
  split; unfold retry_same.
  - intros st; repeat split.
  - intros s1 s2 s3 (A & B & C) (D & E & F); repeat split; congruence.
Qed.

Lemma retry_same_grows st st' : retry_same st st' -> retry_grows st st'.
Proof.
  intros (A & B & C). split; [exact C|]. split; [lia|].
  exists (retry_table st'), []. rewrite app_nil_r. split; [reflexivity|].
  rewrite A. apply Forall2_refl_gen. intros a. split; [reflexivity|left; reflexivity].
Qed.

Lemma retry_same_keep k x st st' : retry_same st st' -> keep_entry k x st st'.
Proof. intros (A & _ & _). unfold keep_entry. rewrite A. auto. Qed.

Lemma posts_update_retry_same rid kvs : preserves retry_same (posts_update rid kvs).
Proof.
  apply preserves_request; [intros; repeat split|].
  intros st a st' E. destruct (patch_rows _ _ _); [|discriminate].
  injection E as <- <-. repeat split.
Qed.

Lemma retry_first_same : preserves retry_same retry_first.
Proof.
  apply preserves_request; [intros; repeat split|].
  intros st a st' E. injection E as <- <-. repeat split.
Qed.

Lemma retry_all_pending_same : preserves retry_same retry_all_pending.
Proof.
  apply preserves_request; [intros; repeat split|].
  intros st a st' E. injection E as <- <-. repeat split.
Qed.

Lemma retry_create_grows e : preserves retry_grows (retry_create e).
Proof.
  apply preserves_request; [intros; apply retry_same_grows; repeat split|].
  intros st a st' E. injection E as <- <-. split; [reflexivity|]. split; [cbn; lia|].
  exists (retry_table st), [(next_retry_id st, e)]. split; [reflexivity|].
  apply Forall2_refl_gen. intros b. split; [reflexivity|left; reflexivity].
Qed.

Lemma retry_create_keep k x e : preserves (keep_entry k x) (retry_create e).
Proof.
  apply preserves_request; [intros; apply retry_same_keep; repeat split|].
  intros st a st' E. injection E as <- <-. unfold keep_entry. cbn. intros H.
  rewrite nth_error_app1; [exact H|]. apply nth_error_Some. congruence.
Qed.

Lemma retry_update_status_grows iid s :
  s = STATUS_COMPLETED \/ s = STATUS_FAILED ->
  preserves retry_grows (retry_update_status iid s).
Proof.
  intros Hs. apply preserves_request; [intros; apply retry_same_grows; repeat split|].
  intros st a st' E. destruct (existsb _ _); [|discriminate]. injection E as <- <-.
  split; [reflexivity|]. split; [cbn; lia|].
  eexists _, []. rewrite app_nil_r. split; [reflexivity|]. cbn.
  induction (retry_table st) as [|[i e] l IH]; cbn; constructor; [|exact IH].
  destruct (Nat.eqb i iid); (split; [reflexivity|]); [right; eauto|left; reflexivity].
Qed.

Lemma retry_update_status_keep k x iid s :
  iid <> fst x -> preserves (keep_entry k x) (retry_update_status iid s).
Proof.
  intros Hne. apply preserves_request; [intros; apply retry_same_keep; repeat split|].
  intros st a st' E. destruct (existsb _ _); [|discriminate]. injection E as <- <-.
  unfold keep_entry. cbn. intros H. rewrite nth_error_map, H. destruct x as [i e]. cbn.
  destruct (Nat.eqb i iid) eqn:Ei; [|reflexivity].
  apply Nat.eqb_eq in Ei. cbn in Hne. congruence.
Qed.

Section SweepFacts.
Context {PL : PyLiterals}.

Lemma add_to_retry_queue_grows op rid d : preserves retry_grows (add_to_retry_queue op rid d).
Proof.
  unfold add_to_retry_queue. apply preserves_try; try typeclasses eauto.
  - apply preserves_bind; try typeclasses eauto; [apply retry_create_grows|].
    intros a; apply preserves_ret; try typeclasses eauto.
  - intros e; apply preserves_ret; try typeclasses eauto.
Qed.

Lemma add_to_retry_queue_keep k x op rid d :
  preserves (keep_entry k x) (add_to_retry_queue op rid d).
Proof.
  unfold add_to_retry_queue. apply preserves_try; try typeclasses eauto.
  - apply preserves_bind; try typeclasses eauto; [apply retry_create_keep|].
    intros a; apply preserves_ret; try typeclasses eauto.
  - intros e; apply preserves_ret; try typeclasses eauto.
Qed.

Lemma update_record_grows rid kvs : preserves retry_grows (update_record rid kvs).
Proof.
  unfold update_record. apply preserves_try; try typeclasses eauto.
  - apply preserves_bind; try typeclasses eauto.
    + eapply preserves_weaken; [apply retry_same_grows|apply posts_update_retry_same].
    + intros a; apply preserves_ret; try typeclasses eauto.
  - intros e. apply preserves_bind; try typeclasses eauto; [apply add_to_retry_queue_grows|].
    intros a; apply preserves_ret; try typeclasses eauto.
Qed.

Lemma update_record_keep k x rid kvs : preserves (keep_entry k x) (update_record rid kvs).
Proof.
  unfold update_record. apply preserves_try; try typeclasses eauto.
  - apply preserves_bind; try typeclasses eauto.
    + eapply preserves_weaken; [apply retry_same_keep|apply posts_update_retry_same].
    + intros a; apply preserves_ret; try typeclasses eauto.
  - intros e. apply preserves_bind; try typeclasses eauto; [apply add_to_retry_queue_keep|].
    intros a; apply preserves_ret; try typeclasses eauto.
Qed.

Lemma posts_update_other_same rid text : preserves retry_same (posts_update_other rid text).
Proof.
  apply preserves_request; [intros; repeat split|]. intros st a st' E; discriminate.
Qed.

Lemma update_record_other_grows rid text b :
  preserves retry_grows (update_record_other rid text b).
Proof.
  unfold update_record_other. apply preserves_try; try typeclasses eauto.
  - apply preserves_bind; try typeclasses eauto.
    + eapply preserves_weaken; [apply retry_same_grows|apply posts_update_other_same].
    + intros a; apply preserves_ret; try typeclasses eauto.
  - intros e. apply preserves_bind; try typeclasses eauto;
      [|intros a; apply preserves_ret; try typeclasses eauto].
    apply preserves_try; try typeclasses eauto;
      [|intros x; apply preserves_ret; try typeclasses eauto].
    apply preserves_bind; try typeclasses eauto; [apply retry_create_grows|].
    intros a; apply preserves_ret; try typeclasses eauto.
Qed.

Lemma update_record_other_keep k x rid text b :
  preserves (keep_entry k x) (update_record_other rid text b).
Proof.
  unfold update_record_other. apply preserves_try; try typeclasses eauto.
  - apply preserves_bind; try typeclasses eauto.
    + eapply preserves_weaken; [apply retry_same_keep|apply posts_update_other_same].
    + intros a; apply preserves_ret; try typeclasses eauto.
  - intros e. apply preserves_bind; try typeclasses eauto;
      [|intros a; apply preserves_ret; try typeclasses eauto].
    apply preserves_try; try typeclasses eauto;
      [|intros y; apply preserves_ret; try typeclasses eauto].
    apply preserves_bind; try typeclasses eauto; [apply retry_create_keep|].
    intros a; apply preserves_ret; try typeclasses eauto.
Qed.

Lemma update_record_lit_grows rid v : preserves retry_grows (update_record_lit rid v).
Proof. destruct v; [apply update_record_grows|apply update_record_other_grows]. Qed.

Lemma update_record_lit_keep k x rid v : preserves (keep_entry k x) (update_record_lit rid v).
Proof. destruct v; [apply update_record_keep|apply update_record_other_keep]. Qed.

(** The part of [retry_item] before the status write. *)
Definition replay (e : RetryEntry) : M bool :=
  if r_operation e =? "update" then
    try_except
      (match replay_payload (r_details e) with
       | Some update_fields => update_record_lit (r_record_id e) update_fields
       | None => raise ValueError
       end)
      (fun _ => ret false)
  else ret false.

Lemma retry_item_eq iid e :
  retry_item (iid, e) =
  (success <- replay e ;;
   retry_update_status iid (if success then STATUS_COMPLETED else STATUS_FAILED)).
Proof. reflexivity. Qed.

Lemma replay_ok e st : exists b, fst (replay e st) = Ok b.
Proof.
  unfold replay. destruct (r_operation e =? "update"); [|cbn; eauto].
  unfold try_except. destruct (match replay_payload (r_details e) with
                               | Some u => update_record_lit (r_record_id e) u
                               | None => raise ValueError end st) as [[b|x] st'];
    cbn; eauto.
Qed.

Lemma replay_grows e : preserves retry_grows (replay e).
Proof.
  unfold replay. destruct (r_operation e =? "update"); [|apply preserves_ret; try typeclasses eauto].
  apply preserves_try; try typeclasses eauto.
  - destruct (replay_payload (r_details e));
      [apply update_record_lit_grows|apply preserves_raise; try typeclasses eauto].
  - intros x; apply preserves_ret; try typeclasses eauto.
Qed.

Lemma replay_keep k x e : preserves (keep_entry k x) (replay e).
Proof.
  unfold replay. destruct (r_operation e =? "update"); [|apply preserves_ret; try typeclasses eauto].
  apply preserves_try; try typeclasses eauto.
  - destruct (replay_payload (r_details e));
      [apply update_record_lit_keep|apply preserves_raise; try typeclasses eauto].
  - intros y; apply preserves_ret; try typeclasses eauto.
Qed.

Lemma retry_item_grows item : preserves retry_grows (retry_item item).
Proof.
  destruct item as [iid e]. rewrite retry_item_eq.
  apply preserves_bind; try typeclasses eauto; [apply replay_grows|].
  intros b. apply retry_update_status_grows. destruct b; auto.
Qed.

Lemma retry_item_keep k x item :
  fst item <> fst x -> preserves (keep_entry k x) (retry_item item).
Proof.
  destruct item as [iid e]. intros Hne. rewrite retry_item_eq.
  apply preserves_bind; try typeclasses eauto; [apply replay_keep|].
  intros b. apply retry_update_status_keep. exact Hne.
Qed.

Lemma process_retry_queue_grows : preserves retry_grows process_retry_queue.
Proof.
  unfold process_retry_queue. apply preserves_try; try typeclasses eauto.
  - apply preserves_bind; try typeclasses eauto.
    { eapply preserves_weaken; [apply retry_same_grows|apply retry_first_same]. }
    intros a. apply preserves_bind; try typeclasses eauto.
    { eapply preserves_weaken; [apply retry_same_grows|apply retry_all_pending_same]. }
    intros l. apply preserves_for_each; try typeclasses eauto.
    intros y _. apply retry_item_grows.
  - intros e; apply preserves_ret; try typeclasses eauto.
Qed.

(** [n] sweeps in a row. *)
Fixpoint sweeps (n : nat) (st : St) : St :=
  match n with
  | O => st
  | S n' => sweeps n' (snd (process_retry_queue st))
  end.

Lemma sweeps_grows n st : retry_grows st (sweeps n st).
Proof.
  revert st; induction n as [|n IH]; intros st; cbn [sweeps]; [apply step_refl|].
  eapply step_trans; [apply process_retry_queue_grows|apply IH].
Qed.

Lemma retry_grows_ids st st' i :
  retry_grows st st' -> In i (map fst (retry_table st)) -> In i (map fst (retry_table st')).
Proof.
  intros (_ & _ & pre & ext & -> & F) Hin. rewrite map_app. apply in_or_app. left.
  clear ext. induction F as [|a b l l' [Hab _] F IH]; cbn in *; [contradiction|].
  destruct Hin as [<-|Hin]; [left; symmetry; exact Hab|right; auto].
Qed.

Lemma nth_error_app_some {A} (l l' : list A) k a :
  nth_error l k = Some a -> nth_error (l ++ l') k = Some a.
Proof.
  intros H. rewrite nth_error_app1; [exact H|]. apply nth_error_Some. congruence.
Qed.

Lemma Forall2_nth_error_some {A B} (R : A -> B -> Prop) l l' k a :
  Forall2 R l l' -> nth_error l k = Some a -> exists b, nth_error l' k = Some b /\ R a b.
Proof.
  intros F; revert k; induction F as [|x y l l' Hxy F IH]; intros [|k] H; cbn in *;
    try discriminate; [injection H as <-; eauto|eauto].
Qed.

Lemma retry_grows_done st st' k i e :
  retry_grows st st' -> nth_error (retry_table st) k = Some (i, e) ->
  r_status e <> STATUS_PENDING ->
  exists e', nth_error (retry_table st') k = Some (i, e') /\ r_status e' <> STATUS_PENDING.
Proof.
  intros (_ & _ & pre & ext & -> & F) Hk Hs.
  destruct (Forall2_nth_error_some _ _ _ _ _ F Hk) as [[i' e'] [Hpre [Hi He]]].
  cbn in Hi, He. subst i'. exists e'. split; [apply nth_error_app_some; exact Hpre|].
  destruct He as [->|(s & [-> | ->] & ->)]; [exact Hs|discriminate|discriminate].
Qed.

(** The Posts table keeps its record ids, in order. *)
Definition posts_ids (st st' : St) : Prop := map fst (posts st') = map fst (posts st).

#[export] Instance posts_ids_step : StepRel posts_ids.
Proof. split; unfold posts_ids; [reflexivity|intros; congruence]. Qed.

Lemma posts_same_ids st st' : posts_same st st' -> posts_ids st st'.
Proof. unfold posts_same, posts_ids. intros ->. reflexivity. Qed.

Lemma posts_only_at_ids rid st st' : posts_only_at rid st st' -> posts_ids st st'.
Proof.
  unfold posts_only_at, rows_rel, posts_ids. intros H.
  induction H as [|a b l l' [Hab _] _ IH]; cbn; [reflexivity|]. rewrite Hab, IH. reflexivity.
Qed.

Lemma update_record_other_same rid text b :
  preserves posts_same (update_record_other rid text b).
Proof.
  unfold update_record_other. apply preserves_try; try typeclasses eauto.
  - apply preserves_bind; try typeclasses eauto.
    + apply preserves_request; [intros; reflexivity|]. intros st a st' E; discriminate.
    + intros a; apply preserves_ret; try typeclasses eauto.
  - intros e. apply preserves_bind; try typeclasses eauto;
      [|intros a; apply preserves_ret; try typeclasses eauto].
    apply preserves_try; try typeclasses eauto;
      [|intros x; apply preserves_ret; try typeclasses eauto].
    apply preserves_bind; try typeclasses eauto; [apply retry_create_same|].
    intros a; apply preserves_ret; try typeclasses eauto.
Qed.

Lemma update_record_lit_ids rid v : preserves posts_ids (update_record_lit rid v).
Proof.
  destruct v; cbn [update_record_lit].
  - eapply preserves_weaken; [apply posts_only_at_ids|apply update_record_only].
  - eapply preserves_weaken; [apply posts_same_ids|apply update_record_other_same].
Qed.

Lemma replay_ids e : preserves posts_ids (replay e).
Proof.
  unfold replay. destruct (r_operation e =? "update"); [|apply preserves_ret; try typeclasses eauto].
  apply preserves_try; try typeclasses eauto.
  - destruct (replay_payload (r_details e));
      [apply update_record_lit_ids|apply preserves_raise; try typeclasses eauto].
  - intros y; apply preserves_ret; try typeclasses eauto.
Qed.

Lemma retry_update_status_same iid s : preserves posts_same (retry_update_status iid s).
Proof.
  apply preserves_request; [intros; reflexivity|].
  intros st a st' E. destruct (existsb _ _); [|discriminate]. injection E as <- <-.
  reflexivity.
Qed.

Lemma retry_item_ids item : preserves posts_ids (retry_item item).
Proof.
  destruct item as [iid e]. rewrite retry_item_eq.
  apply preserves_bind; try typeclasses eauto; [apply replay_ids|].
  intros b. eapply preserves_weaken; [apply posts_same_ids|apply retry_update_status_same].
Qed.

End SweepFacts.

Section SweepRun.
Context {PL : PyLiterals}.

Lemma existsb_id i (l : list (nat * RetryEntry)) :
  In i (map fst l) -> existsb (fun '(j, _) => Nat.eqb j i) l = true.
Proof.
  intros H. apply existsb_exists. apply in_map_iff in H as [[j e] [Hj Hin]].
  exists (j, e). split; [exact Hin|]. cbn in Hj. subst j. apply Nat.eqb_refl.
Qed.

Lemma nth_error_in_ids k i e (l : list (nat * RetryEntry)) :
  nth_error l k = Some (i, e) -> In i (map fst l).
Proof.
  intros H. apply nth_error_In in H. apply (in_map fst) in H. exact H.
Qed.

Lemma retry_item_ok iid e st :
  (forall n i s, net st n (UpdateRetryStatus i s) = Success) ->
  In iid (map fst (retry_table st)) ->
  exists st', retry_item (iid, e) st = (Ok tt, st').
Proof.
  intros Hnet Hin. rewrite retry_item_eq.
  destruct (replay_ok e st) as [b Hb]. pose proof (replay_grows e st) as G.
  destruct (replay e st) as [r st1] eqn:R. cbn in Hb, G. subst r.
  rewrite (bind_ok _ _ _ _ _ R). unfold retry_update_status, request.
  pose proof (retry_grows_ids _ _ _ G Hin) as Hin1.
  destruct G as (N & _). rewrite N, Hnet. cbn [retry_table tick]. rewrite (existsb_id _ _ Hin1). eauto.
Qed.

Lemma for_each_app {A} (l1 l2 : list A) (f : A -> M unit) st :
  for_each (l1 ++ l2) f st = (for_each l1 f ;;; for_each l2 f) st.
Proof.
  revert st; induction l1 as [|x l1 IH]; intros st; [reflexivity|].
  cbn [app for_each]. unfold bind at 1 2 3.
  destruct (f x st) as [[a|e] st']; [apply IH|reflexivity].
Qed.

(** A loop of [retry_item] over rows whose ids are in the table runs to
    its end. *)
Lemma for_each_retry_ok L st :
  (forall n i s, net st n (UpdateRetryStatus i s) = Success) ->
  (forall y, In y L -> In (fst y) (map fst (retry_table st))) ->
  exists st', for_each L retry_item st = (Ok tt, st') /\ retry_grows st st'.
Proof.
  revert st; induction L as [|[iid e] L IH]; intros st Hnet Hids.
  - exists st. split; [reflexivity|apply step_refl].
  - destruct (retry_item_ok iid e st Hnet (Hids _ (or_introl eq_refl))) as [st1 E1].
    pose proof (retry_item_grows (iid, e) st) as G1. rewrite E1 in G1. cbn in G1.
    destruct (IH st1) as [st2 [E2 G2]].
    + intros n i s. destruct G1 as (N & _). rewrite N. apply Hnet.
    + intros y Hy. apply (retry_grows_ids _ _ _ G1), Hids. right; exact Hy.
    + exists st2. cbn [for_each]. rewrite (bind_ok _ _ _ _ _ E1). split; [exact E2|].
      eapply step_trans; [exact G1|exact G2].
Qed.

Lemma for_each_retry_keep k x L :
  ~ In (fst x) (map fst L) -> preserves (keep_entry k x) (for_each L retry_item).
Proof.
  intros Hn. apply preserves_for_each; try typeclasses eauto.
  intros y Hy. apply retry_item_keep. intros E. apply Hn. rewrite <- E. apply in_map, Hy.
Qed.

Lemma NoDup_map_fst_filter {A B} (f : A * B -> bool) l :
  NoDup (map fst l) -> NoDup (map fst (filter f l)).
Proof.
  induction l as [|a l IH]; cbn; intros H; [constructor|].
  inversion H as [|? ? Hn Hd]; subst. destruct (f a); cbn; [|auto].
  constructor; [|auto]. intros Hin. apply Hn.
  apply in_map_iff in Hin as [b [Hb Hin]]. apply filter_In in Hin as [Hin _].
  rewrite <- Hb. apply in_map, Hin.
Qed.

(** [process_retry_queue] when the two queries are answered. *)
Lemma process_retry_queue_run st :
  (forall n, net st n FirstRetry = Success) ->
  (forall n, net st n ListPendingRetry = Success) ->
  forall st', for_each (filter (fun '(_, e) => is_pending e) (retry_table st)) retry_item
                       (tick (tick st)) = (Ok tt, st') ->
  process_retry_queue st = (Ok tt, st').
Proof.
  intros HF HL st' E. unfold process_retry_queue, try_except.
  assert (E1 : retry_first st = (Ok (hd_error (retry_table st)), tick st)).
  { unfold retry_first, request. rewrite HF. reflexivity. }
  assert (E2 : retry_all_pending (tick st) =
               (Ok (filter (fun '(_, e) => is_pending e) (retry_table st)), tick (tick st))).
  { unfold retry_all_pending, request. cbn [net tick]. rewrite HL. reflexivity. }
  rewrite (bind_ok _ _ _ _ _ E1), (bind_ok _ _ _ _ _ E2), E. reflexivity.
Qed.

(** Splitting a sweep at the row [x] it selects. *)
Lemma sweep_split st j x :
  (forall n, net st n FirstRetry = Success) ->
  (forall n, net st n ListPendingRetry = Success) ->
  (forall n i s, net st n (UpdateRetryStatus i s) = Success) ->
  NoDup (map fst (retry_table st)) ->
  nth_error (retry_table st) j = Some x -> is_pending (snd x) = true ->
  exists (l2 : list (nat * RetryEntry)) sa,
    retry_grows st sa /\ posts_ids st sa /\ nth_error (retry_table sa) j = Some x /\
    ~ In (fst x) (map fst l2) /\
    (forall y, In y l2 -> In (fst y) (map fst (retry_table st))) /\
    forall sb sc, retry_item x sa = (Ok tt, sb) -> for_each l2 retry_item sb = (Ok tt, sc) ->
    process_retry_queue st = (Ok tt, sc).
Proof.
  intros HF HL HU Hnd Hj Hp.
  set (L := filter (fun '(_, e) => is_pending e) (retry_table st)).
  assert (HinL : In x L).
  { apply filter_In. split; [apply nth_error_In with j; exact Hj|destruct x; exact Hp]. }
  assert (Hids : forall y, In y L -> In (fst y) (map fst (retry_table st))).
  { intros y Hy. apply filter_In in Hy as [Hy _]. apply in_map, Hy. }
  assert (HndL : NoDup (map fst L)) by (apply NoDup_map_fst_filter, Hnd).
  destruct (in_split _ _ HinL) as (l1 & l2 & EL).
  rewrite EL, map_app in HndL. cbn in HndL. apply NoDup_remove_2 in HndL.
  rewrite in_app_iff in HndL.
  destruct (for_each_retry_ok l1 (tick (tick st))) as [sa [Ea Ga]].
  - exact HU.
  - intros y Hy. apply Hids. rewrite EL. apply in_or_app. left; exact Hy.
  - exists l2, sa.
    assert (G0 : retry_grows st (tick (tick st)))
      by (apply retry_same_grows; repeat split).
    split; [eapply step_trans; [exact G0|exact Ga]|].
    split.
    { pose proof (preserves_for_each posts_ids l1 retry_item
                    (fun y _ => retry_item_ids y) (tick (tick st))) as P.
      rewrite Ea in P. exact P. }
    split.
    { pose proof (for_each_retry_keep j x l1 (fun H => HndL (or_introl H)) (tick (tick st))) as K.
      rewrite Ea in K. apply K. exact Hj. }
    split; [intros H; apply HndL; right; exact H|].
    split; [intros y Hy; apply Hids; rewrite EL; apply in_or_app; right; right; exact Hy|].
    intros sb sc Eb Ec. apply process_retry_queue_run; [exact HF|exact HL|].
    fold L. rewrite EL, for_each_app, (bind_ok _ _ _ _ _ Ea).
    cbn [for_each]. rewrite (bind_ok _ _ _ _ _ Eb). exact Ec.
Qed.

End SweepRun.

Section SweepItems.
Context {PL : PyLiterals}.

(** [retry_item] on an update whose payload does not parse. *)
Lemma retry_item_undeserializable iid e st k :
  (forall n i s, net st n (UpdateRetryStatus i s) = Success) ->
  nth_error (retry_table st) k = Some (iid, e) ->
  r_operation e = "update" -> replay_payload (r_details e) = None ->
  exists st', retry_item (iid, e) st = (Ok tt, st') /\ retry_grows st st' /\
    nth_error (retry_table st') k = Some (iid, set_retry_status STATUS_FAILED e).
Proof.
  intros Hnet Hk Hop Hpay.
  assert (R : replay e st = (Ok false, st)).
  { unfold replay. rewrite Hop, String.eqb_refl. unfold try_except. rewrite Hpay. reflexivity. }
  set (st' := set_retry (map (fun '(i, e0) => if Nat.eqb i iid
                                              then (i, set_retry_status STATUS_FAILED e0)
                                              else (i, e0)) (retry_table st))
                        (next_retry_id st) (tick st)).
  assert (E : retry_item (iid, e) st = (Ok tt, st')).
  { rewrite retry_item_eq, (bind_ok _ _ _ _ _ R). unfold retry_update_status, request.
    rewrite Hnet. cbn [retry_table tick].
    rewrite (existsb_id _ _ (nth_error_in_ids _ _ _ _ Hk)). reflexivity. }
  exists st'. split; [exact E|]. split.
  - pose proof (retry_item_grows (iid, e) st) as G. rewrite E in G. exact G.
  - cbn [st' retry_table set_retry]. rewrite nth_error_map, Hk. cbn.
    rewrite Nat.eqb_refl. reflexivity.
Qed.

(** The update of record [rid] with payload [v] fails in state [st]:
    the store rejects that update at every call, or the record is missing
    or the dict names a cell that is no column, or the payload is not a
    dict. *)
Definition update_rejected (st : St) (rid : string) (v : PyLit) : Prop :=
  match v with
  | LDict upd => (forall n, net st n (UpdatePost rid upd) <> Success) \/
                 patch_rows rid upd (posts st) = None
  | LOther _ _ => True
  end.

Lemma has_row_ids rid (l : list (string * Post)) :
  has_row rid l = existsb (fun i => i =? rid) (map fst l).
Proof. unfold has_row. induction l as [|[i p] l IH]; cbn; [reflexivity|]. rewrite IH. reflexivity. Qed.

Lemma set_field_none_any k v p p' : set_field k v p = None -> set_field k v p' = None.
Proof.
  destruct p, p'. unfold set_field.
  repeat (destruct (k =? _); [discriminate|]). reflexivity.
Qed.

Lemma apply_fields_none_any kvs p p' : apply_fields kvs p = None -> apply_fields kvs p' = None.
Proof.
  revert p p'; induction kvs as [|[k v] kvs IH]; intros p p' H; cbn in *; [discriminate|].
  destruct (set_field k v p) as [p1|] eqn:E1.
  - destruct (set_field k v p') as [p2|] eqn:E2; [exact (IH p1 p2 H)|reflexivity].
  - rewrite (set_field_none_any k v p p' E1). reflexivity.
Qed.

Lemma update_rows_none_ids rid kvs l l' :
  update_rows rid kvs l = None -> map fst l' = map fst l -> update_rows rid kvs l' = None.
Proof.
  revert l'; induction l as [|[i p] l IH]; intros [|[i' p'] l'] E Hm; cbn in *;
    try discriminate.
  injection Hm as -> Hm.
  destruct (update_rows rid kvs l) as [l1|] eqn:E1.
  - destruct (i =? rid) eqn:Ei; [|discriminate].
    destruct (apply_fields kvs p) eqn:Ea; [discriminate|].
    destruct (update_rows rid kvs l'); [|reflexivity].
    rewrite (apply_fields_none_any _ _ p' Ea). reflexivity.
  - rewrite (IH l' eq_refl Hm). reflexivity.
Qed.

Lemma patch_rows_none_ids rid kvs l l' :
  patch_rows rid kvs l = None -> map fst l' = map fst l -> patch_rows rid kvs l' = None.
Proof.
  unfold patch_rows. rewrite !has_row_ids. intros H Hm. rewrite Hm.
  destruct (existsb _ (map fst l)); [|reflexivity]. exact (update_rows_none_ids _ _ _ _ H Hm).
Qed.

Lemma update_rejected_ids st st' rid v :
  update_rejected st rid v -> net st' = net st -> posts_ids st st' ->
  update_rejected st' rid v.
Proof.
  destruct v; cbn; [|auto]. intros [H|H] N I; [left; rewrite N; exact H|right].
  exact (patch_rows_none_ids _ _ _ _ H I).
Qed.

(** A failing update, when the store accepts the creation of retry
    entries, is dead-lettered. *)
Lemma update_record_lit_fails rid v st :
  update_rejected st rid v -> (forall n c, net st n (CreateRetry c) = Success) ->
  update_record_lit rid v st =
  (Ok false, set_retry (retry_table st ++
                          [(next_retry_id st, mkRetry "update" rid (lit_details v)
                                                      STATUS_PENDING)])%list
                       (S (next_retry_id st)) (tick (tick st))).
Proof.
  intros Hrej Hcr. destruct v as [upd|text b]; cbn [update_record_lit].
  - unfold update_record, try_except.
    assert (P : posts_update rid upd st = (Raise AirtableError, tick st)).
    { unfold posts_update, request. destruct Hrej as [H|H].
      - destruct (net st (calls st) _) eqn:N; [exfalso; exact (H _ N)|reflexivity].
      - destruct (net st (calls st) _); [|reflexivity].
        change (posts (tick st)) with (posts st). rewrite H. reflexivity. }
    rewrite (bind_raise _ _ _ _ _ P). cbv beta iota.
    rewrite (bind_ok _ _ _ _ _ (add_to_retry_queue_created _ _ (tick st) (Hcr _ _))).
    reflexivity.
  - unfold update_record_other, try_except, bind, posts_update_other, retry_create,
      request, ret.
    destruct (net st (calls st) (UpdatePostOther rid text)); cbn [tick net calls];
      rewrite Hcr; reflexivity.
Qed.

(** [retry_item] on an update whose replay fails. *)
Lemma retry_item_replay_fails iid e v st k :
  (forall n i s, net st n (UpdateRetryStatus i s) = Success) ->
  (forall n c, net st n (CreateRetry c) = Success) ->
  update_rejected st (r_record_id e) v ->
  nth_error (retry_table st) k = Some (iid, e) -> iid < next_retry_id st ->
  r_operation e = "update" -> replay_payload (r_details e) = Some v ->
  exists st', retry_item (iid, e) st = (Ok tt, st') /\ retry_grows st st' /\
    nth_error (retry_table st') k = Some (iid, set_retry_status STATUS_FAILED e) /\
    nth_error (retry_table st') (length (retry_table st)) =
      Some (next_retry_id st, mkRetry "update" (r_record_id e) (lit_details v) STATUS_PENDING).
Proof.
  intros Hnet Hcr Hrej Hk Hlt Hop Hpay.
  set (st1 := set_retry (retry_table st ++
                           [(next_retry_id st, mkRetry "update" (r_record_id e) (lit_details v)
                                                       STATUS_PENDING)])%list
                        (S (next_retry_id st)) (tick (tick st))).
  assert (U : update_record_lit (r_record_id e) v st = (Ok false, st1))
    by exact (update_record_lit_fails _ _ _ Hrej Hcr).
  assert (R : replay e st = (Ok false, st1)).
  { unfold replay. rewrite Hop, String.eqb_refl. unfold try_except. rewrite Hpay, U.
    reflexivity. }
  set (st2 := set_retry (map (fun '(i, e0) => if Nat.eqb i iid
                                              then (i, set_retry_status STATUS_FAILED e0)
                                              else (i, e0)) (retry_table st1))
                        (next_retry_id st1) (tick st1)).
  assert (Hin : In iid (map fst (retry_table st1))).
  { cbn [st1 retry_table set_retry]. rewrite map_app. apply in_or_app. left.
    exact (nth_error_in_ids _ _ _ _ Hk). }
  assert (E : retry_item (iid, e) st = (Ok tt, st2)).
  { rewrite retry_item_eq, (bind_ok _ _ _ _ _ R). unfold retry_update_status, request.
    cbn [st1 net set_retry tick]. rewrite Hnet. cbn [retry_table tick].
    rewrite (existsb_id _ _ Hin). reflexivity. }
  exists st2. split; [exact E|]. split.
  - pose proof (retry_item_grows (iid, e) st) as G. rewrite E in G. exact G.
  - cbn [st2 st1 retry_table set_retry tick]. rewrite !nth_error_map. split.
    + rewrite (nth_error_app_some _ _ _ _ Hk). cbn. rewrite Nat.eqb_refl. reflexivity.
    + rewrite nth_error_app2, Nat.sub_diag by lia. cbn.
      replace (Nat.eqb (next_retry_id st) iid) with false
        by (symmetry; apply Nat.eqb_neq; lia).
      reflexivity.
Qed.

End SweepItems.

(** The store rejects status writes to the retry table. *)
Definition reject_status_writes : nat -> Request -> Outcome := fun _ r =>
  match r with UpdateRetryStatus _ _ => Failure 0 | _ => Success end.

(** The store rejects post updates and the creation of retry entries. *)
Definition reject_updates_and_creates : nat -> Request -> Outcome := fun _ r =>
  match r with UpdatePost _ _ | CreateRetry _ => Failure 0 | _ => Success end.

(** A Pending update in the retry table whose payload does not parse. *)
Definition entry_garbled : RetryEntry :=
  mkRetry "update" "rec1" (Some "not a dict") STATUS_PENDING.

(** A Pending update that sets the status of [rec1] back to Ready. *)
Definition entry_ready : RetryEntry :=
  mkRetry "update" "rec1" (Some "{'Status': 'Ready'}") STATUS_PENDING.

(** A Pending update whose payload [[1, 2]] is not a dict. *)
Definition entry_list : RetryEntry :=
  mkRetry "update" "rec1" (Some "[1, 2]") STATUS_PENDING.

Definition st_retry (e : RetryEntry) (nt : nat -> Request -> Outcome) : St :=
  mkSt [] [(0, e)] 1 nt 0 (fun _ _ => LlmOtherError) 0 "2026-01-01".

(* ------------------------------------------------------------------ *)
(** ** The caption pass *)

(** An attempt of the language-model call that does not raise: content,
    or a request error whose message does not mention 429. *)
Definition llm_attempt_ok (a : LlmAttempt) : bool :=
  match a with
  | LlmContent _ => true
  | LlmRequestError msg => negb (Py.contains "429" msg)
  | LlmOtherError => false
  end.

(** The two cells a caption pass writes, with one of the two outcomes. *)
Definition caption_fields_ok (kvs : Fields) : Prop :=
  exists c s, kvs = [(FIELD_CAPTION, c); (FIELD_STATUS, s)] /\
    ((c <> "" /\ s = STATUS_PENDING) \/ (c = CAPTION_ERROR_TEXT /\ s = STATUS_FAILED)).

Definition has_prompt (r : string * Post) : bool := negb (f_prompt (snd r) =? "").

(** The fields a batch writes to the row with id [k]. *)
Definition item_for (k : string) (items : list (string * Fields)) : option Fields :=
  option_map snd (find (fun it => fst it =? k) items).

(** A row before and after a batch of updates. *)
Definition row_after (items : list (string * Fields)) (a b : string * Post) : Prop :=
  fst a = fst b /\
  match item_for (fst a) items with
  | None => snd b = snd a
  | Some kvs => apply_fields kvs (snd a) = Some (snd b)
  end.

Lemma caption_update_ok rid r :
  fst (caption_update rid r) = rid /\ caption_fields_ok (snd (caption_update rid r)).
Proof.
  destruct r as [c h|err]; cbn; split; try reflexivity.
  - eexists _, _. split; [reflexivity|]. left. split; [|reflexivity].
    destruct c; discriminate.
  - eexists _, _. split; [reflexivity|]. right. split; reflexivity.
Qed.

Section CaptionPass.
Context {PL : PyLiterals}.

(** A step that only consumes language-model calls: the Posts table, the
    store and the count of store requests stay as they are. *)
Definition llm_step (st st' : St) : Prop :=
  posts st' = posts st /\ net st' = net st /\ calls st' = calls st.

#[export] Instance llm_step_step : StepRel llm_step.
Proof.
  split; unfold llm_step; [intros; repeat split|].
  intros s1 s2 s3 (A & B & C) (D & E & F); repeat split; congruence.
Qed.

Lemma generate_caption_step prompt : preserves llm_step (generate_caption prompt).
Proof.
  assert (Ha : preserves llm_step (generate_caption_attempt prompt)).
  { intros st. unfold generate_caption_attempt.
    destruct (llm st (llm_calls st) prompt); [|destruct (Py.contains "429" msg)|];
      repeat split. }
  unfold generate_caption, retry3.
  repeat (apply preserves_try; try typeclasses eauto; [exact Ha|intros ?]).
  apply preserves_raise; typeclasses eauto.
Qed.

(** The loop over the records, whatever the language model does: it
    consumes language-model calls only, and when it ends normally it has
    one well-formed item for each record with a prompt. *)
Lemma caption_updates_gen company records st :
  llm_step st (snd (caption_updates company records st)) /\
  forall items, fst (caption_updates company records st) = Ok items ->
    Forall2 (fun r it => fst it = fst r /\ caption_fields_ok (snd it))
            (filter has_prompt records) items.
Proof.
  revert st; induction records as [|[rid p] records IH]; intros st.
  - split; [apply step_refl|]. intros items H. injection H as <-. constructor.
  - cbn [caption_updates filter].
    change (has_prompt (rid, p)) with (negb (f_prompt p =? "")).
    assert (Hrest : forall st1 (u : list (string * Fields)) (l : list (string * Post)),
               llm_step st st1 ->
               (forall items, items = u -> Forall2 (fun r it => fst it = fst r /\
                                                     caption_fields_ok (snd it)) l items) ->
               llm_step st (snd ((rest <- caption_updates company records ;;
                                  ret (u ++ rest)%list) st1)) /\
               forall items, fst ((rest <- caption_updates company records ;;
                                   ret (u ++ rest)%list) st1) = Ok items ->
                 Forall2 (fun r it => fst it = fst r /\ caption_fields_ok (snd it))
                         (l ++ filter has_prompt records) items).
    { intros st1 u l S1 Fu. destruct (IH st1) as [S2 F2].
      destruct (caption_updates company records st1) as [[items|e] st2] eqn:E2.
      - rewrite (bind_ok _ _ _ _ _ E2). cbn [ret fst snd] in *.
        split; [eapply step_trans; [exact S1|exact S2]|].
        intros items' H. injection H as <-. apply Forall2_app; [apply Fu; reflexivity|].
        apply F2; reflexivity.
      - rewrite (bind_raise _ _ _ _ _ E2). cbn [fst snd] in *.
        split; [eapply step_trans; [exact S1|exact S2]|]. discriminate. }
    destruct (negb (f_prompt p =? "")).
    + pose proof (generate_caption_step (caption_prompt (f_prompt p) company) st) as S1.
      destruct (generate_caption (caption_prompt (f_prompt p) company) st)
        as [[r|e] st1] eqn:Eg; cbn [snd] in S1.
      * assert (U : (result <- generate_caption (caption_prompt (f_prompt p) company) ;;
                     ret [caption_update rid result]) st =
                    (Ok [caption_update rid r], st1))
          by (rewrite (bind_ok _ _ _ _ _ Eg); reflexivity).
        rewrite (bind_ok _ _ _ _ _ U).
        apply (Hrest st1 [caption_update rid r] [(rid, p)] S1).
        intros items ->. constructor; [|constructor].
        destruct (caption_update_ok rid r) as [H1 H2]. auto.
      * assert (U : (result <- generate_caption (caption_prompt (f_prompt p) company) ;;
                     ret [caption_update rid result]) st = (Raise e, st1))
          by (rewrite (bind_raise _ _ _ _ _ Eg); reflexivity).
        rewrite (bind_raise _ _ _ _ _ U). cbn [fst snd]. split; [exact S1|discriminate].
    + assert (U : ret (A := list (string * Fields)) [] st = (Ok [], st)) by reflexivity.
      rewrite (bind_ok _ _ _ _ _ U).
      apply (Hrest st [] [] (step_refl st)). intros items ->. constructor.
Qed.

End CaptionPass.

Lemma apply_chunk_app c1 c2 l :
  apply_chunk (c1 ++ c2) l =
  match apply_chunk c1 l with Some l1 => apply_chunk c2 l1 | None => None end.
Proof.
  revert l; induction c1 as [|[rid kvs] c1 IH]; intros l; [reflexivity|].
  cbn. destruct (patch_rows rid kvs l); [apply IH|reflexivity].
Qed.

Lemma chunks_aux_concat {A} fuel (l : list A) :
  length l <= fuel -> concat (chunks_aux fuel l) = l.
Proof.
  revert l; induction fuel as [|fuel IH]; intros l H; cbn [chunks_aux].
  - destruct l; [reflexivity|cbn in H; lia].
  - destruct l as [|a l']; [reflexivity|]. cbn [concat].
    rewrite IH; [apply firstn_skipn|]. rewrite length_skipn. cbn [length] in H |- *. lia.
Qed.

Lemma apply_chunks_all cs l l' :
  apply_chunk (concat cs) l = Some l' -> apply_chunks None cs l = (true, l').
Proof.
  revert l; induction cs as [|c cs IH]; intros l H; cbn in *.
  - injection H as ->. reflexivity.
  - rewrite apply_chunk_app in H. destruct (apply_chunk c l); [apply IH, H|discriminate].
Qed.

Lemma update_rows_ok rid kvs l :
  (forall p, exists p', apply_fields kvs p = Some p') ->
  exists l1, update_rows rid kvs l = Some l1 /\
    Forall2 (fun a b => fst a = fst b /\
               if fst a =? rid then apply_fields kvs (snd a) = Some (snd b)
               else snd b = snd a) l l1.
Proof.
  intros Hk. induction l as [|[i p] l IH]; [exists []; split; [reflexivity|constructor]|].
  destruct IH as [l1 [E F]]. cbn. rewrite E.
  destruct (i =? rid) eqn:Ei.
  - destruct (Hk p) as [p' Hp']. rewrite Hp'. eexists. split; [reflexivity|].
    constructor; [|exact F]. cbn. rewrite Ei. auto.
  - eexists. split; [reflexivity|]. constructor; [|exact F]. cbn. rewrite Ei. auto.
Qed.

Lemma has_row_Forall2 (R : string * Post -> string * Post -> Prop) rid l l' :
  (forall a b, R a b -> fst a = fst b) ->
  Forall2 R l l' -> has_row rid l' = has_row rid l.
Proof.
  intros HR. induction 1 as [|[i p] [i' p'] l l' Hab F IH]; [reflexivity|].
  apply HR in Hab. cbn [fst] in Hab. subst i'. unfold has_row in *. cbn [existsb].
  rewrite IH. reflexivity.
Qed.

Lemma item_for_notin k items : ~ In k (map fst items) -> item_for k items = None.
Proof.
  unfold item_for. induction items as [|[k' v] items IH]; intros H; [reflexivity|].
  cbn in *. destruct (k' =? k) eqn:E.
  - apply String.eqb_eq in E. subst. exfalso; apply H; left; reflexivity.
  - apply IH. intros Hin; apply H; right; exact Hin.
Qed.

Lemma item_for_in k v items :
  NoDup (map fst items) -> In (k, v) items -> item_for k items = Some v.
Proof.
  unfold item_for. induction items as [|[k' v'] items IH]; intros Hnd Hin; [contradiction|].
  inversion Hnd as [|? ? Hn Hd]; subst. cbn in *. destruct Hin as [E|Hin].
  - injection E as -> ->. rewrite String.eqb_refl. reflexivity.
  - destruct (k' =? k) eqn:E.
    + apply String.eqb_eq in E. subst. exfalso. apply Hn. apply (in_map fst) in Hin. exact Hin.
    + apply IH; assumption.
Qed.

Lemma Forall2_compose {A B C} (R1 : A -> B -> Prop) (R2 : B -> C -> Prop)
    (R3 : A -> C -> Prop) l1 l2 l3 :
  Forall2 R1 l1 l2 -> Forall2 R2 l2 l3 ->
  (forall a b c, R1 a b -> R2 b c -> R3 a c) -> Forall2 R3 l1 l3.
Proof.
  intros F12 F23 Hc; revert l3 F23; induction F12 as [|a b l1 l2 Hab F12 IH];
    intros l3 F23; inversion F23; subst; constructor; eauto.
Qed.

(** A batch of updates of distinct existing rows with well-formed fields
    goes through, each row getting the fields of its own item. *)
Lemma apply_chunk_rows items l :
  NoDup (map fst items) ->
  (forall it, In it items -> has_row (fst it) l = true) ->
  (forall it p, In it items -> exists p', apply_fields (snd it) p = Some p') ->
  exists l', apply_chunk items l = Some l' /\ Forall2 (row_after items) l l'.
Proof.
  revert l; induction items as [|[rid kvs] items IH]; intros l Hnd Hrow Hf.
  - exists l. split; [reflexivity|]. apply Forall2_refl_gen. intros a. split; reflexivity.
  - inversion Hnd as [|? ? Hn Hd]; subst.
    destruct (update_rows_ok rid kvs l (fun p => Hf _ p (or_introl eq_refl))) as [l1 [E1 F1]].
    assert (P : patch_rows rid kvs l = Some l1)
      by (pose proof (Hrow _ (or_introl eq_refl)) as Hr; cbn [fst] in Hr;
          unfold patch_rows; rewrite Hr; exact E1).
    assert (Hrow1 : forall it, In it items -> has_row (fst it) l1 = true).
    { intros it Hit. rewrite (has_row_Forall2 _ _ _ _ (fun a b H => proj1 H) F1).
      apply Hrow. right; exact Hit. }
    assert (Hf1 : forall it p, In it items -> exists p', apply_fields (snd it) p = Some p')
      by (intros it p Hit; apply Hf; right; exact Hit).
    destruct (IH l1 Hd Hrow1 Hf1) as [l' [E' F']].
    exists l'. cbn [apply_chunk]. rewrite P. split; [exact E'|].
    eapply Forall2_compose; [exact F1|exact F'|].
    intros [ia pa] [ib pb] [ic pc] [Hab Ha] [Hbc Hb]. cbn [fst snd] in *.
    subst ib ic. split; [reflexivity|]. unfold item_for. cbn [find fst].
    fold (item_for ia items). rewrite (String.eqb_sym rid ia).
    destruct (ia =? rid) eqn:Ei.
    + apply String.eqb_eq in Ei. subst ia.
      rewrite (item_for_notin _ _ Hn) in Hb. cbn. rewrite Hb. exact Ha.
    + rewrite Ha in Hb. exact Hb.
Qed.

Lemma Forall2_In_left {A B} (R : A -> B -> Prop) l l' a :
  Forall2 R l l' -> In a l -> exists b, In b l' /\ R a b.
Proof.
  induction 1 as [|x y l l' Hxy F IH]; intros Hin; [contradiction|].
  destruct Hin as [<-|Hin]; [exists y; split; [left; reflexivity|exact Hxy]|].
  destruct (IH Hin) as [b [Hb Hab]]. exists b. split; [right; exact Hb|exact Hab].
Qed.

Lemma Forall2_In_right {A B} (R : A -> B -> Prop) l l' b :
  Forall2 R l l' -> In b l' -> exists a, In a l /\ R a b.
Proof.
  induction 1 as [|x y l l' Hxy F IH]; intros Hin; [contradiction|].
  destruct Hin as [<-|Hin]; [exists x; split; [left; reflexivity|exact Hxy]|].
  destruct (IH Hin) as [a [Ha Hab]]. exists a. split; [right; exact Ha|exact Hab].
Qed.

Lemma NoDup_fst_unique {A B} (l : list (A * B)) k a b :
  NoDup (map fst l) -> In (k, a) l -> In (k, b) l -> a = b.
Proof.
  induction l as [|[k' v] l IH]; intros Hnd Ha Hb; [contradiction|].
  inversion Hnd as [|? ? Hn Hd]; subst. cbn in Ha, Hb.
  destruct Ha as [Ea|Ha], Hb as [Eb|Hb].
  - injection Ea as -> ->. injection Eb as Eab. exact Eab.
  - injection Ea as -> ->. exfalso. apply Hn. apply (in_map fst) in Hb. exact Hb.
  - injection Eb as -> ->. exfalso. apply Hn. apply (in_map fst) in Ha. exact Ha.
  - apply IH; assumption.
Qed.

Lemma has_row_in k l : In k (map fst l) -> has_row k l = true.
Proof.
  intros H. apply in_map_iff in H as [[i p] [Hi Hin]]. cbn in Hi. subst i.
  unfold has_row. apply existsb_exists. exists (k, p). split; [exact Hin|apply String.eqb_refl].
Qed.

Lemma caption_fields_apply c s p :
  apply_fields [(FIELD_CAPTION, c); (FIELD_STATUS, s)] p =
  Some (mkPost (f_prompt p) c (f_image_url p) (f_published p) (f_media_id p)
               (f_publish_date p) s).
Proof. destruct p; reflexivity. Qed.

Lemma Forall2_map_fst {B C} (R : string * B -> string * C -> Prop) l l' :
  (forall a b, R a b -> fst b = fst a) -> Forall2 R l l' -> map fst l' = map fst l.
Proof.
  intros HR. induction 1 as [|x y l l' Hxy F IH]; [reflexivity|].
  cbn. rewrite (HR _ _ Hxy), IH. reflexivity.
Qed.

Section CaptionRun.
Context {PL : PyLiterals}.

(** The caption pass when the store accepts every request: it ends in
    its error handler with the Posts table as it was, or every row ends as
    [row_after] the batch says. *)
Lemma caption_pass_rows company st :
  (forall n r, net st n r = Success) ->
  NoDup (map fst (posts st)) ->
  (fst (generate_captions_from_airtable company st) = Ok PassError /\
   posts (snd (generate_captions_from_airtable company st)) = posts st) \/
  exists items,
    Forall2 (fun r it => fst it = fst r /\ caption_fields_ok (snd it))
      (filter has_prompt (filter (fun '(_, p) => query_matches QNeedCaptions p) (posts st)))
      items /\
    Forall2 (row_after items) (posts st)
      (posts (snd (generate_captions_from_airtable company st))).
Proof.
  intros Hnet Hnd.
  set (records := filter (fun '(_, p) => query_matches QNeedCaptions p) (posts st)).
  assert (E1 : posts_all QNeedCaptions st = (Ok records, tick st))
    by (unfold posts_all, request; rewrite Hnet; reflexivity).
  destruct (caption_updates_gen company records (tick st)) as [S2 F2].
  destruct (caption_updates company records (tick st)) as [[items|e] st2] eqn:E2;
    cbn [fst snd] in S2, F2; destruct S2 as (P2 & N2 & C2).
  2:{ left. unfold generate_captions_from_airtable, try_except.
      rewrite (bind_ok _ _ _ _ _ E1).
      destruct records as [|r0 rs]; [cbn in E2; discriminate|].
      cbv beta iota. rewrite (bind_raise _ _ _ _ _ E2). split; [reflexivity|exact P2]. }
  specialize (F2 items eq_refl).
  right. exists items. split; [exact F2|].
  assert (Hnd_rec : NoDup (map fst records)) by (apply NoDup_map_fst_filter; exact Hnd).
  assert (Hnd_items : NoDup (map fst items)).
  { rewrite (Forall2_map_fst _ _ _ (fun a b H => proj1 H) F2).
    apply NoDup_map_fst_filter. exact Hnd_rec. }
  assert (Hrefl : forall l, Forall2 (row_after []) l l).
  { intros l. apply Forall2_refl_gen. intros a. split; reflexivity. }
  assert (P2' : posts st2 = posts st) by exact P2.
  assert (G : exists res st3, generate_captions_from_airtable company st = (Ok res, st3) /\
                              Forall2 (row_after items) (posts st) (posts st3)).
  { unfold generate_captions_from_airtable, try_except. rewrite (bind_ok _ _ _ _ _ E1).
    destruct records as [|r0 rs] eqn:Er.
    - cbn in E2. inversion E2. subst. cbn in F2. inversion F2. subst.
      cbv beta iota. eexists _, _. split; [reflexivity|]. apply Hrefl.
    - cbv beta iota. rewrite (bind_ok _ _ _ _ _ E2).
      destruct items as [|it its].
      + cbv beta iota. eexists _, _. split; [reflexivity|]. rewrite P2'. apply Hrefl.
      + assert (Hrow : forall x, In x (it :: its) -> has_row (fst x) (posts st) = true).
        { intros x Hx. destruct (Forall2_In_right _ _ _ _ F2 Hx) as [r [Hr [Hxr _]]].
          apply has_row_in. rewrite Hxr. apply in_map.
          apply filter_In in Hr as [Hr _]. rewrite <- Er in Hr.
          apply filter_In in Hr as [Hr _]. exact Hr. }
        assert (Hf : forall x p, In x (it :: its) -> exists p', apply_fields (snd x) p = Some p').
        { intros x p Hx. destruct (Forall2_In_right _ _ _ _ F2 Hx) as [r [_ [_ Hok]]].
          destruct Hok as (c & s & -> & _). rewrite caption_fields_apply. eauto. }
        destruct (apply_chunk_rows (it :: its) (posts st) Hnd_items Hrow Hf) as [l' [AC FR]].
        assert (PB : posts_batch_update (it :: its) st2 = (Ok tt, set_posts l' (tick st2))).
        { assert (Hn2 : net st2 (calls st2) (BatchUpdatePosts (it :: its)) = Success)
            by (rewrite N2; apply Hnet).
          unfold posts_batch_update. rewrite Hn2. cbn [posts tick]. rewrite P2'.
          rewrite (apply_chunks_all (chunks (it :: its)) (posts st) l'); [reflexivity|].
          unfold chunks. rewrite chunks_aux_concat; [exact AC|lia]. }
        assert (B : batch_update_records (it :: its) st2 = (Ok true, set_posts l' (tick st2))).
        { unfold batch_update_records, try_except. rewrite (bind_ok _ _ _ _ _ PB).
          reflexivity. }
        rewrite (bind_ok _ _ _ _ _ B). eexists _, _. split; [reflexivity|]. exact FR. }
  destruct G as (res & st3 & G & FR). rewrite G. exact FR.
Qed.

End CaptionRun.

(** A record the caption query selects but whose prompt is empty. *)
Definition post_blank : Post := mkPost "" "" "" "No" "" "" "".

Definition st_blank : St :=
  mkSt [("rec2", post_blank)] [] 0 all_success 0
       (fun _ _ => LlmContent SUNSET_RESPONSE) 0 "2026-01-01".

(** Three records for the caption query: the language model answers the
    first after a 429, fails the second with another request error, and
    the third has no prompt. *)
Definition post_city : Post := mkPost "city at night" "" "" "No" "" "" "".

Definition llm_multi (n : nat) (_ : string) : LlmAttempt :=
  match n with
  | 0 => LlmRequestError "429 Too Many Requests"
  | 1 => LlmContent SUNSET_RESPONSE
  | _ => LlmRequestError "Read timed out"
  end.

Definition st_multi : St :=
  mkSt [("rec1", post_sunset); ("rec2", post_city); ("rec3", post_blank)] [] 0
       all_success 0 llm_multi 0 "2026-01-01".

Definition post_city_failed : Post :=
  mkPost "city at night" CAPTION_ERROR_TEXT "" "No" "" "" STATUS_FAILED.

Definition post_sunset_captioned : Post :=
  mkPost "sunset over mountains" "A golden sunset. #sunset #nature" "" "No" "" ""
         STATUS_PENDING.

(* ================================================================== *)
(* ------------------------------------------------------------------ *)
(** ** The image stage, table validation and the content job *)

(** [config.COMPANY_NAME] and [config.IMAGE_SAVE_PATH] (default values). *)
Definition COMPANY_NAME := "The Tech Boss".
Definition IMAGE_SAVE_PATH := "Generated Images".

(** One attempt of the body of [generate_image]: the image was generated,
    downloaded and written to its file, or an exception with its [str()]
    was raised on the way. *)
Inductive ImageAttempt :=
| ImageSaved
| ImageError (msg : string).

(** The world of the content job: the Airtable world, the image model (the
    outcome of its [n]-th attempt for a prompt), Cloudinary (the
    [secure_url] of its [n]-th upload of a path, [None] when the upload
    raises or the response has no [secure_url]), and what
    [posts_table._table_info()] gives: the field names of the table, or
    [None] when it raises, as it always does with a pyairtable release
    that has no [_table_info] method. *)
Record World := mkWorld {
  airtable : St;
  dalle : nat -> string -> ImageAttempt;
  dalle_calls : nat;
  cloudinary : nat -> string -> option string;
  cloudinary_calls : nat;
  table_info : option (list string) }.

(** The state and exception monad over [World]. *)
Definition MW (A : Type) : Type := World -> Res A * World.

Definition wret {A} (a : A) : MW A := fun w => (Ok a, w).
Definition wraise {A} (e : Exn) : MW A := fun w => (Raise e, w).
Definition wbind {A B} (m : MW A) (k : A -> MW B) : MW B := fun w =>
  match m w with
  | (Ok a, w') => k a w'
  | (Raise e, w') => (Raise e, w')
  end.
Definition wtry {A} (m : MW A) (h : Exn -> MW A) : MW A := fun w =>
  match m w with
  | (Ok a, w') => (Ok a, w')
  | (Raise e, w') => h e w'
  end.

Definition set_airtable (st : St) (w : World) : World :=
  mkWorld st (dalle w) (dalle_calls w) (cloudinary w) (cloudinary_calls w) (table_info w).

(** A step of the Airtable and language-model code inside the job. *)
Definition lift {A} (m : M A) : MW A := fun w =>
  match m (airtable w) with (r, st') => (r, set_airtable st' w) end.

Definition tick_dalle (w : World) : World :=
  mkWorld (airtable w) (dalle w) (S (dalle_calls w)) (cloudinary w) (cloudinary_calls w)
          (table_info w).

Definition tick_cloudinary (w : World) : World :=
  mkWorld (airtable w) (dalle w) (dalle_calls w) (cloudinary w) (S (cloudinary_calls w))
          (table_info w).

(** [f"{save_path}/{file_name}.png"] with
    [file_name = sanitize_filename(prompt[:50])]. *)
Definition image_file_path (prompt save_path : string) : string :=
  save_path ++ "/" ++ sanitize_filename (Py.take 50 prompt) ++ ".png".

(** One attempt of [generate_image]: an exception whose text mentions 429
    is raised again (and retried), any other gives [None]. *)
Definition generate_image_attempt (prompt save_path : string) : MW (option string) :=
  fun w =>
  let w1 := tick_dalle w in
  match dalle w (dalle_calls w) prompt with
  | ImageSaved => (Ok (Some (image_file_path prompt save_path)), w1)
  | ImageError msg =>
      if Py.contains "429" msg then (Raise RequestException, w1) else (Ok None, w1)
  end.

(** [generate_image] under [@retry(stop=stop_after_attempt(3))]. *)
Definition generate_image (prompt save_path : string) : MW (option string) :=
  let m := generate_image_attempt prompt save_path in
  wtry m (fun _ => wtry m (fun _ => wtry m (fun _ => wraise RetryError))).

(** [cloudinary_utils.upload_image(image_path)] *)
Definition upload_image (image_path : string) : MW (option string) := fun w =>
  (Ok (cloudinary w (cloudinary_calls w) image_path), tick_cloudinary w).

(** The body of the [for record in records] loop of
    [generate_images_from_airtable]: the [batch_updates] entries it adds
    for one record. *)
Definition image_update (save_path rid : string) (p : Post) : MW (list (string * Fields)) :=
  if negb (f_caption p =? "") then
    wbind (generate_image (f_caption p) save_path) (fun image_path =>
    match image_path with
    | Some path =>
        if path =? "" then wret [(rid, [(FIELD_STATUS, STATUS_FAILED)])]
        else
          wbind (upload_image path) (fun image_url =>
          match image_url with
          | Some url =>
              if url =? "" then wret [(rid, [(FIELD_STATUS, STATUS_FAILED)])]
              else wret [(rid, [(FIELD_IMAGE_URL, url); (FIELD_STATUS, STATUS_READY)])]
          | None => wret [(rid, [(FIELD_STATUS, STATUS_FAILED)])]
          end)
    | None => wret [(rid, [(FIELD_STATUS, STATUS_FAILED)])]
    end)
  else wret [].

(** The [for record in records] loop of [generate_images_from_airtable]. *)
Fixpoint image_updates (save_path : string) (records : list (string * Post))
  : MW (list (string * Fields)) :=
  match records with
  | [] => wret []
  | (rid, p) :: records' =>
      wbind (image_update save_path rid p) (fun upd =>
      wbind (image_updates save_path records') (fun rest =>
      wret (upd ++ rest)%list))
  end.

Inductive ImagePassResult := ImagesNoNew | ImagesCompleted | ImagesError.

(** The fields [validate_table_structure] requires. *)
Definition REQUIRED_FIELDS : list string :=
  [FIELD_PROMPT; FIELD_CAPTION; FIELD_IMAGE_URL; FIELD_PUBLISHED; FIELD_MEDIA_ID;
   FIELD_PUBLISH_DATE; FIELD_STATUS].

(** [list(record['fields'].keys())]: Airtable leaves empty cells out. *)
Definition present_fields (p : Post) : list string :=
  map fst (filter (fun kv => negb (snd kv =? ""))
                  [(FIELD_PROMPT, f_prompt p); (FIELD_CAPTION, f_caption p);
                   (FIELD_IMAGE_URL, f_image_url p); (FIELD_PUBLISHED, f_published p);
                   (FIELD_MEDIA_ID, f_media_id p); (FIELD_PUBLISH_DATE, f_publish_date p);
                   (FIELD_STATUS, f_status p)]).

(** [posts_table.all(max_records=1)] *)
Definition posts_first_record : M (list (string * Post)) :=
  request ListFirstPost (fun st => Some (firstn 1 (posts st), st)).

(** [[field['name'] for field in posts_table._table_info()['fields']]] *)
Definition get_table_info : MW (list string) := fun w =>
  match table_info w with
  | Some fields => (Ok fields, w)
  | None => (Raise AirtableError, w)
  end.

(** [validate_table_structure()]; the [None] in the middle is the early
    [return True] on an empty table. *)
Definition validate_table_structure : MW bool :=
  wtry
    (wbind
       (wtry (wbind get_table_info (fun fields => wret (Some fields)))
             (fun _ =>
                wbind (lift posts_first_record) (fun records =>
                match records with
                | [] => wret None
                | (_, p) :: _ => wret (Some (present_fields p))
                end)))
       (fun fields =>
          match fields with
          | None => wret true
          | Some fields =>
              let missing_fields :=
                filter (fun field => negb (existsb (String.eqb field) fields))
                       REQUIRED_FIELDS in
              match missing_fields with
              | [] => wret true
              | _ => wret false
              end
          end))
    (fun _ => wret false).

Inductive JobResult := JobValidationFailed | JobDone.

Section Job.
Context {PL : PyLiterals}.

(** [generate_images_from_airtable(save_path)] *)
Definition generate_images_from_airtable (save_path : string) : MW ImagePassResult :=
  wtry
    (wbind (lift (posts_all QNeedImages)) (fun records =>
     match records with
     | [] => wret ImagesNoNew
     | _ =>
         wbind (image_updates save_path records) (fun batch_updates =>
         wbind (match batch_updates with
                | [] => wret true
                | _ => lift (batch_update_records batch_updates)
                end) (fun _ =>
         wret ImagesCompleted))
     end))
    (fun _ => wret ImagesError).

(** [automate_content_generation()] *)
Definition automate_content_generation : MW JobResult :=
  wbind validate_table_structure (fun valid =>
  if negb valid then wret JobValidationFailed
  else
    wbind (lift (generate_captions_from_airtable COMPANY_NAME)) (fun _ =>
    wbind (generate_images_from_airtable IMAGE_SAVE_PATH) (fun _ =>
    wbind (lift process_retry_queue) (fun _ =>
    wret JobDone)))).

End Job.

(* ------------------------------------------------------------------ *)
(** ** Reasoning about the job's computations *)

Lemma wbind_ok {A B} (m : MW A) (k : A -> MW B) w a w' :
  m w = (Ok a, w') -> wbind m k w = k a w'.
Proof. intros E. unfold wbind. rewrite E. reflexivity. Qed.

Lemma wbind_raise {A B} (m : MW A) (k : A -> MW B) w e w' :
  m w = (Raise e, w') -> wbind m k w = (Raise e, w').
Proof. intros E. unfold wbind. rewrite E. reflexivity. Qed.

Lemma lift_eq {A} (m : M A) w r st' :
  m (airtable w) = (r, st') -> lift m w = (r, set_airtable st' w).
Proof. intros E. unfold lift. rewrite E. reflexivity. Qed.

(** A computation of the job keeps the relation [R] between the Airtable
    world before and after it, and its result satisfies [P]. *)
Definition wtriple (R : St -> St -> Prop) {A} (P : A -> Prop) (m : MW A) : Prop :=
  forall w, R (airtable w) (airtable (snd (m w))) /\
            match fst (m w) with Ok a => P a | Raise _ => True end.

(** The same for a computation of the Airtable code. *)
Definition triple (R : St -> St -> Prop) {A} (P : A -> Prop) (m : M A) : Prop :=
  forall st, R st (snd (m st)) /\ match fst (m st) with Ok a => P a | Raise _ => True end.

Section Triples.
Context (R : St -> St -> Prop) `{StepRel R}.

Lemma wtriple_ret {A} (P : A -> Prop) a : P a -> wtriple R P (wret a).
Proof. intros Ha w. split; [apply step_refl|exact Ha]. Qed.

Lemma wtriple_raise {A} (P : A -> Prop) e : wtriple R P (wraise e).
Proof. intros w. split; [apply step_refl|exact I]. Qed.

Lemma wtriple_bind {A B} (P : A -> Prop) (Q : B -> Prop) m k :
  wtriple R P m -> (forall a, P a -> wtriple R Q (k a)) -> wtriple R Q (wbind m k).
Proof.
  intros Hm Hk w. unfold wbind. destruct (Hm w) as [H1 H2].
  destruct (m w) as [[a|e] w']; cbn in *; [|split; [exact H1|exact I]].
  destruct (Hk a H2 w') as [H3 H4]. split; [eapply step_trans; eauto|exact H4].
Qed.

Lemma wtriple_try {A} (P : A -> Prop) m h :
  wtriple R P m -> (forall e, wtriple R P (h e)) -> wtriple R P (wtry m h).
Proof.
  intros Hm Hh w. unfold wtry. destruct (Hm w) as [H1 H2].
  destruct (m w) as [[a|e] w']; cbn in *; [split; assumption|].
  destruct (Hh e w') as [H3 H4]. split; [eapply step_trans; eauto|exact H4].
Qed.

Lemma wtriple_lift {A} (P : A -> Prop) (m : M A) : triple R P m -> wtriple R P (lift m).
Proof.
  intros Hm w. unfold lift. destruct (Hm (airtable w)) as [H1 H2].
  destruct (m (airtable w)) as [r st']. exact (conj H1 H2).
Qed.

Lemma wtriple_weaken {A} (P Q : A -> Prop) m :
  (forall a, P a -> Q a) -> wtriple R P m -> wtriple R Q m.
Proof.
  intros HPQ Hm w. destruct (Hm w) as [H1 H2]. split; [exact H1|].
  destruct (fst (m w)); auto.
Qed.

Lemma triple_ret {A} (P : A -> Prop) a : P a -> triple R P (ret a).
Proof. intros Ha st. split; [apply step_refl|exact Ha]. Qed.

Lemma triple_bind {A B} (P : A -> Prop) (Q : B -> Prop) m k :
  triple R P m -> (forall a, P a -> triple R Q (k a)) -> triple R Q (bind m k).
Proof.
  intros Hm Hk st. unfold bind. destruct (Hm st) as [H1 H2].
  destruct (m st) as [[a|e] st']; cbn in *; [|split; [exact H1|exact I]].
  destruct (Hk a H2 st') as [H3 H4]. split; [eapply step_trans; eauto|exact H4].
Qed.

Lemma triple_try {A} (P : A -> Prop) m h :
  triple R P m -> (forall e, triple R P (h e)) -> triple R P (try_except m h).
Proof.
  intros Hm Hh st. unfold try_except. destruct (Hm st) as [H1 H2].
  destruct (m st) as [[a|e] st']; cbn in *; [split; assumption|].
  destruct (Hh e st') as [H3 H4]. split; [eapply step_trans; eauto|exact H4].
Qed.

Lemma triple_preserves {A} (m : M A) : preserves R m -> triple R (fun _ => True) m.
Proof. intros Hm st. split; [apply Hm|destruct (fst (m st)); exact I]. Qed.

Lemma triple_weaken {A} (P Q : A -> Prop) m :
  (forall a, P a -> Q a) -> triple R P m -> triple R Q m.
Proof.
  intros HPQ Hm st. destruct (Hm st) as [H1 H2]. split; [exact H1|].
  destruct (fst (m st)); auto.
Qed.

End Triples.

Lemma triple_rel {A} (R R' : St -> St -> Prop) (P : A -> Prop) m :
  (forall s s', R s s' -> R' s s') -> triple R P m -> triple R' P m.
Proof. intros HR Hm st. destruct (Hm st) as [H1 H2]. split; [apply HR, H1|exact H2]. Qed.

Lemma wtriple_rel {A} (R R' : St -> St -> Prop) (P : A -> Prop) m :
  (forall s s', R s s' -> R' s s') -> wtriple R P m -> wtriple R' P m.
Proof. intros HR Hm w. destruct (Hm w) as [H1 H2]. split; [apply HR, H1|exact H2]. Qed.

(** Both tables are untouched. *)
Definition tables_same (st st' : St) : Prop :=
  posts st' = posts st /\ retry_table st' = retry_table st.

#[export] Instance tables_same_step : StepRel tables_same.
Proof.
  split; unfold tables_same; [intros; split; reflexivity|].
  intros s1 s2 s3 [A B] [C D]; split; congruence.
Qed.

(** The Airtable world is untouched. *)
Definition at_same (st st' : St) : Prop := st' = st.

#[export] Instance at_same_step : StepRel at_same.
Proof. split; unfold at_same; [reflexivity|intros; congruence]. Qed.

Lemma at_same_any (R : St -> St -> Prop) `{StepRel R} st st' : at_same st st' -> R st st'.
Proof. unfold at_same; intros ->; apply step_refl. Qed.

Lemma posts_all_tables q : preserves tables_same (posts_all q).
Proof.
  apply preserves_request; [intros; split; reflexivity|].
  intros st a st' E; injection E as <- <-; split; reflexivity.
Qed.

Lemma generate_caption_attempt_tables prompt :
  preserves tables_same (generate_caption_attempt prompt).
Proof.
  intros st. unfold generate_caption_attempt.
  destruct (llm st (llm_calls st) prompt); [| destruct (Py.contains "429" msg) |];
    split; reflexivity.
Qed.

Lemma generate_caption_tables prompt : preserves tables_same (generate_caption prompt).
Proof.
  unfold generate_caption, retry3.
  repeat (apply preserves_try; try typeclasses eauto; [apply generate_caption_attempt_tables|intros ?]).
  apply preserves_raise; typeclasses eauto.
Qed.

Lemma generate_image_attempt_same prompt sp w :
  airtable (snd (generate_image_attempt prompt sp w)) = airtable w.
Proof.
  unfold generate_image_attempt. destruct (dalle w (dalle_calls w) prompt); [reflexivity|].
  destruct (Py.contains "429" msg); reflexivity.
Qed.

Lemma generate_image_same prompt sp : wtriple at_same (fun _ => True) (generate_image prompt sp).
Proof.
  unfold generate_image.
  repeat (apply wtriple_try; try typeclasses eauto;
          [intros w; split; [apply generate_image_attempt_same|destruct (fst _); exact I]
          |intros ?]).
  apply wtriple_raise; typeclasses eauto.
Qed.

Lemma upload_image_same path : wtriple at_same (fun _ => True) (upload_image path).
Proof. intros w. split; [reflexivity|exact I]. Qed.

(* ------------------------------------------------------------------ *)
(** ** Columns a computation never writes *)

(** The cell of column [k] of a row ("" for a name that is no column). *)
Definition cell (k : string) (p : Post) : string :=
  if k =? FIELD_PROMPT then f_prompt p
  else if k =? FIELD_CAPTION then f_caption p
  else if k =? FIELD_IMAGE_URL then f_image_url p
  else if k =? FIELD_PUBLISHED then f_published p
  else if k =? FIELD_MEDIA_ID then f_media_id p
  else if k =? FIELD_PUBLISH_DATE then f_publish_date p
  else if k =? FIELD_STATUS then f_status p
  else "".

(** The row keeps its id and its cells of the columns [ks]. *)
Definition row_keeps (ks : list string) (a b : string * Post) : Prop :=
  fst a = fst b /\ forall k, In k ks -> cell k (snd b) = cell k (snd a).

Definition posts_keep (ks : list string) (st st' : St) : Prop :=
  Forall2 (row_keeps ks) (posts st) (posts st').

#[export] Instance posts_keep_step ks : StepRel (posts_keep ks).
Proof.
  split; unfold posts_keep.
  - intros st; apply Forall2_refl_gen. intros a; split; reflexivity.
  - intros s1 s2 s3; apply Forall2_trans_gen.
    intros a b c [H1 H2] [H3 H4]. split; [congruence|].
    intros k Hk. rewrite (H4 k Hk). apply H2, Hk.
Qed.

Lemma posts_same_keep ks st st' : posts_same st st' -> posts_keep ks st st'.
Proof.
  unfold posts_same, posts_keep; intros ->. apply Forall2_refl_gen.
  intros a; split; reflexivity.
Qed.

Lemma tables_same_keep ks st st' : tables_same st st' -> posts_keep ks st st'.
Proof. intros [H _]. apply posts_same_keep, H. Qed.

(** Every key of [kvs] is one of [ws]. *)
Definition keys_in (ws : list string) (kvs : Fields) : Prop :=
  Forall (fun kv => In (fst kv) ws) kvs.

(** Writing a column of [ws] leaves the columns [ks] as they are. *)
Definition writes_only (ws ks : list string) : Prop :=
  forall w k v p p', In w ws -> In k ks -> set_field w v p = Some p' -> cell k p' = cell k p.

Section Keep.
Context (ws ks : list string) (Hw : writes_only ws ks).

Lemma apply_fields_keeps kvs p p' :
  keys_in ws kvs -> apply_fields kvs p = Some p' -> forall k, In k ks -> cell k p' = cell k p.
Proof.
  revert p; induction kvs as [|[w v] kvs IH]; intros p Hkeys E k Hk; cbn in E.
  - injection E as <-. reflexivity.
  - inversion Hkeys as [|? ? Hw1 Hkeys']; subst. cbn [fst] in Hw1.
    destruct (set_field w v p) as [p1|] eqn:E1; [|discriminate].
    rewrite (IH p1 Hkeys' E k Hk). exact (Hw w k v p p1 Hw1 Hk E1).
Qed.

Lemma update_rows_keeps rid kvs l l' :
  keys_in ws kvs -> update_rows rid kvs l = Some l' -> Forall2 (row_keeps ks) l l'.
Proof.
  intros Hkeys. revert l'; induction l as [|[i p] l IH]; intros l' E; cbn in E.
  - injection E as <-; constructor.
  - destruct (update_rows rid kvs l) as [l''|] eqn:E1; [|discriminate].
    destruct (i =? rid).
    + destruct (apply_fields kvs p) as [p'|] eqn:Ep; [|discriminate].
      injection E as <-. constructor; [|apply IH; reflexivity].
      split; [reflexivity|]. intros k Hk. exact (apply_fields_keeps kvs p p' Hkeys Ep k Hk).
    + injection E as <-. constructor; [split; reflexivity|apply IH; reflexivity].
Qed.

Lemma patch_rows_keeps rid kvs l l' :
  keys_in ws kvs -> patch_rows rid kvs l = Some l' -> Forall2 (row_keeps ks) l l'.
Proof.
  unfold patch_rows. destruct (has_row rid l); [apply update_rows_keeps|discriminate].
Qed.

Lemma apply_chunk_keeps items l l' :
  Forall (fun it => keys_in ws (snd it)) items ->
  apply_chunk items l = Some l' -> Forall2 (row_keeps ks) l l'.
Proof.
  revert l; induction items as [|[rid kvs] items IH]; intros l Hi E; cbn in E.
  - injection E as <-. apply Forall2_refl_gen. intros a; split; reflexivity.
  - inversion Hi as [|? ? H1 H2]; subst.
    destruct (patch_rows rid kvs l) as [l1|] eqn:E1; [|discriminate].
    eapply Forall2_trans_gen; [|exact (patch_rows_keeps _ _ _ _ H1 E1)|exact (IH _ H2 E)].
    intros a b c [A1 A2] [B1 B2]. split; [congruence|]. intros k Hk.
    rewrite (B2 k Hk). apply A2, Hk.
Qed.

Lemma apply_chunks_keeps limit cs l :
  Forall (fun c => Forall (fun it => keys_in ws (snd it)) c) cs ->
  Forall2 (row_keeps ks) l (snd (apply_chunks limit cs l)).
Proof.
  assert (Hr : forall l, Forall2 (row_keeps ks) l l)
    by (intros l0; apply Forall2_refl_gen; intros a; split; reflexivity).
  revert limit l; induction cs as [|c cs IH]; intros limit l Hc; cbn [apply_chunks].
  - destruct limit; apply Hr.
  - inversion Hc as [|? ? H1 H2]; subst.
    destruct limit as [[|k]|].
    + apply Hr.
    + destruct (apply_chunk c l) as [l1|] eqn:E; [|apply Hr].
      eapply Forall2_trans_gen; [|exact (apply_chunk_keeps _ _ _ H1 E)|apply IH, H2].
      intros a b d [A1 A2] [B1 B2]. split; [congruence|]. intros k' Hk.
      rewrite (B2 k' Hk). apply A2, Hk.
    + destruct (apply_chunk c l) as [l1|] eqn:E; [|apply Hr].
      eapply Forall2_trans_gen; [|exact (apply_chunk_keeps _ _ _ H1 E)|apply IH, H2].
      intros a b d [A1 A2] [B1 B2]. split; [congruence|]. intros k' Hk.
      rewrite (B2 k' Hk). apply A2, Hk.
Qed.

Lemma chunks_aux_incl {A} fuel (l c : list A) : In c (chunks_aux fuel l) -> incl c l.
Proof.
  revert l; induction fuel as [|fuel IH]; intros l Hin; cbn [chunks_aux] in Hin;
    [contradiction|].
  destruct l as [|a l']; [contradiction|]. destruct Hin as [<-|Hin].
  - intros x Hx. rewrite <- (firstn_skipn 10 (a :: l')). apply in_or_app. left; exact Hx.
  - intros x Hx. apply (IH _ Hin) in Hx.
    rewrite <- (firstn_skipn 10 (a :: l')). apply in_or_app. right; exact Hx.
Qed.

Lemma posts_batch_update_keeps items :
  Forall (fun it => keys_in ws (snd it)) items ->
  preserves (posts_keep ks) (posts_batch_update items).
Proof.
  intros Hi st. unfold posts_batch_update.
  set (limit := match net st (calls st) (BatchUpdatePosts items) with
                | Success => None | Failure k => Some k end).
  pose proof (apply_chunks_keeps limit (chunks items) (posts (tick st))) as K.
  destruct (apply_chunks limit (chunks items) (posts (tick st))) as [ok l] eqn:E.
  cbn. apply K. apply Forall_forall. intros c Hc. apply Forall_forall. intros it Hit.
  rewrite Forall_forall in Hi. apply Hi. exact (chunks_aux_incl _ _ _ Hc it Hit).
Qed.

Lemma posts_update_keeps rid kvs :
  keys_in ws kvs -> preserves (posts_keep ks) (posts_update rid kvs).
Proof.
  intros Hk. apply preserves_request; [intros; apply posts_same_keep; reflexivity|].
  intros st a st' E. destruct (patch_rows rid kvs (posts (tick st))) eqn:P; [|discriminate].
  injection E as <- <-. exact (patch_rows_keeps _ _ _ _ Hk P).
Qed.

Context {PL : PyLiterals}.

Lemma add_to_retry_queue_keeps op rid d : preserves (posts_keep ks) (add_to_retry_queue op rid d).
Proof.
  eapply preserves_weaken; [apply posts_same_keep|apply add_to_retry_queue_same].
Qed.

Lemma update_record_keeps rid kvs :
  keys_in ws kvs -> preserves (posts_keep ks) (update_record rid kvs).
Proof.
  intros Hk. unfold update_record.
  apply preserves_try; try typeclasses eauto.
  - apply preserves_bind; try typeclasses eauto; [apply posts_update_keeps, Hk|].
    intros x; apply preserves_ret; typeclasses eauto.
  - intros e. apply preserves_bind; try typeclasses eauto; [apply add_to_retry_queue_keeps|].
    intros x; apply preserves_ret; typeclasses eauto.
Qed.

Lemma batch_update_records_keeps items :
  Forall (fun it => keys_in ws (snd it)) items ->
  preserves (posts_keep ks) (batch_update_records items).
Proof.
  intros Hi. unfold batch_update_records. destruct items as [|it its];
    [apply preserves_ret; typeclasses eauto|].
  apply preserves_try; try typeclasses eauto.
  - apply preserves_bind; try typeclasses eauto; [apply posts_batch_update_keeps, Hi|].
    intros x; apply preserves_ret; typeclasses eauto.
  - intros e. apply preserves_bind; try typeclasses eauto;
      [|intros x; apply preserves_ret; typeclasses eauto].
    apply preserves_for_each; try typeclasses eauto. intros [rid kvs] _.
    apply preserves_bind; try typeclasses eauto; [apply add_to_retry_queue_keeps|].
    intros x; apply preserves_ret; typeclasses eauto.
Qed.

End Keep.

Ltac writes_only_tac :=
  intros ? ? ? [] ? Hw Hk E;
  repeat (destruct Hw as [<-|Hw]; [|]); try contradiction;
  repeat (destruct Hk as [<-|Hk]; [|]); try contradiction;
  cbv in E; injection E as <-; reflexivity.

Lemma writes_caption :
  writes_only [FIELD_CAPTION; FIELD_STATUS]
              [FIELD_PROMPT; FIELD_IMAGE_URL; FIELD_PUBLISHED; FIELD_MEDIA_ID; FIELD_PUBLISH_DATE].
Proof. writes_only_tac. Qed.

Lemma writes_image :
  writes_only [FIELD_IMAGE_URL; FIELD_STATUS]
              [FIELD_PROMPT; FIELD_CAPTION; FIELD_PUBLISHED; FIELD_MEDIA_ID; FIELD_PUBLISH_DATE].
Proof. writes_only_tac. Qed.

Lemma writes_publish :
  writes_only [FIELD_PUBLISHED; FIELD_MEDIA_ID; FIELD_PUBLISH_DATE; FIELD_STATUS]
              [FIELD_PROMPT; FIELD_CAPTION; FIELD_IMAGE_URL].
Proof. writes_only_tac. Qed.

(** The batch entries of the caption loop write the caption and the status. *)
Lemma caption_updates_keys company records :
  triple tables_same (Forall (fun it => keys_in [FIELD_CAPTION; FIELD_STATUS] (snd it)))
         (caption_updates company records).
Proof.
  induction records as [|[rid p] records IH]; cbn [caption_updates].
  - apply triple_ret; try typeclasses eauto. constructor.
  - apply (triple_bind _ (Forall (fun it => keys_in [FIELD_CAPTION; FIELD_STATUS] (snd it))));
      try typeclasses eauto.
    + destruct (negb (f_prompt p =? "")); [|apply triple_ret; try typeclasses eauto; constructor].
      apply (triple_bind _ (fun _ => True)); try typeclasses eauto.
      * apply triple_preserves; try typeclasses eauto. apply generate_caption_tables.
      * intros r _. apply triple_ret; try typeclasses eauto.
        constructor; [|constructor].
        destruct r; cbn; repeat (apply Forall_cons; [cbn; tauto|]); apply Forall_nil.
    + intros upd Hupd.
      apply (triple_bind _ (Forall (fun it => keys_in [FIELD_CAPTION; FIELD_STATUS] (snd it))));
        try typeclasses eauto; [exact IH|].
      intros rest Hrest. apply triple_ret; try typeclasses eauto. apply Forall_app; auto.
Qed.

Lemma triple_to_preserves (R : St -> St -> Prop) {A} (P : A -> Prop) m :
  triple R P m -> preserves R m.
Proof. intros Hm st. apply Hm. Qed.

Lemma wtriple_of_preserves (R : St -> St -> Prop) {A} (m : M A) :
  preserves R m -> wtriple R (fun _ => True) (lift m).
Proof.
  intros Hm w. unfold lift. specialize (Hm (airtable w)).
  destruct (m (airtable w)) as [[a|e] st']; split; try exact I; exact Hm.
Qed.

Lemma try_ok {A} (m : M A) h st a st' :
  m st = (Ok a, st') -> try_except m h st = (Ok a, st').
Proof. intros E. unfold try_except. rewrite E. reflexivity. Qed.

Lemma try_raise {A} (m : M A) h st e st' :
  m st = (Raise e, st') -> try_except m h st = h e st'.
Proof. intros E. unfold try_except. rewrite E. reflexivity. Qed.

Lemma wtry_ok {A} (m : MW A) h w a w' : m w = (Ok a, w') -> wtry m h w = (Ok a, w').
Proof. intros E. unfold wtry. rewrite E. reflexivity. Qed.

Lemma wtry_raise {A} (m : MW A) h w e w' : m w = (Raise e, w') -> wtry m h w = h e w'.
Proof. intros E. unfold wtry. rewrite E. reflexivity. Qed.

Lemma for_each_ok {A} (l : list A) (f : A -> M unit) st :
  (forall x st, exists u, fst (f x st) = Ok u) -> fst (for_each l f st) = Ok tt.
Proof.
  intros Hf. revert st; induction l as [|x l IH]; intros st; [reflexivity|].
  cbn [for_each]. destruct (Hf x st) as [u Hu].
  destruct (f x st) as [r st'] eqn:E. cbn in Hu; subst r.
  rewrite (bind_ok _ _ _ _ _ E). apply IH.
Qed.

Section BatchOk.
Context {PL : PyLiterals}.

Lemma batch_update_records_ok items st :
  exists b, fst (batch_update_records items st) = Ok b.
Proof.
  unfold batch_update_records. destruct items as [|it its]; [eexists; reflexivity|].
  destruct (posts_batch_update (it :: its) st) as [[[]|e] st1] eqn:E.
  - rewrite (try_ok _ _ _ true st1); [eexists; reflexivity|].
    rewrite (bind_ok _ _ _ _ _ E). reflexivity.
  - rewrite (try_raise _ _ _ e st1); [|apply (bind_raise _ _ _ _ _ E)].
    set (f := fun '(rid, kvs) => add_to_retry_queue "update" rid kvs ;;; ret tt).
    assert (Hf : fst (for_each (it :: its) f st1) = Ok tt).
    { apply for_each_ok. intros [rid kvs] st2. unfold f.
      destruct (add_to_retry_queue_ok "update" rid kvs st2) as [b Hb].
      destruct (add_to_retry_queue "update" rid kvs st2) as [r st3] eqn:E3.
      cbn in Hb; subst r. rewrite (bind_ok _ _ _ _ _ E3). eexists; reflexivity. }
    destruct (for_each (it :: its) f st1) as [r st2] eqn:E2. cbn in Hf; subst r.
    rewrite (bind_ok _ _ _ _ _ E2). eexists; reflexivity.
Qed.

End BatchOk.

(** The batch entries of the image loop write the image URL and the status,
    and the loop leaves the Airtable world alone. *)
Lemma image_updates_keys sp records :
  wtriple at_same (Forall (fun it => keys_in [FIELD_IMAGE_URL; FIELD_STATUS] (snd it)))
          (image_updates sp records).
Proof.
  assert (K : forall rid kvs, keys_in [FIELD_IMAGE_URL; FIELD_STATUS] kvs ->
              wtriple at_same
                (Forall (fun it : string * Fields => keys_in [FIELD_IMAGE_URL; FIELD_STATUS] (snd it)))
                (wret [(rid, kvs)])).
  { intros rid kvs Hk. apply wtriple_ret; try typeclasses eauto. constructor; [exact Hk|constructor]. }
  assert (KF : keys_in [FIELD_IMAGE_URL; FIELD_STATUS] [(FIELD_STATUS, STATUS_FAILED)])
    by (repeat constructor; cbn; tauto).
  induction records as [|[rid p] records IH]; cbn [image_updates].
  - apply wtriple_ret; try typeclasses eauto. constructor.
  - apply (wtriple_bind _ (Forall (fun it => keys_in [FIELD_IMAGE_URL; FIELD_STATUS] (snd it))));
      try typeclasses eauto.
    + unfold image_update.
      destruct (negb (f_caption p =? "")); [|apply wtriple_ret; try typeclasses eauto; constructor].
      apply (wtriple_bind _ (fun _ => True)); try typeclasses eauto; [apply generate_image_same|].
      intros [path|] _; [|apply K, KF].
      destruct (path =? ""); [apply K, KF|].
      apply (wtriple_bind _ (fun _ => True)); try typeclasses eauto; [apply upload_image_same|].
      intros [url|] _; [|apply K, KF].
      destruct (url =? ""); [apply K, KF|]. apply K.
      repeat (apply Forall_cons; [cbn; tauto|]); apply Forall_nil.
    + intros upd Hupd.
      apply (wtriple_bind _ (Forall (fun it => keys_in [FIELD_IMAGE_URL; FIELD_STATUS] (snd it))));
        try typeclasses eauto; [exact IH|].
      intros rest Hrest. apply wtriple_ret; try typeclasses eauto. apply Forall_app; auto.
Qed.

(** An image attempt that does not raise. *)
Definition image_attempt_ok (a : ImageAttempt) : bool :=
  match a with
  | ImageSaved => true
  | ImageError msg => negb (Py.contains "429" msg)
  end.

(** The two shapes of the cells an image pass writes. *)
Definition image_fields_ok (kvs : Fields) : Prop :=
  (exists url, url <> "" /\ kvs = [(FIELD_IMAGE_URL, url); (FIELD_STATUS, STATUS_READY)]) \/
  kvs = [(FIELD_STATUS, STATUS_FAILED)].

Definition has_caption (r : string * Post) : bool := negb (f_caption (snd r) =? "").

Lemma generate_image_ok prompt sp w :
  (forall n pr, image_attempt_ok (dalle w n pr) = true) ->
  exists r, generate_image prompt sp w = (Ok r, tick_dalle w).
Proof.
  intros H. specialize (H (dalle_calls w) prompt).
  unfold generate_image, wtry, generate_image_attempt.
  destruct (dalle w (dalle_calls w) prompt) as [|msg]; cbn in H; [eauto|].
  destruct (Py.contains "429" msg); [discriminate|eauto].
Qed.

Lemma image_update_ok sp rid p w :
  (forall n pr, image_attempt_ok (dalle w n pr) = true) -> f_caption p <> "" ->
  exists kvs w1, image_update sp rid p w = (Ok [(rid, kvs)], w1) /\
    airtable w1 = airtable w /\ dalle w1 = dalle w /\ image_fields_ok kvs.
Proof.
  intros Hd Hc. unfold image_update.
  apply String.eqb_neq in Hc. rewrite Hc. cbn [negb].
  destruct (generate_image_ok (f_caption p) sp w Hd) as [r E].
  rewrite (wbind_ok _ _ _ _ _ E).
  destruct r as [path|]; [|eexists _, _; split; [reflexivity|]; split; [reflexivity|];
                           split; [reflexivity|right; reflexivity]].
  destruct (path =? ""); [eexists _, _; split; [reflexivity|]; split; [reflexivity|];
                          split; [reflexivity|right; reflexivity]|].
  rewrite (wbind_ok (upload_image path) _ _ _ _ eq_refl).
  destruct (cloudinary (tick_dalle w) (cloudinary_calls (tick_dalle w)) path) as [url|];
    [|eexists _, _; split; [reflexivity|]; split; [reflexivity|];
      split; [reflexivity|right; reflexivity]].
  destruct (url =? "") eqn:Eu;
    (eexists _, _; split; [reflexivity|]; split; [reflexivity|]; split; [reflexivity|]).
  - right; reflexivity.
  - left. exists url. split; [apply String.eqb_neq, Eu|reflexivity].
Qed.

Lemma image_updates_ok sp records w :
  (forall n pr, image_attempt_ok (dalle w n pr) = true) ->
  exists items w', image_updates sp records w = (Ok items, w') /\
    airtable w' = airtable w /\ dalle w' = dalle w /\
    Forall2 (fun r it => fst it = fst r /\ image_fields_ok (snd it))
            (filter has_caption records) items.
Proof.
  revert w; induction records as [|[rid p] records IH]; intros w Hd.
  - exists [], w. repeat split. constructor.
  - cbn [image_updates filter]. unfold has_caption at 1; cbn [snd].
    destruct (f_caption p =? "") eqn:Ec; cbn [negb].
    + assert (U : image_update sp rid p w = (Ok [], w))
        by (unfold image_update; rewrite Ec; reflexivity).
      destruct (IH w Hd) as (items & w' & E & A & D & F).
      exists items, w'. rewrite (wbind_ok _ _ _ _ _ U), (wbind_ok _ _ _ _ _ E).
      split; [reflexivity|]. auto.
    + destruct (image_update_ok sp rid p w Hd (proj1 (String.eqb_neq _ _) Ec))
        as (kvs & w1 & U & A1 & D1 & K).
      assert (Hd1 : forall n pr, image_attempt_ok (dalle w1 n pr) = true)
        by (rewrite D1; exact Hd).
      destruct (IH w1 Hd1) as (items & w' & E & A & D & F).
      exists ((rid, kvs) :: items), w'.
      rewrite (wbind_ok _ _ _ _ _ U), (wbind_ok _ _ _ _ _ E).
      split; [reflexivity|]. split; [congruence|]. split; [congruence|].
      constructor; [|exact F]. split; [reflexivity|exact K].
Qed.

Lemma image_fields_apply kvs p :
  image_fields_ok kvs -> exists p', apply_fields kvs p = Some p'.
Proof. intros [(url & _ & ->)| ->]; destruct p; eexists; reflexivity. Qed.

Section ImageRun.
Context {PL : PyLiterals}.

(** The image pass when the store accepts every request and no image
    attempt raises: every row ends as [row_after] the batch says. *)
Lemma images_pass_rows sp w :
  (forall n r, net (airtable w) n r = Success) ->
  (forall n pr, image_attempt_ok (dalle w n pr) = true) ->
  NoDup (map fst (posts (airtable w))) ->
  exists items,
    Forall2 (fun r it => fst it = fst r /\ image_fields_ok (snd it))
      (filter has_caption (filter (fun '(_, p) => query_matches QNeedImages p)
                                  (posts (airtable w))))
      items /\
    Forall2 (row_after items) (posts (airtable w))
      (posts (airtable (snd (generate_images_from_airtable sp w)))).
Proof.
  intros Hnet Hd Hnd.
  set (st := airtable w).
  set (records := filter (fun '(_, p) => query_matches QNeedImages p) (posts st)).
  assert (E1 : posts_all QNeedImages st = (Ok records, tick st))
    by (unfold posts_all, request; rewrite Hnet; reflexivity).
  pose proof (lift_eq _ _ _ _ E1) as L1.
  set (w1 := set_airtable (tick st) w).
  assert (Hd1 : forall n pr, image_attempt_ok (dalle w1 n pr) = true) by exact Hd.
  destruct (image_updates_ok sp records w1 Hd1) as (items & w2 & E2 & A2 & D2 & F2).
  exists items. split; [exact F2|].
  assert (Hnd_items : NoDup (map fst items)).
  { rewrite (Forall2_map_fst _ _ _ (fun a b H => proj1 H) F2).
    do 2 apply NoDup_map_fst_filter. exact Hnd. }
  assert (Hrefl : forall l, Forall2 (row_after []) l l).
  { intros l. apply Forall2_refl_gen. intros a. split; reflexivity. }
  assert (P2 : posts (airtable w2) = posts st) by (rewrite A2; reflexivity).
  assert (G : exists res w3, generate_images_from_airtable sp w = (Ok res, w3) /\
                             Forall2 (row_after items) (posts st) (posts (airtable w3))).
  { unfold generate_images_from_airtable, wtry. rewrite (wbind_ok _ _ _ _ _ L1).
    destruct records as [|r0 rs] eqn:Er.
    - cbn in E2. inversion E2. subst. cbn in F2. inversion F2. subst.
      cbv beta iota. eexists _, _. split; [reflexivity|]. apply Hrefl.
    - cbv beta iota. fold w1. rewrite (wbind_ok _ _ _ _ _ E2).
      destruct items as [|it its].
      + cbv beta iota. eexists _, _. split; [reflexivity|]. rewrite P2. apply Hrefl.
      + assert (Hrow : forall x, In x (it :: its) -> has_row (fst x) (posts st) = true).
        { intros x Hx. destruct (Forall2_In_right _ _ _ _ F2 Hx) as [r [Hr [Hxr _]]].
          apply has_row_in. rewrite Hxr. apply in_map.
          apply filter_In in Hr as [Hr _]. rewrite <- Er in Hr.
          apply filter_In in Hr as [Hr _]. exact Hr. }
        assert (Hf : forall x p, In x (it :: its) -> exists p', apply_fields (snd x) p = Some p').
        { intros x p Hx. destruct (Forall2_In_right _ _ _ _ F2 Hx) as [r [_ [_ Hok]]].
          apply image_fields_apply, Hok. }
        destruct (apply_chunk_rows (it :: its) (posts st) Hnd_items Hrow Hf) as [l' [AC FR]].
        assert (PB : posts_batch_update (it :: its) (airtable w2) =
                     (Ok tt, set_posts l' (tick (airtable w2)))).
        { assert (Hn2 : net (airtable w2) (calls (airtable w2)) (BatchUpdatePosts (it :: its))
                        = Success) by (rewrite A2; apply Hnet).
          unfold posts_batch_update. rewrite Hn2. cbn [posts tick]. rewrite P2.
          rewrite (apply_chunks_all (chunks (it :: its)) (posts st) l'); [reflexivity|].
          unfold chunks. rewrite chunks_aux_concat; [exact AC|lia]. }
        assert (B : batch_update_records (it :: its) (airtable w2) =
                    (Ok true, set_posts l' (tick (airtable w2)))).
        { unfold batch_update_records, try_except. rewrite (bind_ok _ _ _ _ _ PB).
          reflexivity. }
        rewrite (wbind_ok _ _ _ _ _ (lift_eq _ _ _ _ B)).
        eexists _, _. split; [reflexivity|]. exact FR. }
  destruct G as (res & w3 & G & FR). rewrite G. exact FR.
Qed.

End ImageRun.

(** A captioned record waiting for its image. *)
Definition post_captioned : Post :=
  mkPost "sunset over mountains" "A golden sunset. #sunset #nature" "" "No" "" ""
         STATUS_PENDING.

Definition st_images : St :=
  mkSt [("rec1", post_captioned)] [] 0 all_success 0 (fun _ _ => LlmOtherError) 0
       "2026-01-01".

Definition CLOUD_URL := "https://res.cloudinary.com/demo/image/upload/sunset.png".

(** The content job's world over [st]: the image model gives [d], every
    upload gives [CLOUD_URL], and the table schema is [info]. *)
Definition w_images (st : St) (d : nat -> string -> ImageAttempt)
    (info : option (list string)) : World :=
  mkWorld st d 0 (fun _ _ => Some CLOUD_URL) 0 info.

(** The language model raises on every attempt. *)
Definition st_llm_down : St :=
  mkSt [("rec1", post_sunset)] [] 0 all_success 0 (fun _ _ => LlmOtherError) 0 "2026-01-01".

Lemma filter_negb_match {A B} (g : A -> bool) (l : list A) (x y : B) :
  match filter (fun f => negb (g f)) l with [] => x | _ :: _ => y end =
  if forallb g l then x else y.
Proof.
  induction l as [|a l IH]; [reflexivity|]. cbn. destruct (g a); cbn; [exact IH|].
  destruct (forallb g l); reflexivity.
Qed.

(** A required field is among the keys Airtable sends for a row exactly
    when its cell is not empty. *)
Lemma present_fields_required p :
  forallb (fun f => existsb (String.eqb f) (present_fields p)) REQUIRED_FIELDS =
  forallb (fun f => negb (cell f p =? "")) REQUIRED_FIELDS.
Proof.
  unfold present_fields, REQUIRED_FIELDS. cbn [forallb filter snd].
  change (cell FIELD_PROMPT p) with (f_prompt p).
  change (cell FIELD_CAPTION p) with (f_caption p).
  change (cell FIELD_IMAGE_URL p) with (f_image_url p).
  change (cell FIELD_PUBLISHED p) with (f_published p).
  change (cell FIELD_MEDIA_ID p) with (f_media_id p).
  change (cell FIELD_PUBLISH_DATE p) with (f_publish_date p).
  change (cell FIELD_STATUS p) with (f_status p).
  destruct (f_prompt p =? ""), (f_caption p =? ""), (f_image_url p =? ""),
    (f_published p =? ""), (f_media_id p =? ""), (f_publish_date p =? ""),
    (f_status p =? ""); reflexivity.
Qed.

Lemma try_ret_ok {A} (m : M A) (a : A) st :
  exists b, fst (try_except m (fun _ => ret a) st) = Ok b.
Proof. unfold try_except. destruct (m st) as [[b|e] st']; cbn; eauto. Qed.

Lemma wtry_ret_ok {A} (m : MW A) (a : A) w :
  exists b, fst (wtry m (fun _ => wret a) w) = Ok b.
Proof. unfold wtry. destruct (m w) as [[b|e] w']; cbn; eauto. Qed.

(** [validate_table_structure] answers, never raises, and touches neither
    table, nor the image model, nor Cloudinary, nor the language model. *)
Lemma validate_effects w :
  exists b w', validate_table_structure w = (Ok b, w') /\
    tables_same (airtable w) (airtable w') /\
    llm_calls (airtable w') = llm_calls (airtable w) /\
    dalle_calls w' = dalle_calls w /\ cloudinary_calls w' = cloudinary_calls w.
Proof.
  unfold validate_table_structure, wtry, wbind, get_table_info, lift, posts_first_record,
    request, wret.
  destruct (table_info w) as [fs|].
  - cbv beta iota zeta. rewrite filter_negb_match.
    destruct (forallb _ _); (eexists _, _; split; [reflexivity|]);
      repeat split; reflexivity.
  - destruct (net (airtable w) (calls (airtable w)) ListFirstPost).
    + destruct (posts (airtable w)) as [|[rid p] rest] eqn:Ep.
      * cbn. rewrite Ep. cbn. eexists _, _. split; [reflexivity|]. repeat split; reflexivity.
      * cbv beta iota zeta. cbn [tick posts]. rewrite Ep. cbn [firstn]. cbv beta iota.
        rewrite filter_negb_match.
        destruct (forallb _ _); (eexists _, _; split; [reflexivity|]);
          repeat split; reflexivity.
    + eexists _, _. split; [reflexivity|]. repeat split; reflexivity.
Qed.

Lemma lift_fst {A} (m : M A) w : fst (lift m w) = fst (m (airtable w)).
Proof. unfold lift. destruct (m (airtable w)); reflexivity. Qed.

Lemma captions_pass_ok {PL : PyLiterals} company st :
  exists r, fst (generate_captions_from_airtable company st) = Ok r.
Proof. apply try_ret_ok. Qed.

Lemma images_pass_ok {PL : PyLiterals} sp w :
  exists r, fst (generate_images_from_airtable sp w) = Ok r.
Proof. apply wtry_ret_ok. Qed.

Lemma process_retry_queue_ok {PL : PyLiterals} st :
  exists r, fst (process_retry_queue st) = Ok r.
Proof. apply try_ret_ok. Qed.

(** A character a cleaned caption may hold: no newline, no double quote. *)
Definition caption_char_ok (c : ascii) : bool :=
  negb (Ascii.eqb c newline) && negb (Ascii.eqb c dquote).

Lemma replace_char_all (p : ascii -> bool) a b s :
  str_all p b = true -> str_all (fun c => p c || Ascii.eqb c a) s = true ->
  str_all p (Py.replace_char a b s) = true.
Proof.
  intros Hb. induction s as [|c s IH]; intros Hs; [reflexivity|].
  cbn in Hs. apply andb_true_iff in Hs as [Hc Hs].
  cbn [Py.replace_char]. rewrite str_all_append, (IH Hs), andb_true_r.
  destruct (Ascii.eqb c a) eqn:E; [exact Hb|].
  rewrite orb_false_r in Hc. cbn. rewrite Hc. reflexivity.
Qed.

Lemma str_all_true (p : ascii -> bool) s : (forall c, p c = true) -> str_all p s = true.
Proof. intros H. induction s as [|c s IH]; [reflexivity|]. cbn. rewrite H, IH. reflexivity. Qed.

Lemma clean_caption_ok s : str_all caption_char_ok (clean_caption s) = true.
Proof.
  unfold clean_caption. apply replace_char_all; [reflexivity|].
  apply replace_char_all; [reflexivity|].
  apply str_all_true. intros c. unfold caption_char_ok.
  destruct (Ascii.eqb c newline), (Ascii.eqb c dquote); reflexivity.
Qed.

Lemma caption_from_content_clean content c h :
  caption_from_content content = CapOk c h -> str_all caption_char_ok c = true.
Proof.
  unfold caption_from_content. destruct (Py.contains HASHTAGS_SEP content).
  - destruct (Py.split_once HASHTAGS_SEP content) as [[pre post]|];
      intros E; injection E as <- _; apply clean_caption_ok.
  - intros E; injection E as <- _; apply clean_caption_ok.
Qed.

(** What one attempt returns. *)
Lemma generate_caption_attempt_result prompt st r :
  fst (generate_caption_attempt prompt st) = Ok r ->
  (exists content, r = caption_from_content content) \/ (exists msg, r = CapErr msg).
Proof.
  unfold generate_caption_attempt.
  destruct (llm st (llm_calls st) prompt) as [content|msg|]; cbn.
  - intros E; injection E as <-. left; eauto.
  - destruct (Py.contains "429" msg); cbn; [discriminate|]. intros E; injection E as <-.
    right; eauto.
  - discriminate.
Qed.

Lemma retry3_result {A} (P : A -> Prop) (m : M A) st r :
  (forall st a, fst (m st) = Ok a -> P a) -> fst (retry3 m st) = Ok r -> P r.
Proof.
  intros Hm. unfold retry3, try_except.
  destruct (m st) as [[a|e] st1] eqn:E1; [cbn; intros H; injection H as <-;
                                           apply (Hm st); rewrite E1; reflexivity|].
  destruct (m st1) as [[a|e1] st2] eqn:E2; [cbn; intros H; injection H as <-;
                                            apply (Hm st1); rewrite E2; reflexivity|].
  destruct (m st2) as [[a|e2] st3] eqn:E3; [cbn; intros H; injection H as <-;
                                            apply (Hm st2); rewrite E3; reflexivity|].
  discriminate.
Qed.

Lemma attempt_raises prompt st :
  llm_attempt_ok (llm st (llm_calls st) prompt) = false ->
  exists e, generate_caption_attempt prompt st = (Raise e, tick_llm st).
Proof.
  unfold generate_caption_attempt. destruct (llm st (llm_calls st) prompt) as [c|msg|];
    cbn; try discriminate; [|eauto].
  destruct (Py.contains "429" msg); cbn; [eauto|discriminate].
Qed.

(** A model answer whose caption part holds double quotes and a newline. *)
Definition QUOTED_RESPONSE : string :=
  "A " ++ String dquote ("golden" ++ String dquote (String newline "sunset. Hashtags: #sunset")).

Definition st_llm (a : LlmAttempt) : St :=
  mkSt [] [] 0 all_success 0 (fun _ _ => a) 0 "2026-01-01".

Lemma digit_char_ok d : (0 <= d < 10)%Z -> Py.is_digit (digit_char d) = true.
Proof.
  intros Hd. unfold Py.is_digit, digit_char.
  rewrite nat_ascii_embedding by lia.
  apply andb_true_iff. split; apply Nat.leb_le; lia.
Qed.

Lemma pos_digits_all fuel n acc :
  (0 <= n)%Z -> Py.all_digits (pos_digits fuel n acc) = Py.all_digits acc.
Proof.
  revert n acc; induction fuel as [|fuel IH]; intros n acc Hn; [reflexivity|].
  cbn [pos_digits].
  assert (Hd : Py.all_digits (String (digit_char (n mod 10)) acc) = Py.all_digits acc).
  { cbn [Py.all_digits]. rewrite digit_char_ok; [reflexivity|].
    split; [apply Z.mod_pos_bound|apply Z.mod_pos_bound]; lia. }
  destruct (n <? 10)%Z; [exact Hd|].
  rewrite IH; [exact Hd|]. apply Z.div_pos; lia.
Qed.

Lemma pos_digits_nonempty fuel n c s : pos_digits fuel n (String c s) <> "".
Proof.
  revert n c s; induction fuel as [|fuel IH]; intros n c s; cbn [pos_digits]; [discriminate|].
  destruct (n <? 10)%Z; [discriminate|apply IH].
Qed.

Lemma all_digits_decode s :
  Py.all_digits s = true ->
  exists l, Py.utf8_decode s = Some l /\ length l = String.length s /\
            forallb Py.is_digit_cp l = true.
Proof.
  induction s as [|c s IH]; cbn [Py.all_digits]; intros H; [exists []; auto|].
  apply andb_true_iff in H as [Hc Hs]. destruct (IH Hs) as (l & E & L & F).
  unfold Py.is_digit in Hc. apply andb_true_iff in Hc as [H1 H2].
  apply Nat.leb_le in H1, H2.
  assert (Hb : (Py.byte c <? 128)%Z = true) by (unfold Py.byte; apply Z.ltb_lt; lia).
  exists (Py.byte c :: l). cbn [Py.utf8_decode]. rewrite Hb, E. cbn [option_map length].
  split; [reflexivity|]. split; [cbn; lia|]. cbn [forallb]. rewrite F, andb_true_r.
  apply existsb_exists. exists (48, 57)%Z. split; [left; reflexivity|].
  apply andb_true_iff; split; apply Z.leb_le; unfold Py.byte; lia.
Qed.

(** A non-empty string of the ASCII digits 0-9 passes [str.isdigit]. *)
Lemma isdigit_ascii_digits s : s <> "" -> Py.all_digits s = true -> Py.isdigit s = true.
Proof.
  intros Hne H. destruct (all_digits_decode s H) as (l & E & L & F).
  unfold Py.isdigit. rewrite E. destruct l as [|x l]; [|exact F].
  destruct s; [congruence|discriminate L].
Qed.

Lemma isdigit_minus s : Py.isdigit ("-" ++ s) = false.
Proof.
  unfold Py.isdigit. simpl. destruct (Py.utf8_decode s); reflexivity.
Qed.

(** [str(z).isdigit()] holds exactly for the integers that are not negative. *)
Lemma isdigit_z_str z : Py.isdigit (z_str z) = (0 <=? z)%Z.
Proof.
  unfold z_str. destruct (z <? 0)%Z eqn:Hz.
  - apply Z.ltb_lt in Hz. replace (0 <=? z)%Z with false by (symmetry; apply Z.leb_gt; lia).
    apply isdigit_minus.
  - apply Z.ltb_ge in Hz. replace (0 <=? z)%Z with true by (symmetry; apply Z.leb_le; lia).
    rewrite Nat.add_1_r. cbn [pos_digits].
    set (acc := String (digit_char (z mod 10)) "").
    assert (Ha : Py.all_digits acc = true).
    { unfold acc. cbn [Py.all_digits]. rewrite digit_char_ok; [reflexivity|].
      split; [apply Z.mod_pos_bound|apply Z.mod_pos_bound]; lia. }
    destruct (z <? 10)%Z.
    + apply isdigit_ascii_digits; [discriminate|exact Ha].
    + apply isdigit_ascii_digits; [apply pos_digits_nonempty|].
      rewrite pos_digits_all by (apply Z.div_pos; lia). exact Ha.
Qed.

Lemma publish_single_post_digit api u c m :
  publish_single_post api u c = Some m -> Py.isdigit m = true.
Proof.
  unfold publish_single_post, publish_body.
  destruct (post_container api u c) as [|ok j]; [discriminate|].
  destruct ok; cbn; [|destruct j; discriminate].
  destruct j as [o|]; [|discriminate].
  destruct (post_publish api (json_get "id" o)) as [|ok2 j2]; [discriminate|].
  destruct ok2; cbn; [|destruct j2; discriminate].
  destruct j2 as [o2|]; [|discriminate].
  destruct (json_get "id" o2) as [v|]; [|discriminate].
  destruct (Py.isdigit (py_str v)) eqn:E; [|discriminate].
  intros H; injection H as <-. exact E.
Qed.

(** The four cells a successful publication writes. *)
Definition published_fields (m now : string) : Fields :=
  [(FIELD_PUBLISHED, "Yes"); (FIELD_MEDIA_ID, m); (FIELD_PUBLISH_DATE, now);
   (FIELD_STATUS, STATUS_COMPLETED)].

Definition mark_published (m now : string) (p : Post) : Post :=
  mkPost (f_prompt p) (f_caption p) (f_image_url p) "Yes" m now STATUS_COMPLETED.

Lemma update_rows_published rid m now l :
  update_rows rid (published_fields m now) l =
  Some (map (fun '(i, q) => if i =? rid then (i, mark_published m now q) else (i, q)) l).
Proof.
  induction l as [|[i q] l IH]; cbn [update_rows map]; [reflexivity|].
  rewrite IH. destruct (i =? rid); [destruct q|]; reflexivity.
Qed.

Section PublishFacts.
Context {PL : PyLiterals}.

Lemma publish_record_result api rid p st :
  fst (publish_record api rid p st) =
  Ok (negb ((f_image_url p =? "") || (f_caption p =? "")) &&
      truthy (publish_single_post api (f_image_url p) (Py.strip (f_caption p)))).
Proof.
  unfold publish_record.
  assert (Hf : forall kvs (b : bool), fst ((update_record rid kvs ;;; ret b) st) = Ok b).
  { intros kvs b. destruct (update_record_ok rid kvs st) as [b' Hb].
    destruct (update_record rid kvs st) as [r st'] eqn:E. cbn in Hb; subst r.
    rewrite (bind_ok _ _ _ _ _ E). reflexivity. }
  destruct ((f_image_url p =? "") || (f_caption p =? "")); [apply Hf|].
  cbn [negb andb].
  destruct (truthy (publish_single_post api (f_image_url p) (Py.strip (f_caption p))));
    [|apply Hf].
  rewrite (bind_ok get_clock _ st (clock st) st eq_refl). apply Hf.
Qed.

Lemma publish_record_keeps api rid p :
  preserves (posts_keep [FIELD_PROMPT; FIELD_CAPTION; FIELD_IMAGE_URL]) (publish_record api rid p).
Proof.
  assert (K1 : keys_in [FIELD_PUBLISHED; FIELD_MEDIA_ID; FIELD_PUBLISH_DATE; FIELD_STATUS]
                       [(FIELD_STATUS, STATUS_FAILED)]) by (repeat constructor; cbn; tauto).
  unfold publish_record.
  destruct ((f_image_url p =? "") || (f_caption p =? "")).
  - apply preserves_bind; try typeclasses eauto;
      [apply (update_record_keeps _ _ writes_publish), K1|].
    intros _; apply preserves_ret; typeclasses eauto.
  - destruct (truthy _).
    + apply preserves_bind; try typeclasses eauto; [apply preserves_get_clock; typeclasses eauto|].
      intros now. apply preserves_bind; try typeclasses eauto.
      * apply (update_record_keeps _ _ writes_publish).
        repeat (apply Forall_cons; [cbn; tauto|]); apply Forall_nil.
      * intros _; apply preserves_ret; typeclasses eauto.
    + apply preserves_bind; try typeclasses eauto;
        [apply (update_record_keeps _ _ writes_publish), K1|].
      intros _; apply preserves_ret; typeclasses eauto.
Qed.

Lemma publish_record_ok api rid p st : exists b, fst (publish_record api rid p st) = Ok b.
Proof. rewrite publish_record_result. eauto. Qed.

(** When both listing requests are answered, [process_next_post] acts on
    the record [publish_target] names, on a state that differs from the
    first only in its request counter. *)
Lemma process_next_post_target api st rid p :
  net st (calls st) (ListPosts QReadyToPublish) = Success ->
  net st (S (calls st)) (ListPosts QAnyUnpublished) = Success ->
  NoDup (map fst (posts st)) ->
  publish_target (posts st) = Some rid -> In (rid, p) (posts st) ->
  f_image_url p <> "" /\
  exists st1, posts st1 = posts st /\ retry_table st1 = retry_table st /\
    next_retry_id st1 = next_retry_id st /\ net st1 = net st /\ clock st1 = clock st /\
    process_next_post api st = publish_record api rid p st1.
Proof.
  intros N1 N2 Hnd Ht Hin.
  assert (Hb : forall st1, process_next_post api st =
                 try_except (fun _ => publish_record api rid p st1) (fun _ => ret false) st ->
                 process_next_post api st = publish_record api rid p st1).
  { intros st1 E. rewrite E. destruct (publish_record_ok api rid p st1) as [b Hb].
    destruct (publish_record api rid p st1) as [r s] eqn:Er. cbn in Hb; subst r.
    apply try_ok. reflexivity. }
  assert (E1 : posts_all QReadyToPublish st =
               (Ok (filter (fun '(_, p) => query_matches QReadyToPublish p) (posts st)), tick st))
    by (unfold posts_all, request; rewrite N1; reflexivity).
  assert (Hq : forall q rid' p' rest,
             filter (fun '(_, p) => query_matches q p) (posts st) = (rid', p') :: rest ->
             (forall p, query_matches q p = true -> f_image_url p <> "") ->
             rid' = rid -> p' = p /\ f_image_url p <> "").
  { intros q rid' p' rest F Hu ->.
    assert (Hin' : In (rid, p') (filter (fun '(_, p) => query_matches q p) (posts st)))
      by (rewrite F; left; reflexivity).
    apply filter_In in Hin' as [Hin' Hm].
    rewrite (NoDup_fst_unique _ _ _ _ Hnd Hin' Hin) in Hm |- *. split; [reflexivity|].
    apply Hu, Hm. }
  destruct (filter (fun '(_, p) => query_matches QReadyToPublish p) (posts st))
    as [|[rid' p'] rest] eqn:F1.
  - assert (E2 : posts_all QAnyUnpublished (tick st) =
                 (Ok (filter (fun '(_, p) => query_matches QAnyUnpublished p) (posts st)),
                  tick (tick st)))
      by (unfold posts_all, request; cbn [net calls tick]; rewrite N2; reflexivity).
    destruct (filter (fun '(_, p) => query_matches QAnyUnpublished p) (posts st))
      as [|[rid' p'] rest] eqn:F2.
    + unfold publish_target in Ht. rewrite F1, F2 in Ht. discriminate.
    + rewrite (publish_target_fallback _ _ _ _ F1 F2) in Ht. injection Ht as Ht.
      destruct (Hq _ _ _ _ F2) as [-> Hu]; [|exact Ht|].
      { intros q Hm. cbn in Hm. destruct (f_image_url q =? "") eqn:Eu; [discriminate|].
        apply String.eqb_neq, Eu. }
      subst rid'. split; [exact Hu|]. exists (tick (tick st)). repeat split.
      apply Hb. unfold process_next_post. unfold try_except at 1 2.
      rewrite (bind_ok _ _ _ _ _ E1). cbv beta iota.
      rewrite (bind_ok _ _ _ _ _ E2). reflexivity.
  - rewrite (publish_target_primary _ _ _ _ F1) in Ht. injection Ht as Ht.
    destruct (Hq _ _ _ _ F1) as [-> Hu]; [|exact Ht|].
    { intros q Hm. cbn in Hm. destruct (f_image_url q =? "") eqn:Eu; [discriminate|].
      apply String.eqb_neq, Eu. }
    subst rid'. split; [exact Hu|]. exists (tick st). repeat split.
    apply Hb. unfold process_next_post. unfold try_except at 1 2.
    rewrite (bind_ok _ _ _ _ _ E1). cbv beta iota.
    rewrite (bind_ok (ret _) _ (tick st) _ (tick st) eq_refl). reflexivity.
Qed.

End PublishFacts.

(** The Graph API accepts both calls and answers with the media ID 1790. *)
Definition api_numeric : InstagramApi :=
  mkApi (fun _ _ => HttpResp true (Some [("id", VStr "17")]))
        (fun _ => HttpResp true (Some [("id", VStr "1790")])).

(** The same, with the media ID sent as a JSON integer [z]. *)
Definition api_int (z : Z) : InstagramApi :=
  mkApi (fun _ _ => HttpResp true (Some [("id", VStr "17")]))
        (fun _ => HttpResp true (Some [("id", VInt z)])).

Lemma try_ret_state {A} (m : M A) (a : A) st :
  snd (try_except m (fun _ => ret a) st) = snd (m st).
Proof. unfold try_except. destruct (m st) as [[b|e] st']; reflexivity. Qed.

(** A retry entry that is already Completed. *)
Definition entry_done : RetryEntry :=
  mkRetry "update" "rec1" (Some "{'Status': 'Ready'}") STATUS_COMPLETED.

Definition st_two_entries : St :=
  mkSt [("rec1", post_ready)] [(0, entry_done); (1, entry_ready)] 2 all_success 0
       (fun _ _ => LlmOtherError) 0 "2026-01-01".

Lemma publish_target_in ps rid : publish_target ps = Some rid -> exists p, In (rid, p) ps.
Proof.
  unfold publish_target.
  destruct (filter (fun '(_, p) => query_matches QReadyToPublish p) ps)
    as [|[i p] r] eqn:F1.
  - destruct (filter (fun '(_, p) => query_matches QAnyUnpublished p) ps)
      as [|[i p] r] eqn:F2; [discriminate|].
    intros H; injection H as <-. exists p.
    assert (Hx : In (i, p) (filter (fun '(_, p) => query_matches QAnyUnpublished p) ps))
      by (rewrite F2; left; reflexivity).
    apply filter_In in Hx as [Hx _]. exact Hx.
  - intros H; injection H as <-. exists p.
    assert (Hx : In (i, p) (filter (fun '(_, p) => query_matches QReadyToPublish p) ps))
      by (rewrite F1; left; reflexivity).
    apply filter_In in Hx as [Hx _]. exact Hx.
Qed.

(** An update Airtable rejects: [update_record] returns false and
    dead-letters the update. *)
Lemma update_record_reject_effect {PL : PyLiterals} rid kvs st :
  net st (calls st) (UpdatePost rid kvs) <> Success \/ patch_rows rid kvs (posts st) = None ->
  fst (update_record rid kvs st) = Ok false /\
  posts (snd (update_record rid kvs st)) = posts st /\
  retry_table (snd (update_record rid kvs st)) =
  match net st (S (calls st)) (CreateRetry (dead_letter (rid, kvs))) with
  | Success => (retry_table st ++ [(next_retry_id st, dead_letter (rid, kvs))])%list
  | Failure _ => retry_table st
  end.
Proof.
  intros H.
  assert (Hq : forall st1, posts st1 = posts st -> retry_table st1 = retry_table st ->
                           next_retry_id st1 = next_retry_id st -> net st1 = net st ->
                           calls st1 = S (calls st) ->
     fst ((add_to_retry_queue "update" rid kvs ;;; ret false) st1) = Ok false /\
     posts (snd ((add_to_retry_queue "update" rid kvs ;;; ret false) st1)) = posts st /\
     retry_table (snd ((add_to_retry_queue "update" rid kvs ;;; ret false) st1)) =
     match net st (S (calls st)) (CreateRetry (dead_letter (rid, kvs))) with
     | Success => (retry_table st ++ [(next_retry_id st, dead_letter (rid, kvs))])%list
     | Failure _ => retry_table st
     end).
  { intros st1 P R I N C.
    unfold add_to_retry_queue, try_except, bind, retry_create, request, ret.
    rewrite N, C. cbn [dead_letter].
    destruct (net st (S (calls st)) _); cbn; rewrite ?P, ?R, ?I; repeat split. }
  assert (Hp : posts_update rid kvs st = (Raise AirtableError, tick st)).
  { unfold posts_update, request. destruct H as [H|H].
    - destruct (net st (calls st) (UpdatePost rid kvs)); [contradiction|reflexivity].
    - destruct (net st (calls st) (UpdatePost rid kvs)); [|reflexivity].
      cbn [posts tick]. rewrite H. reflexivity. }
  unfold update_record. rewrite (try_raise _ _ _ _ _ (bind_raise _ _ _ _ _ Hp)).
  apply Hq; reflexivity.
Qed.

Lemma process_next_post_non_numeric_core {PL : PyLiterals} (api : InstagramApi) (st : St) :
  (forall u c, exists o o2 v,
     post_container api u c = HttpResp true (Some o) /\
     post_publish api (json_get "id" o) = HttpResp true (Some o2) /\
     json_get "id" o2 = Some v /\ Py.isdigit (py_str v) = false) ->
  (forall u c, publish_single_post api u c = None) /\
  fst (process_next_post api st) = Ok false /\
  Forall2 pub_same (posts st) (posts (snd (process_next_post api st))) /\
  ((forall n r, net st n r = Success) ->
   forall rid, publish_target (posts st) = Some rid ->
   forall p, In (rid, p) (posts (snd (process_next_post api st))) ->
   f_status p = STATUS_FAILED).
Proof.
  intros Hapi.
  assert (Hnone : forall u c, publish_single_post api u c = None).
  { intros u c. destruct (Hapi u c) as (o & o2 & v & H1 & H2 & H3 & H4).
    eapply publish_none_of_non_numeric; eauto. }
  split; [exact Hnone|].
  assert (Hrefl : Forall2 pub_same (posts st) (posts st))
    by (apply Forall2_refl_gen; intros; repeat split).
  unfold process_next_post, try_except, bind, posts_all, request.
  destruct (net st (calls st) (ListPosts QReadyToPublish)) as [|k] eqn:N1;
    cbn - [publish_record query_matches].
  2: { split; [reflexivity|]. split; [exact Hrefl|].
       intros Hnet. rewrite Hnet in N1. discriminate. }
  destruct (filter (fun '(_, p) => query_matches QReadyToPublish p) (posts st))
    as [|[rid p] rest] eqn:F1; cbn - [publish_record query_matches].
  - destruct (net st (S (calls st)) (ListPosts QAnyUnpublished)) eqn:N2;
      cbn - [publish_record query_matches].
    2: { split; [reflexivity|]. split; [exact Hrefl|].
         intros Hnet. rewrite Hnet in N2. discriminate. }
    destruct (filter (fun '(_, p) => query_matches QAnyUnpublished p) (posts st))
      as [|[rid p] rest] eqn:F2; cbn - [publish_record query_matches].
    + split; [reflexivity|]. split; [exact Hrefl|].
      intros _ rid Ht. unfold publish_target in Ht. rewrite F1, F2 in Ht. discriminate.
    + pose proof (publish_record_failed api rid p (tick (tick st)) Hnone) as (R1 & R2 & R3).
      destruct (publish_record api rid p (tick (tick st))) as [[r|e] st'];
        cbn in *; [|discriminate].
      split; [exact R1|]. split; [exact R2|].
      intros Hnet rid' Ht q Hq.
      rewrite (publish_target_fallback _ _ _ _ F1 F2) in Ht. injection Ht as <-.
      rewrite R3 in Hq; [eapply set_status_rows_status; exact Hq|exact Hnet|].
      exact (filter_first_has_row _ _ _ _ _ F2).
  - pose proof (publish_record_failed api rid p (tick st) Hnone) as (R1 & R2 & R3).
    destruct (publish_record api rid p (tick st)) as [[r|e] st'];
      cbn in *; [|discriminate].
    split; [exact R1|]. split; [exact R2|].
    intros Hnet rid' Ht q Hq.
    rewrite (publish_target_primary _ _ _ _ F1) in Ht. injection Ht as <-.
    rewrite R3 in Hq; [eapply set_status_rows_status; exact Hq|exact Hnet|].
    exact (filter_first_has_row _ _ _ _ _ F1).
Qed.

Section RejectedStatusWrite.
Context {PL : PyLiterals}.

(** The store stays the same, and while it rejects every status write to
    the row [iid], the row at position [k] stays [x]. *)
Definition keep_unwritten (iid k : nat) (x : nat * RetryEntry) (st st' : St) : Prop :=
  net st' = net st /\
  ((forall n s, net st n (UpdateRetryStatus iid s) <> Success) -> keep_entry k x st st').

#[export] Instance keep_unwritten_step iid k x : StepRel (keep_unwritten iid k x).
Proof.
  split; unfold keep_unwritten.
  - intros st. split; [reflexivity|]. intros _. apply step_refl.
  - intros s1 s2 s3 [N12 K12] [N23 K23]. split; [congruence|].
    intros H. eapply step_trans; [apply K12, H|apply K23]. rewrite N12. exact H.
Qed.

Lemma keep_unwritten_of iid k x {A} (m : M A) :
  preserves retry_grows m -> preserves (keep_entry k x) m ->
  preserves (keep_unwritten iid k x) m.
Proof. intros G K st. split; [apply G|intros _; apply K]. Qed.

Lemma retry_item_unwritten k x item :
  preserves (keep_unwritten (fst x) k x) (retry_item item).
Proof.
  destruct item as [i e]. destruct (Nat.eq_dec i (fst x)) as [->|Hne].
  - rewrite retry_item_eq. apply preserves_bind; try typeclasses eauto.
    + apply keep_unwritten_of; [apply replay_grows|apply replay_keep].
    + intros b st. split.
      * assert (Hs : (if b then STATUS_COMPLETED else STATUS_FAILED) = STATUS_COMPLETED \/
                     (if b then STATUS_COMPLETED else STATUS_FAILED) = STATUS_FAILED)
          by (destruct b; auto).
        apply (proj1 (retry_update_status_grows (fst x) _ Hs st)).
      * intros H. unfold retry_update_status, request.
        destruct (net st (calls st) (UpdateRetryStatus (fst x) _)) eqn:N;
          [exfalso; exact (H _ _ N)|].
        unfold keep_entry. cbn. auto.
  - apply keep_unwritten_of; [apply retry_item_grows|].
    apply retry_item_keep. exact Hne.
Qed.

Lemma process_retry_queue_unwritten k x :
  preserves (keep_unwritten (fst x) k x) process_retry_queue.
Proof.
  assert (Hs : forall s s', retry_same s s' -> keep_unwritten (fst x) k x s s').
  { intros s s' Hss. split; [apply Hss|intros _; apply retry_same_keep, Hss]. }
  unfold process_retry_queue. apply preserves_try; try typeclasses eauto.
  - apply preserves_bind; try typeclasses eauto.
    { eapply preserves_weaken; [exact Hs|apply retry_first_same]. }
    intros a. apply preserves_bind; try typeclasses eauto.
    { eapply preserves_weaken; [exact Hs|apply retry_all_pending_same]. }
    intros l. apply preserves_for_each; try typeclasses eauto.
    intros y _. apply retry_item_unwritten.
  - intros e; apply preserves_ret; try typeclasses eauto.
Qed.

End RejectedStatusWrite.

Section RejectedCreate.
Context {PL : PyLiterals}.

(** The store stays the same, and while it rejects every creation of a
    retry entry, the retry table keeps its length. *)
Definition len_uncreated (st st' : St) : Prop :=
  net st' = net st /\
  ((forall n c, net st n (CreateRetry c) <> Success) ->
   length (retry_table st') = length (retry_table st)).

#[export] Instance len_uncreated_step : StepRel len_uncreated.
Proof.
  split; unfold len_uncreated.
  - intros st. split; [reflexivity|]. intros _. reflexivity.
  - intros s1 s2 s3 [N12 L12] [N23 L23]. split; [congruence|].
    intros H. rewrite L23, L12; [reflexivity|exact H|]. rewrite N12. exact H.
Qed.

Lemma retry_same_len st st' : retry_same st st' -> len_uncreated st st'.
Proof. intros (A & _ & C). split; [exact C|]. intros _. rewrite A. reflexivity. Qed.

Lemma retry_create_len e : preserves len_uncreated (retry_create e).
Proof.
  intros st. split; [apply (proj1 (retry_create_grows e st))|].
  intros H. unfold retry_create, request.
  destruct (net st (calls st) (CreateRetry e)) eqn:N; [exfalso; exact (H _ _ N)|reflexivity].
Qed.

Lemma retry_update_status_len iid s : preserves len_uncreated (retry_update_status iid s).
Proof.
  apply preserves_request; [intros; apply retry_same_len; repeat split|].
  intros st a st' E. destruct (existsb _ _); [|discriminate]. injection E as <- <-.
  split; [reflexivity|]. intros _. cbn. apply length_map.
Qed.

Lemma add_to_retry_queue_len op rid d : preserves len_uncreated (add_to_retry_queue op rid d).
Proof.
  unfold add_to_retry_queue. apply preserves_try; try typeclasses eauto.
  - apply preserves_bind; try typeclasses eauto; [apply retry_create_len|].
    intros a; apply preserves_ret; try typeclasses eauto.
  - intros e; apply preserves_ret; try typeclasses eauto.
Qed.

Lemma update_record_lit_len rid v : preserves len_uncreated (update_record_lit rid v).
Proof.
  destruct v as [kvs|text b]; cbn [update_record_lit].
  - unfold update_record. apply preserves_try; try typeclasses eauto.
    + apply preserves_bind; try typeclasses eauto.
      * eapply preserves_weaken; [apply retry_same_len|apply posts_update_retry_same].
      * intros a; apply preserves_ret; try typeclasses eauto.
    + intros e. apply preserves_bind; try typeclasses eauto; [apply add_to_retry_queue_len|].
      intros a; apply preserves_ret; try typeclasses eauto.
  - unfold update_record_other. apply preserves_try; try typeclasses eauto.
    + apply preserves_bind; try typeclasses eauto.
      * eapply preserves_weaken; [apply retry_same_len|apply posts_update_other_same].
      * intros a; apply preserves_ret; try typeclasses eauto.
    + intros e. apply preserves_bind; try typeclasses eauto;
        [|intros a; apply preserves_ret; try typeclasses eauto].
      apply preserves_try; try typeclasses eauto;
        [|intros x; apply preserves_ret; try typeclasses eauto].
      apply preserves_bind; try typeclasses eauto; [apply retry_create_len|].
      intros a; apply preserves_ret; try typeclasses eauto.
Qed.

Lemma process_retry_queue_len : preserves len_uncreated process_retry_queue.
Proof.
  unfold process_retry_queue. apply preserves_try; try typeclasses eauto.
  - apply preserves_bind; try typeclasses eauto.
    { eapply preserves_weaken; [apply retry_same_len|apply retry_first_same]. }
    intros a. apply preserves_bind; try typeclasses eauto.
    { eapply preserves_weaken; [apply retry_same_len|apply retry_all_pending_same]. }
    intros l. apply preserves_for_each; try typeclasses eauto.
    intros [iid e] _. rewrite retry_item_eq.
    apply preserves_bind; try typeclasses eauto; [|intros b; apply retry_update_status_len].
    unfold replay. destruct (r_operation e =? "update");
      [|apply preserves_ret; try typeclasses eauto].
    apply preserves_try; try typeclasses eauto;
      [|intros y; apply preserves_ret; try typeclasses eauto].
    destruct (replay_payload (r_details e));
      [apply update_record_lit_len|apply preserves_raise; try typeclasses eauto].
  - intros e; apply preserves_ret; try typeclasses eauto.
Qed.

End RejectedCreate.

(** * Claims *)

(* ------------------------------------------------------------------ *)
(** ** Claims about [sanitize_filename], [generate_caption] and
       [publish_single_post] *)

(** C8: [sanitize_filename] is idempotent, and its output contains none
    of the characters < > : double-quote / backslash | ? *, no space,
    and has at most 50 characters. *)
Theorem sanitize_filename_spec (s : string) :
  sanitize_filename (sanitize_filename s) = sanitize_filename s /\
  (forall c, In c (list_ascii_of_string (sanitize_filename s)) ->
             ~ In c invalid_filename_chars /\ c <> " "%char) /\
  String.length (sanitize_filename s) <= 50.
Proof.
  pose proof (sanitize_filename_ok s) as Hok.
  split; [|split].
  - unfold sanitize_filename at 1.
    rewrite remove_invalid_chars_id by (apply filename_ok_valid, Hok).
    rewrite replace_space_id by exact Hok.
    apply take_id, take_length_le.
  - intros c Hin. pose proof (str_all_In _ _ _ Hok Hin) as Hc.
    unfold filename_ok_char in Hc. apply andb_true_iff in Hc as [H1 H2].
    apply negb_true_iff in H1, H2. split.
    + intros Hbad. unfold is_invalid_filename_char in H1.
      assert (existsb (Ascii.eqb c) invalid_filename_chars = true) as Hex.
      { apply existsb_exists. exists c. split; [exact Hbad|apply Ascii.eqb_refl]. }
      congruence.
    + intros ->. discriminate H2.
  - apply take_length_le.
Qed.

(** C10 (amended): [publish_single_post] never raises (its
    [except Exception] catches everything the body raises) and returns
    either [None] or a string for which Python's [str.isdigit()] holds;
    that admits Unicode digits such as '²', not only 0-9. *)
Theorem publish_single_post_total (api : InstagramApi) (image_url caption : string) :
  publish_single_post api image_url caption = None \/
  exists media_id, publish_single_post api image_url caption = Some media_id /\
                   Py.isdigit media_id = true.
Proof.
  unfold publish_single_post, publish_body.
  destruct (post_container api image_url caption) as [|ok j]; [left; reflexivity|].
  destruct ok; simpl; [|destruct j; left; reflexivity].
  destruct j as [o|]; [|left; reflexivity].
  destruct (post_publish api (json_get "id" o)) as [|ok2 j2]; [left; reflexivity|].
  destruct ok2; simpl; [|destruct j2; left; reflexivity].
  destruct j2 as [o2|]; [|left; reflexivity].
  destruct (json_get "id" o2) as [v|]; [|left; reflexivity].
  destruct (Py.isdigit (py_str v)) eqn:E; [right; eauto|left; reflexivity].
Qed.

(** C2: when the response text contains "Hashtags:", [generate_caption]
    returns as caption the cleaned text BEFORE the first "Hashtags:" (the
    segment after it plays no part), and as hashtags the whitespace
    separated tokens of that segment that start with "#", in order,
    joined by single spaces. *)
Theorem generate_caption_split (st : St) (prompt content pre post : string) :
  llm st (llm_calls st) prompt = LlmContent content ->
  first_occurrence HASHTAGS_SEP content pre post ->
  fst (generate_caption prompt st) =
  Ok (CapOk (clean_caption pre)
            (String.concat " " (filter (fun tag => String.prefix "#" tag) (Py.split post)))).
Proof.
  intros Hllm Hfirst. unfold generate_caption, retry3, try_except, generate_caption_attempt.
  rewrite Hllm, (caption_from_content_first _ _ _ Hfirst). reflexivity.
Qed.

Lemma generate_caption_split_witness :
  llm st_sunset (llm_calls st_sunset) "a prompt" = LlmContent SUNSET_RESPONSE /\
  first_occurrence HASHTAGS_SEP SUNSET_RESPONSE "A golden sunset. " " #sunset #nature" /\
  fst (generate_caption "a prompt" st_sunset) =
  Ok (CapOk (clean_caption "A golden sunset. ")
            (String.concat " " (filter (fun tag => String.prefix "#" tag)
                                       (Py.split " #sunset #nature")))).
Proof.
  assert (H1 : llm st_sunset (llm_calls st_sunset) "a prompt" = LlmContent SUNSET_RESPONSE)
    by reflexivity.
  assert (H2 : first_occurrence HASHTAGS_SEP SUNSET_RESPONSE
                 "A golden sunset. " " #sunset #nature")
    by exact (first_occurrence_b_sound HASHTAGS_SEP "A golden sunset. " " #sunset #nature"
                                       eq_refl).
  split; [exact H1|]. split; [exact H2|].
  exact (generate_caption_split st_sunset "a prompt" SUNSET_RESPONSE _ _ H1 H2).
Defined.

(** C4: one invocation of [process_next_post] changes at most one post:
    every row whose id is not the first result of the primary query (or,
    when that query is empty, of the fallback query) keeps its fields. *)
Theorem process_next_post_first_only {PL : PyLiterals} (api : InstagramApi) (st : St) :
  Forall2 (fun a b => fst a = fst b /\
                      (Some (fst a) <> publish_target (posts st) -> snd a = snd b))
          (posts st) (posts (snd (process_next_post api st))).
Proof.
  unfold process_next_post, try_except, bind, posts_all, request.
  destruct (net st (calls st) (ListPosts QReadyToPublish)) as [|k] eqn:N1;
    cbn - [publish_record query_matches]; [|apply same_rows_to_target].
  destruct (filter (fun '(_, p) => query_matches QReadyToPublish p) (posts st))
    as [|[rid p] rest] eqn:F1; cbn - [publish_record query_matches].
  - destruct (net st (S (calls st)) (ListPosts QAnyUnpublished)) eqn:N2;
      cbn - [publish_record query_matches]; [|apply same_rows_to_target].
    destruct (filter (fun '(_, p) => query_matches QAnyUnpublished p) (posts st))
      as [|[rid p] rest] eqn:F2; cbn - [publish_record query_matches];
      [apply same_rows_to_target|].
    pose proof (publish_record_only api rid p (tick (tick st))) as H.
    destruct (publish_record api rid p (tick (tick st))) as [[r|e] st'];
      cbn; eapply rows_rel_to_target; try exact H;
      eapply publish_target_fallback; eauto.
  - pose proof (publish_record_only api rid p (tick st)) as H.
    destruct (publish_record api rid p (tick st)) as [[r|e] st'];
      cbn; eapply rows_rel_to_target; try exact H;
      eapply publish_target_primary; eauto.
Qed.

(** C5 (amended): when the publish API answers with a media ID for which
    [str.isdigit()] is false, [publish_single_post] returns [None];
    [process_next_post] then returns false and no row's published flag,
    media ID or publish date changes.  When the store accepts the
    requests, the acted-on record has status Failed; when the store
    rejects updates of posts but accepts retry entries, the posts are left
    as they were and the status write is dead-lettered: one Pending retry
    entry for it is appended to the retry queue. *)
Theorem process_next_post_non_numeric {PL : PyLiterals} (api : InstagramApi) (st : St) :
  (forall u c, exists o o2 v,
     post_container api u c = HttpResp true (Some o) /\
     post_publish api (json_get "id" o) = HttpResp true (Some o2) /\
     json_get "id" o2 = Some v /\ Py.isdigit (py_str v) = false) ->
  (forall u c, publish_single_post api u c = None) /\
  fst (process_next_post api st) = Ok false /\
  Forall2 pub_same (posts st) (posts (snd (process_next_post api st))) /\
  ((forall n r, net st n r = Success) ->
   forall rid, publish_target (posts st) = Some rid ->
   forall p, In (rid, p) (posts (snd (process_next_post api st))) ->
   f_status p = STATUS_FAILED) /\
  ((forall n q, net st n (ListPosts q) = Success) ->
   (forall n rid kvs, net st n (UpdatePost rid kvs) <> Success) ->
   (forall n c, net st n (CreateRetry c) = Success) ->
   NoDup (map fst (posts st)) ->
   forall rid, publish_target (posts st) = Some rid ->
   posts (snd (process_next_post api st)) = posts st /\
   retry_table (snd (process_next_post api st)) =
     (retry_table st ++ [(next_retry_id st, dead_letter (rid, [(FIELD_STATUS, STATUS_FAILED)]))])%list).
Proof.
  intros Hapi.
  destruct (process_next_post_non_numeric_core api st Hapi) as (Hnone & R1 & R2 & R3).
  split; [exact Hnone|]. split; [exact R1|]. split; [exact R2|]. split; [exact R3|].
  intros HL HU HC Hnd rid Ht.
  destruct (publish_target_in _ _ Ht) as [p Hin].
  destruct (process_next_post_target api st rid p (HL _ _) (HL _ _) Hnd Ht Hin)
    as [_ (st1 & P1 & T1 & I1 & N1 & _ & E)].
  rewrite E.
  assert (Hpr : publish_record api rid p st1 =
                (update_record rid [(FIELD_STATUS, STATUS_FAILED)] ;;; ret false) st1).
  { unfold publish_record. destruct ((f_image_url p =? "") || (f_caption p =? ""));
      [reflexivity|]. rewrite Hnone. reflexivity. }
  rewrite Hpr.
  assert (HU1 : net st1 (calls st1) (UpdatePost rid [(FIELD_STATUS, STATUS_FAILED)]) <> Success)
    by (rewrite N1; apply HU).
  destruct (update_record_reject_effect rid [(FIELD_STATUS, STATUS_FAILED)] st1 (or_introl HU1))
    as (A & B & C).
  destruct (update_record rid [(FIELD_STATUS, STATUS_FAILED)] st1) as [r s] eqn:Eu.
  cbn [fst snd] in A, B, C. subst r. rewrite (bind_ok _ _ _ _ _ Eu). cbn [ret snd].
  split; [rewrite B; exact P1|]. rewrite C, N1, HC, T1, I1. reflexivity.
Qed.

(** C3 (counterexample): on the scenario of the claim, the caption pass
    writes the caption with ONE space before [#sunset]
    ([f"{caption} {hashtags}"] with the stripped caption), not two. *)
Lemma caption_pass_sunset_cex :
  posts (snd (generate_captions_from_airtable (PL := demo_literals) "Acme" st_sunset)) =
    [("rec1", mkPost "sunset over mountains" "A golden sunset. #sunset #nature"
                     "" "No" "" "" STATUS_PENDING)] /\
  "A golden sunset. #sunset #nature" <> "A golden sunset.  #sunset #nature".
Proof. split; [vm_compute; reflexivity|discriminate]. Qed.

(** C3 (amended): a record with prompt [sunset over mountains], empty
    caption and published [No], a language-model response
    [A golden sunset. Hashtags: #sunset #nature], and a store that accepts
    the requests: the pass completes and writes the caption
    [A golden sunset. #sunset #nature] (one space) with status Pending. *)
Theorem caption_pass_sunset {PL : PyLiterals} (company : string) (st : St) :
  posts st = [("rec1", post_sunset)] ->
  (forall n r, net st n r = Success) ->
  (forall pr, llm st (llm_calls st) pr = LlmContent SUNSET_RESPONSE) ->
  fst (generate_captions_from_airtable company st) = Ok PassCompleted /\
  posts (snd (generate_captions_from_airtable company st)) =
    [("rec1", mkPost "sunset over mountains" "A golden sunset. #sunset #nature"
                     "" "No" "" "" STATUS_PENDING)].
Proof.
  destruct st as [ps rt nid nt c l lc ck]; cbn [posts net llm llm_calls].
  intros -> Hnet Hllm.
  unfold generate_captions_from_airtable.
  repeat (first [rewrite Hnet | rewrite Hllm |
                 progress (unfold bind, ret, raise, try_except, request, posts_all,
                             generate_caption, retry3, generate_caption_attempt,
                             batch_update_records, posts_batch_update; cbn)]).
  split; reflexivity.
Qed.

Lemma caption_pass_sunset_witness :
  posts st_sunset = [("rec1", post_sunset)] /\
  (forall n r, net st_sunset n r = Success) /\
  (forall pr, llm st_sunset (llm_calls st_sunset) pr = LlmContent SUNSET_RESPONSE) /\
  fst (generate_captions_from_airtable (PL := demo_literals) "Acme" st_sunset) = Ok PassCompleted /\
  posts (snd (generate_captions_from_airtable (PL := demo_literals) "Acme" st_sunset)) =
    [("rec1", mkPost "sunset over mountains" "A golden sunset. #sunset #nature"
                     "" "No" "" "" STATUS_PENDING)].
Proof.
  assert (H1 : posts st_sunset = [("rec1", post_sunset)]) by reflexivity.
  assert (H2 : forall n r, net st_sunset n r = Success) by reflexivity.
  assert (H3 : forall pr, llm st_sunset (llm_calls st_sunset) pr = LlmContent SUNSET_RESPONSE)
    by reflexivity.
  split; [exact H1|]. split; [exact H2|]. split; [exact H3|].
  exact (caption_pass_sunset (PL := demo_literals) "Acme" st_sunset H1 H2 H3).
Defined.

(** C10 (counterexample): the publish API answers with the media ID '²'
    (U+00B2): [str.isdigit()] holds for it, so [publish_single_post]
    returns it, though it is not made of the digits 0-9. *)
Lemma publish_single_post_total_cex :
  publish_single_post api_superscript "https://example.com/1.jpg" "A golden sunset."
    = Some SUPERSCRIPT_TWO /\
  purely_numeric SUPERSCRIPT_TWO = false.
Proof. split; vm_compute; reflexivity. Qed.

(** C5 (counterexample): (1) the API answers with the media ID '²', for
    which [str.isdigit()] holds: the post is published with it although it
    is not purely numeric; (2) the API answers with the media ID [abc] and
    the store rejects the status write: the record keeps status Ready, and
    the write is dead-lettered as a Pending retry entry instead. *)
Lemma process_next_post_non_numeric_cex :
  purely_numeric SUPERSCRIPT_TWO = false /\
  fst (process_next_post (PL := demo_literals) api_superscript (st_publish all_success))
    = Ok true /\
  posts (snd (process_next_post (PL := demo_literals) api_superscript
                                (st_publish all_success))) =
    [("rec1", mkPost "sunset over mountains" "A golden sunset." "https://example.com/1.jpg"
                     "Yes" SUPERSCRIPT_TWO "2026-01-01" STATUS_COMPLETED)] /\
  publish_single_post api_non_numeric "https://example.com/1.jpg" "A golden sunset." = None /\
  posts (snd (process_next_post (PL := demo_literals) api_non_numeric
                                (st_publish reject_post_updates))) = [("rec1", post_ready)] /\
  retry_table (snd (process_next_post (PL := demo_literals) api_non_numeric
                                      (st_publish reject_post_updates))) =
    [(0, mkRetry "update" "rec1" (Some "{'Status': 'Failed'}") STATUS_PENDING)] /\
  f_status post_ready <> STATUS_FAILED.
Proof. repeat split; [vm_compute; reflexivity..|discriminate]. Qed.

Lemma process_next_post_non_numeric_witness :
  (forall u c, exists o o2 v,
     post_container api_non_numeric u c = HttpResp true (Some o) /\
     post_publish api_non_numeric (json_get "id" o) = HttpResp true (Some o2) /\
     json_get "id" o2 = Some v /\ Py.isdigit (py_str v) = false) /\
  fst (process_next_post (PL := demo_literals) api_non_numeric (st_publish all_success))
    = Ok false /\
  posts (snd (process_next_post (PL := demo_literals) api_non_numeric
                                (st_publish reject_post_updates))) = [("rec1", post_ready)] /\
  retry_table (snd (process_next_post (PL := demo_literals) api_non_numeric
                                      (st_publish reject_post_updates))) =
    [(0, dead_letter (PL := demo_literals) ("rec1", [(FIELD_STATUS, STATUS_FAILED)]))].
Proof.
  assert (H : forall u c, exists o o2 v,
     post_container api_non_numeric u c = HttpResp true (Some o) /\
     post_publish api_non_numeric (json_get "id" o) = HttpResp true (Some o2) /\
     json_get "id" o2 = Some v /\ Py.isdigit (py_str v) = false).
  { intros u c. exists [("id", VStr "17")], [("id", VStr "abc")], (VStr "abc").
    repeat split; reflexivity. }
  split; [exact H|]. split.
  - exact (proj1 (proj2 (process_next_post_non_numeric (PL := demo_literals)
                           api_non_numeric (st_publish all_success) H))).
  - destruct (process_next_post_non_numeric (PL := demo_literals)
                api_non_numeric (st_publish reject_post_updates) H) as (_ & _ & _ & _ & H5).
    apply H5.
    + intros n q. reflexivity.
    + intros n rid kvs. discriminate.
    + intros n c. reflexivity.
    + repeat constructor. intros [].
    + reflexivity.
Defined.

(** C7 (counterexample): when the store rejects the batch and also the
    creation of retry entries, no entry is created at all. *)
Lemma batch_update_dead_letters_cex :
  batch_update_records (PL := demo_literals) batch_items (st_publish reject_all) =
  (Ok false, snd (batch_update_records (PL := demo_literals) batch_items
                                       (st_publish reject_all))) /\
  retry_table (snd (batch_update_records (PL := demo_literals) batch_items
                                         (st_publish reject_all))) = [].
Proof. split; vm_compute; reflexivity. Qed.

(** C7 (amended): when the batch update of a non-empty batch raises (the
    call failed, possibly after some chunks of ten were written), and the
    store accepts the creation of retry entries, every item of the batch
    gets a new Pending entry with operation [update], its record id and its
    serialised fields ([None] for an empty dict), in batch order, and
    [batch_update_records] returns false. *)
Theorem batch_update_dead_letters {PL : PyLiterals} (items : list (string * Fields)) (st : St) :
  items <> [] ->
  fst (posts_batch_update items st) <> Ok tt ->
  (forall n e, net st n (CreateRetry e) = Success) ->
  fst (batch_update_records items st) = Ok false /\
  retry_table (snd (batch_update_records items st)) =
    (retry_table st ++ dead_letters (next_retry_id st) items)%list.
Proof.
  intros Hne Hfail Hnet.
  destruct (posts_batch_update items st) as [r st1] eqn:B. cbn [fst] in Hfail.
  assert (Hst1 : net st1 = net st /\ retry_table st1 = retry_table st /\
                 next_retry_id st1 = next_retry_id st).
  { unfold posts_batch_update in B.
    destruct (apply_chunks _ _ _) as [ok l]. injection B as _ <-. repeat split. }
  destruct Hst1 as (N1 & R1 & I1).
  assert (Hnet1 : forall n e, net st1 n (CreateRetry e) = Success)
    by (intros; rewrite N1; apply Hnet).
  destruct (dead_letter_all items st1 Hnet1) as [H1 H2].
  destruct (for_each items (fun '(rid, kvs) => add_to_retry_queue "update" rid kvs ;;; ret tt)
                     st1) as [r2 st2] eqn:F.
  cbn [fst snd] in H1, H2. subst r2.
  assert (E : batch_update_records items st = (Ok false, st2)).
  { destruct items as [|item items']; [contradiction|].
    unfold batch_update_records, try_except, bind. rewrite B.
    destruct r as [[]|e]; [contradiction|]. cbv beta iota.
    exact (bind_ok _ _ _ _ _ F). }
  rewrite E. cbn [fst snd]. rewrite H2, R1, I1. split; reflexivity.
Qed.

Lemma batch_update_dead_letters_witness :
  batch_items <> [] /\
  fst (posts_batch_update batch_items (st_publish reject_batches)) <> Ok tt /\
  (forall n e, net (st_publish reject_batches) n (CreateRetry e) = Success) /\
  retry_table (snd (batch_update_records (PL := demo_literals) batch_items
                                         (st_publish reject_batches))) =
    dead_letters (PL := demo_literals) 0 batch_items.
Proof.
  assert (H1 : batch_items <> []) by discriminate.
  assert (H2 : fst (posts_batch_update batch_items (st_publish reject_batches)) <> Ok tt)
    by (vm_compute; discriminate).
  assert (H3 : forall n e, net (st_publish reject_batches) n (CreateRetry e) = Success)
    by reflexivity.
  split; [exact H1|]. split; [exact H2|]. split; [exact H3|].
  exact (proj2 (batch_update_dead_letters (PL := demo_literals) batch_items
                  (st_publish reject_batches) H1 H2 H3)).
Defined.

(** C6 (counterexample): when the store rejects the status write, the
    entry whose payload does not parse stays Pending after the sweep. *)
Lemma retry_sweep_undeserializable_cex :
  replay_payload (PL := demo_literals) (r_details entry_garbled) = None /\
  retry_table (snd (process_retry_queue (PL := demo_literals)
                      (st_retry entry_garbled reject_status_writes))) =
    [(0, entry_garbled)] /\
  r_status entry_garbled = STATUS_PENDING.
Proof. repeat split; vm_compute; reflexivity. Qed.

(** C6 (amended): let a Pending [update] entry whose payload does not
    parse sit at position [j] of the retry table.  (1) When the store
    answers the two queries of the sweep and accepts the status writes,
    and retry ids are unique, the sweep marks the entry Failed, and it
    stays at its position with a status other than Pending through any
    number of later sweeps, which select Pending entries only.  (2) When
    the store rejects the status writes to that entry, the sweep leaves
    it unchanged: still Pending, and selected again by the next sweep's
    query. *)
Theorem retry_sweep_undeserializable {PL : PyLiterals} (st : St) (j iid : nat) (e : RetryEntry) :
  nth_error (retry_table st) j = Some (iid, e) ->
  r_status e = STATUS_PENDING -> r_operation e = "update" ->
  replay_payload (r_details e) = None ->
  ((forall n, net st n FirstRetry = Success) ->
   (forall n, net st n ListPendingRetry = Success) ->
   (forall n i s, net st n (UpdateRetryStatus i s) = Success) ->
   NoDup (map fst (retry_table st)) ->
   nth_error (retry_table (snd (process_retry_queue st))) j =
     Some (iid, set_retry_status STATUS_FAILED e) /\
   forall n, exists e', nth_error (retry_table (sweeps n (snd (process_retry_queue st)))) j
                        = Some (iid, e') /\ r_status e' <> STATUS_PENDING) /\
  ((forall n s, net st n (UpdateRetryStatus iid s) <> Success) ->
   nth_error (retry_table (snd (process_retry_queue st))) j = Some (iid, e) /\
   In (iid, e) (filter (fun '(_, e) => is_pending e)
                       (retry_table (snd (process_retry_queue st))))).
Proof.
  intros Hj Hs Hop Hpay.
  assert (Hp : is_pending (snd (iid, e)) = true)
    by (cbn; unfold is_pending; rewrite Hs; reflexivity).
  split.
  - intros HF HL HU Hnd.
    destruct (sweep_split st j (iid, e) HF HL HU Hnd Hj Hp)
      as (l2 & sa & Ga & Pa & Ja & Hn2 & Hids2 & Run).
    assert (HUa : forall n i s, net sa n (UpdateRetryStatus i s) = Success)
      by (destruct Ga as (N & _); rewrite N; apply HU).
    destruct (retry_item_undeserializable iid e sa j HUa Ja Hop Hpay) as (sb & Eb & Gb & Jb).
    assert (Gab : retry_grows st sb) by (eapply step_trans; [exact Ga|exact Gb]).
    destruct (for_each_retry_ok l2 sb) as [sc [Ec Gc]].
    + destruct Gab as (N & _). rewrite N. exact HU.
    + intros y Hy. exact (retry_grows_ids _ _ _ Gab (Hids2 y Hy)).
    + pose proof (for_each_retry_keep j (iid, set_retry_status STATUS_FAILED e) l2 Hn2 sb) as K.
      rewrite Ec in K. cbn [snd] in K.
      assert (J : nth_error (retry_table (snd (process_retry_queue st))) j =
                  Some (iid, set_retry_status STATUS_FAILED e))
        by (rewrite (Run sb sc Eb Ec); apply K; exact Jb).
      split; [exact J|]. intros n.
      eapply retry_grows_done; [apply sweeps_grows|exact J|cbn; discriminate].
  - intros Hrej.
    destruct (process_retry_queue_unwritten j (iid, e) st) as [_ K].
    assert (J : nth_error (retry_table (snd (process_retry_queue st))) j = Some (iid, e))
      by (apply K; [exact Hrej|exact Hj]).
    split; [exact J|]. apply filter_In. split; [exact (nth_error_In _ _ J)|exact Hp].
Qed.

Lemma retry_sweep_undeserializable_witness :
  nth_error (retry_table (snd (process_retry_queue (PL := demo_literals)
                                 (st_retry entry_garbled all_success)))) 0 =
    Some (0, set_retry_status STATUS_FAILED entry_garbled) /\
  nth_error (retry_table (snd (process_retry_queue (PL := demo_literals)
                                 (st_retry entry_garbled reject_status_writes)))) 0 =
    Some (0, entry_garbled).
Proof.
  split.
  - exact (proj1 (proj1 (retry_sweep_undeserializable (PL := demo_literals)
                           (st_retry entry_garbled all_success) 0 0 entry_garbled
                           eq_refl eq_refl eq_refl eq_refl)
                    (fun _ => eq_refl) (fun _ => eq_refl) (fun _ _ _ => eq_refl)
                    (NoDup_cons 0 (fun H : In 0 [] => H) (NoDup_nil _)))).
  - exact (proj1 (proj2 (retry_sweep_undeserializable (PL := demo_literals)
                           (st_retry entry_garbled reject_status_writes) 0 0 entry_garbled
                           eq_refl eq_refl eq_refl eq_refl)
                    (fun _ _ H => ltac:(discriminate H)))).
Defined.

(** C9 (counterexample): when the store rejects both the replayed update
    and the creation of retry entries, the original entry is marked Failed
    and no fresh entry is created: the mutation leaves the queue. *)
Lemma retry_replay_requeues_cex :
  replay_payload (PL := demo_literals) (r_details entry_ready) = Some (LDict demo_payload) /\
  retry_table (snd (process_retry_queue (PL := demo_literals)
                      (st_retry entry_ready reject_updates_and_creates))) =
    [(0, set_retry_status STATUS_FAILED entry_ready)].
Proof. split; vm_compute; reflexivity. Qed.

(** C9 (amended): let a Pending [update] entry sit at position [j] of the
    retry table, with a payload [v] that parses but whose update fails:
    the store rejects that update, or the record is missing, or the dict
    names a cell that is no column, or [v] is not a dict.  (1) When the
    store answers the sweep's queries, accepts its status writes and the
    creation of retry entries, and retry ids are unique and below the id
    counter, the sweep marks the entry Failed and appends a fresh Pending
    [update] entry for the same record, after the original rows and with
    a new id, which the next sweep's query selects.  Its details are
    [str(v)] when [v] is truthy, which replays [v] when [ast.literal_eval]
    reads it back, and [None] otherwise, which replays [{}].  (2) When the
    store rejects every creation of a retry entry, the sweep appends no
    entry. *)
Theorem retry_replay_requeues {PL : PyLiterals} (st : St) (j iid : nat) (e : RetryEntry)
    (v : PyLit) :
  nth_error (retry_table st) j = Some (iid, e) ->
  r_status e = STATUS_PENDING -> r_operation e = "update" ->
  replay_payload (r_details e) = Some v ->
  update_rejected st (r_record_id e) v ->
  ((forall n, net st n FirstRetry = Success) ->
   (forall n, net st n ListPendingRetry = Success) ->
   (forall n i s, net st n (UpdateRetryStatus i s) = Success) ->
   (forall n c, net st n (CreateRetry c) = Success) ->
   NoDup (map fst (retry_table st)) ->
   Forall (fun i => i < next_retry_id st) (map fst (retry_table st)) ->
   nth_error (retry_table (snd (process_retry_queue st))) j =
     Some (iid, set_retry_status STATUS_FAILED e) /\
   exists k nid,
     length (retry_table st) <= k /\ next_retry_id st <= nid /\
     nth_error (retry_table (snd (process_retry_queue st))) k =
       Some (nid, mkRetry "update" (r_record_id e) (lit_details v) STATUS_PENDING) /\
     In (nid, mkRetry "update" (r_record_id e) (lit_details v) STATUS_PENDING)
        (filter (fun '(_, e) => is_pending e) (retry_table (snd (process_retry_queue st)))) /\
     ((exists d, lit_details v = Some d /\ d <> "" /\ literal_eval d = Some v) ->
      replay_payload (lit_details v) = Some v) /\
     (lit_details v = None -> replay_payload (lit_details v) = Some (LDict []))) /\
  ((forall n c, net st n (CreateRetry c) <> Success) ->
   length (retry_table (snd (process_retry_queue st))) = length (retry_table st)).
Proof.
  intros Hj Hs Hop Hpay Hrej. split.
  - intros HF HL HU HC Hnd Hfresh.
    assert (Hp : is_pending (snd (iid, e)) = true)
      by (cbn; unfold is_pending; rewrite Hs; reflexivity).
    destruct (sweep_split st j (iid, e) HF HL HU Hnd Hj Hp)
      as (l2 & sa & Ga & Pa & Ja & Hn2 & Hids2 & Run).
    pose proof Ga as (Na & Ia & pre & ext & Ta & Fa).
    rewrite Forall_forall in Hfresh.
    assert (Hlt : iid < next_retry_id sa)
      by (specialize (Hfresh iid (nth_error_in_ids _ _ _ _ Hj)); lia).
    assert (HUa : forall n i s, net sa n (UpdateRetryStatus i s) = Success)
      by (rewrite Na; exact HU).
    assert (HCa : forall n c, net sa n (CreateRetry c) = Success) by (rewrite Na; exact HC).
    destruct (retry_item_replay_fails iid e v sa j HUa HCa
                (update_rejected_ids _ _ _ _ Hrej Na Pa) Ja Hlt Hop Hpay)
      as (sb & Eb & Gb & Jb & Kb).
    assert (Gab : retry_grows st sb) by (eapply step_trans; [exact Ga|exact Gb]).
    destruct (for_each_retry_ok l2 sb) as [sc [Ec Gc]].
    + destruct Gab as (N & _). rewrite N. exact HU.
    + intros y Hy. exact (retry_grows_ids _ _ _ Gab (Hids2 y Hy)).
    + set (enew := mkRetry "update" (r_record_id e) (lit_details v) STATUS_PENDING).
      assert (Hn2' : ~ In (next_retry_id sa) (map fst l2)).
      { intros Hin. apply in_map_iff in Hin as [y [Hy Hin]].
        specialize (Hfresh _ (Hids2 y Hin)). lia. }
      pose proof (for_each_retry_keep j (iid, set_retry_status STATUS_FAILED e) l2 Hn2 sb) as K1.
      pose proof (for_each_retry_keep (length (retry_table sa)) (next_retry_id sa, enew)
                    l2 Hn2' sb) as K2.
      rewrite Ec in K1, K2. cbn [snd] in K1, K2. rewrite (Run sb sc Eb Ec).
      split; [apply K1; exact Jb|].
      exists (length (retry_table sa)), (next_retry_id sa).
      split.
      { rewrite Ta, length_app. rewrite <- (Forall2_length Fa). lia. }
      split; [exact Ia|].
      assert (Knew : nth_error (retry_table sc) (length (retry_table sa)) =
                     Some (next_retry_id sa, enew)) by (apply K2; exact Kb).
      split; [exact Knew|]. split.
      { apply filter_In. split; [exact (nth_error_In _ _ Knew)|reflexivity]. }
      split.
      * intros (d & Hd & Hne & Hrt). rewrite Hd. cbn [replay_payload].
        apply String.eqb_neq in Hne. rewrite Hne. exact Hrt.
      * intros Hd. rewrite Hd. reflexivity.
  - intros HC. destruct (process_retry_queue_len st) as [_ L]. exact (L HC).
Qed.

Lemma retry_replay_requeues_witness :
  nth_error (retry_table (snd (process_retry_queue (PL := demo_literals)
                                 (st_retry entry_ready reject_post_updates)))) 0 =
    Some (0, set_retry_status STATUS_FAILED entry_ready) /\
  nth_error (retry_table (snd (process_retry_queue (PL := demo_literals)
                                 (st_retry entry_ready all_success)))) 0 =
    Some (0, set_retry_status STATUS_FAILED entry_ready) /\
  nth_error (retry_table (snd (process_retry_queue (PL := demo_literals)
                                 (st_retry entry_list all_success)))) 0 =
    Some (0, set_retry_status STATUS_FAILED entry_list) /\
  length (retry_table (snd (process_retry_queue (PL := demo_literals)
                              (st_retry entry_ready reject_updates_and_creates)))) = 1.
Proof.
  assert (Hnd : NoDup (map fst [(0, entry_ready)]))
    by exact (NoDup_cons 0 (fun H : In 0 [] => H) (NoDup_nil _)).
  assert (Hfr : Forall (fun i => i < 1) (map fst [(0, entry_ready)]))
    by (cbn; constructor; [lia|constructor]).
  assert (R1 : update_rejected (st_retry entry_ready reject_post_updates) "rec1"
                               (LDict demo_payload))
    by (left; intros n H; discriminate H).
  assert (R4 : update_rejected (st_retry entry_ready reject_updates_and_creates) "rec1"
                               (LDict demo_payload))
    by (left; intros n H; discriminate H).
  split; [|split; [|split]].
  - exact (proj1 (proj1 (retry_replay_requeues (PL := demo_literals)
                           (st_retry entry_ready reject_post_updates) 0 0 entry_ready
                           (LDict demo_payload) eq_refl eq_refl eq_refl eq_refl R1)
                    (fun _ => eq_refl) (fun _ => eq_refl) (fun _ _ _ => eq_refl)
                    (fun _ _ => eq_refl) Hnd Hfr)).
  - exact (proj1 (proj1 (retry_replay_requeues (PL := demo_literals)
                           (st_retry entry_ready all_success) 0 0 entry_ready
                           (LDict demo_payload) eq_refl eq_refl eq_refl eq_refl
                           (or_intror eq_refl))
                    (fun _ => eq_refl) (fun _ => eq_refl) (fun _ _ _ => eq_refl)
                    (fun _ _ => eq_refl) Hnd Hfr)).
  - exact (proj1 (proj1 (retry_replay_requeues (PL := demo_literals)
                           (st_retry entry_list all_success) 0 0 entry_list
                           (LOther "[1, 2]" true) eq_refl eq_refl eq_refl eq_refl I)
                    (fun _ => eq_refl) (fun _ => eq_refl) (fun _ _ _ => eq_refl)
                    (fun _ _ => eq_refl)
                    (NoDup_cons 0 (fun H : In 0 [] => H) (NoDup_nil _)) Hfr)).
  - exact (proj2 (retry_replay_requeues (PL := demo_literals)
                    (st_retry entry_ready reject_updates_and_creates) 0 0 entry_ready
                    (LDict demo_payload) eq_refl eq_refl eq_refl eq_refl R4)
                 (fun _ _ H => ltac:(discriminate H))).
Defined.

(** C1 (counterexample): a record selected by the caption query but with
    an empty prompt is skipped by the pass: it keeps an empty caption and
    its status, neither of the two outcomes.  And when every
    language-model attempt raises, a record with a prompt is left with an
    empty caption too: the pass ends in its error handler. *)
Lemma caption_pass_outcomes_cex :
  query_matches QNeedCaptions post_blank = true /\
  posts (snd (generate_captions_from_airtable (PL := demo_literals) "Acme" st_blank)) =
    [("rec2", post_blank)] /\
  f_caption post_blank = "" /\ f_caption post_blank <> CAPTION_ERROR_TEXT /\
  f_status post_blank <> STATUS_PENDING /\
  query_matches QNeedCaptions post_sunset = true /\ f_prompt post_sunset <> "" /\
  fst (generate_captions_from_airtable (PL := demo_literals) "Acme" st_llm_down) =
    Ok PassError /\
  posts (snd (generate_captions_from_airtable (PL := demo_literals) "Acme" st_llm_down)) =
    [("rec1", post_sunset)] /\
  f_caption post_sunset = "".
Proof. repeat split; try (vm_compute; reflexivity); discriminate. Qed.

(** C1 (amended): when the store accepts every request and record ids are
    unique, the caption pass either ends in its error handler and leaves
    the Posts table as it was, or every record selected by the caption
    query ends, if its prompt is non-empty, with a non-empty caption and
    status Pending or with the fixed error text and status Failed, and is
    left unchanged if its prompt is empty.  The language model may answer
    anything, a 429 retried into an answer included. *)
Theorem caption_pass_outcomes {PL : PyLiterals} (company : string) (st : St) :
  (forall n r, net st n r = Success) ->
  NoDup (map fst (posts st)) ->
  (fst (generate_captions_from_airtable company st) = Ok PassError /\
   posts (snd (generate_captions_from_airtable company st)) = posts st) \/
  forall rid p q,
    In (rid, p) (posts st) -> query_matches QNeedCaptions p = true ->
    In (rid, q) (posts (snd (generate_captions_from_airtable company st))) ->
    (f_prompt p <> "" ->
     (f_caption q <> "" /\ f_status q = STATUS_PENDING) \/
     (f_caption q = CAPTION_ERROR_TEXT /\ f_status q = STATUS_FAILED)) /\
    (f_prompt p = "" -> q = p).
Proof.
  intros Hnet Hnd.
  destruct (caption_pass_rows company st Hnet Hnd) as [HE|(items & F2 & FR)];
    [left; exact HE|right].
  intros rid p q Hin Hq Hin'.
  destruct (Forall2_In_right _ _ _ _ FR Hin') as [[rid' p'] [Ha [Hid Hrow]]].
  cbn [fst snd] in Hid, Hrow. subst rid'.
  rewrite (NoDup_fst_unique _ _ _ _ Hnd Ha Hin) in Hrow.
  assert (Hfst : map fst items =
                 map fst (filter has_prompt
                            (filter (fun '(_, p) => query_matches QNeedCaptions p) (posts st))))
    by exact (Forall2_map_fst _ _ _ (fun a b H => proj1 H) F2).
  split.
  - intros Hp.
    assert (Hr : In (rid, p) (filter has_prompt
                                (filter (fun '(_, p) => query_matches QNeedCaptions p)
                                        (posts st)))).
    { apply filter_In. split; [apply filter_In; split; assumption|].
      unfold has_prompt. cbn [snd]. apply negb_true_iff, String.eqb_neq. exact Hp. }
    destruct (Forall2_In_left _ _ _ _ F2 Hr) as [[rid2 kvs] [Hit [Hf Hok]]].
    cbn [fst snd] in Hf, Hok. subst rid2.
    assert (Hnd_items : NoDup (map fst items))
      by (rewrite Hfst; do 2 apply NoDup_map_fst_filter; exact Hnd).
    rewrite (item_for_in _ _ _ Hnd_items Hit) in Hrow.
    destruct Hok as (c & s & -> & Hcs). rewrite caption_fields_apply in Hrow.
    injection Hrow as <-. exact Hcs.
  - intros Hp.
    assert (Hn : ~ In rid (map fst items)).
    { rewrite Hfst. intros Hx. apply in_map_iff in Hx as [[r pr] [Hr Hx]].
      cbn [fst] in Hr. subst r. apply filter_In in Hx as [Hx Hhp].
      apply filter_In in Hx as [Hx _].
      rewrite (NoDup_fst_unique _ _ _ _ Hnd Hx Hin) in Hhp.
      unfold has_prompt in Hhp. cbn [snd] in Hhp. rewrite Hp in Hhp. discriminate. }
    rewrite (item_for_notin _ _ Hn) in Hrow. exact Hrow.
Qed.

Lemma caption_pass_outcomes_witness :
  ((f_caption post_sunset_captioned <> "" /\ f_status post_sunset_captioned = STATUS_PENDING) \/
   (f_caption post_sunset_captioned = CAPTION_ERROR_TEXT /\
    f_status post_sunset_captioned = STATUS_FAILED)) /\
  ((f_caption post_city_failed <> "" /\ f_status post_city_failed = STATUS_PENDING) \/
   (f_caption post_city_failed = CAPTION_ERROR_TEXT /\
    f_status post_city_failed = STATUS_FAILED)) /\
  post_blank = post_blank.
Proof.
  assert (Hnd : NoDup (map fst (posts st_multi))).
  { cbn. repeat constructor; cbn; intros H; intuition discriminate. }
  destruct (caption_pass_outcomes (PL := demo_literals) "Acme" st_multi
              (fun _ _ => eq_refl) Hnd) as [[H _]|H].
  { vm_compute in H. discriminate. }
  split; [|split].
  - refine (proj1 (H "rec1" post_sunset post_sunset_captioned _ eq_refl _) _).
    + left; reflexivity.
    + vm_compute. auto.
    + discriminate.
  - refine (proj1 (H "rec2" post_city post_city_failed _ eq_refl _) _).
    + right; left; reflexivity.
    + vm_compute. auto.
    + discriminate.
  - refine (proj2 (H "rec3" post_blank post_blank _ eq_refl _) eq_refl).
    + right; right; left; reflexivity.
    + vm_compute. auto.
Defined.

(* ------------------------------------------------------------------ *)
(** * Further properties of the pipeline *)

(** The caption pass never writes the prompt, the image URL, the published
    flag, the media ID or the publish date of any row, and never adds,
    drops or reorders rows. *)
Theorem captions_pass_keeps_columns {PL : PyLiterals} company :
  preserves (posts_keep [FIELD_PROMPT; FIELD_IMAGE_URL; FIELD_PUBLISHED; FIELD_MEDIA_ID;
                         FIELD_PUBLISH_DATE])
            (generate_captions_from_airtable company).
Proof.
  unfold generate_captions_from_airtable.
  apply preserves_try; try typeclasses eauto;
    [|intros e; apply preserves_ret; typeclasses eauto].
  eapply triple_to_preserves.
  apply (triple_bind _ (fun _ => True) (fun _ => True)); try typeclasses eauto.
  - apply triple_preserves; try typeclasses eauto.
    eapply preserves_weaken; [apply tables_same_keep|apply posts_all_tables].
  - intros [|r0 rs] _; [apply triple_ret; try typeclasses eauto; exact I|].
    apply (triple_bind _ (Forall (fun it => keys_in [FIELD_CAPTION; FIELD_STATUS] (snd it))) (fun _ => True));
      try typeclasses eauto.
    + eapply triple_rel; [apply tables_same_keep|apply caption_updates_keys].
    + intros items Hi. apply (triple_bind _ (fun _ => True) (fun _ => True)); try typeclasses eauto.
      * destruct items as [|it its]; [apply triple_ret; try typeclasses eauto; exact I|].
        apply triple_preserves; try typeclasses eauto.
        apply (batch_update_records_keeps _ _ writes_caption), Hi.
      * intros _ _. apply triple_ret; try typeclasses eauto; exact I.
Qed.

(** When the caption pass ends in its error handler, it has written
    nothing: both tables are as before. *)
Theorem captions_pass_error_no_writes {PL : PyLiterals} company st :
  fst (generate_captions_from_airtable company st) = Ok PassError ->
  posts (snd (generate_captions_from_airtable company st)) = posts st /\
  retry_table (snd (generate_captions_from_airtable company st)) = retry_table st.
Proof.
  unfold generate_captions_from_airtable.
  pose proof (posts_all_tables QNeedCaptions st) as T1.
  destruct (posts_all QNeedCaptions st) as [[records|e] st1] eqn:E1; cbn in T1.
  - destruct records as [|r0 rs].
    + rewrite (try_ok _ _ _ PassNoNewPrompts st1)
        by (rewrite (bind_ok _ _ _ _ _ E1); reflexivity). discriminate.
    + destruct (caption_updates_keys company (r0 :: rs) st1) as [T2 _].
      destruct (caption_updates company (r0 :: rs) st1) as [[items|e] st2] eqn:E2; cbn in T2.
      * intros H; exfalso. revert H.
        destruct items as [|it its].
        -- rewrite (try_ok _ _ _ PassCompleted st2); [discriminate|].
           rewrite (bind_ok _ _ _ _ _ E1). cbv beta iota.
           rewrite (bind_ok _ _ _ _ _ E2). reflexivity.
        -- destruct (batch_update_records_ok (it :: its) st2) as [b Hb].
           destruct (batch_update_records (it :: its) st2) as [r st3] eqn:E3.
           cbn in Hb; subst r.
           rewrite (try_ok _ _ _ PassCompleted st3); [discriminate|].
           rewrite (bind_ok _ _ _ _ _ E1). cbv beta iota.
           rewrite (bind_ok _ _ _ _ _ E2). cbv beta iota.
           rewrite (bind_ok _ _ _ _ _ E3). reflexivity.
      * rewrite (try_raise _ _ _ e st2).
        -- intros _. cbn. destruct T1, T2. split; congruence.
        -- rewrite (bind_ok _ _ _ _ _ E1). cbv beta iota.
           apply (bind_raise _ _ _ _ _ E2).
  - rewrite (try_raise _ _ _ e st1) by (apply (bind_raise _ _ _ _ _ E1)).
    intros _. exact T1.
Qed.

Lemma captions_pass_error_no_writes_witness :
  fst (generate_captions_from_airtable (PL := demo_literals) COMPANY_NAME st_llm_down)
    = Ok PassError /\
  posts (snd (generate_captions_from_airtable (PL := demo_literals) COMPANY_NAME st_llm_down))
    = posts st_llm_down /\
  retry_table (snd (generate_captions_from_airtable (PL := demo_literals) COMPANY_NAME
                      st_llm_down)) = retry_table st_llm_down.
Proof.
  assert (H : fst (generate_captions_from_airtable (PL := demo_literals) COMPANY_NAME st_llm_down)
              = Ok PassError) by (vm_compute; reflexivity).
  split; [exact H|]. exact (captions_pass_error_no_writes COMPANY_NAME st_llm_down H).
Defined.

(** The image pass never writes the prompt, the caption, the published
    flag, the media ID or the publish date of any row, and never adds,
    drops or reorders rows. *)
Theorem images_pass_keeps_columns {PL : PyLiterals} sp w :
  posts_keep [FIELD_PROMPT; FIELD_CAPTION; FIELD_PUBLISHED; FIELD_MEDIA_ID; FIELD_PUBLISH_DATE]
             (airtable w) (airtable (snd (generate_images_from_airtable sp w))).
Proof.
  enough (H : wtriple (posts_keep [FIELD_PROMPT; FIELD_CAPTION; FIELD_PUBLISHED; FIELD_MEDIA_ID;
                                   FIELD_PUBLISH_DATE]) (fun _ => True)
                      (generate_images_from_airtable sp)) by apply (H w).
  unfold generate_images_from_airtable.
  apply wtriple_try; try typeclasses eauto;
    [|intros e; apply wtriple_ret; try typeclasses eauto; exact I].
  apply (wtriple_bind _ (fun _ => True) (fun _ => True)); try typeclasses eauto.
  - apply wtriple_of_preserves.
    eapply preserves_weaken; [apply tables_same_keep|apply posts_all_tables].
  - intros [|r0 rs] _; [apply wtriple_ret; try typeclasses eauto; exact I|].
    apply (wtriple_bind _ (Forall (fun it => keys_in [FIELD_IMAGE_URL; FIELD_STATUS] (snd it))) (fun _ => True));
      try typeclasses eauto.
    + eapply wtriple_rel; [apply at_same_any; typeclasses eauto|apply image_updates_keys].
    + intros items Hi. apply (wtriple_bind _ (fun _ => True) (fun _ => True)); try typeclasses eauto.
      * destruct items as [|it its]; [apply wtriple_ret; try typeclasses eauto; exact I|].
        apply wtriple_of_preserves.
        apply (batch_update_records_keeps _ _ writes_image), Hi.
      * intros _ _. apply wtriple_ret; try typeclasses eauto; exact I.
Qed.

(** When the image pass ends in its error handler, it has written nothing
    to Airtable: both tables are as before. *)
Theorem images_pass_error_no_writes {PL : PyLiterals} sp w :
  fst (generate_images_from_airtable sp w) = Ok ImagesError ->
  posts (airtable (snd (generate_images_from_airtable sp w))) = posts (airtable w) /\
  retry_table (airtable (snd (generate_images_from_airtable sp w))) = retry_table (airtable w).
Proof.
  unfold generate_images_from_airtable.
  pose proof (posts_all_tables QNeedImages (airtable w)) as T1.
  destruct (posts_all QNeedImages (airtable w)) as [r1 st1] eqn:E1.
  pose proof (lift_eq _ _ _ _ E1) as L1. cbn in T1.
  destruct r1 as [records|e].
  - destruct records as [|r0 rs].
    + rewrite (wtry_ok _ _ _ ImagesNoNew (set_airtable st1 w))
        by (rewrite (wbind_ok _ _ _ _ _ L1); reflexivity). discriminate.
    + destruct (image_updates_keys sp (r0 :: rs) (set_airtable st1 w)) as [T2 _].
      destruct (image_updates sp (r0 :: rs) (set_airtable st1 w)) as [[items|e] w2] eqn:E2;
        cbn in T2; unfold at_same in T2.
      * intros H; exfalso. revert H.
        destruct items as [|it its].
        -- rewrite (wtry_ok _ _ _ ImagesCompleted w2); [discriminate|].
           rewrite (wbind_ok _ _ _ _ _ L1). cbv beta iota.
           rewrite (wbind_ok _ _ _ _ _ E2). reflexivity.
        -- destruct (batch_update_records_ok (it :: its) (airtable w2)) as [b Hb].
           destruct (batch_update_records (it :: its) (airtable w2)) as [r st3] eqn:E3.
           cbn in Hb; subst r.
           rewrite (wtry_ok _ _ _ ImagesCompleted (set_airtable st3 w2)); [discriminate|].
           rewrite (wbind_ok _ _ _ _ _ L1). cbv beta iota.
           rewrite (wbind_ok _ _ _ _ _ E2). cbv beta iota.
           rewrite (wbind_ok _ _ _ _ _ (lift_eq _ _ _ _ E3)). reflexivity.
      * rewrite (wtry_raise _ _ _ e w2).
        -- intros _. cbn. rewrite T2. exact T1.
        -- rewrite (wbind_ok _ _ _ _ _ L1). cbv beta iota.
           apply (wbind_raise _ _ _ _ _ E2).
  - rewrite (wtry_raise _ _ _ e (set_airtable st1 w)) by (apply (wbind_raise _ _ _ _ _ L1)).
    intros _. exact T1.
Qed.

Lemma images_pass_error_no_writes_witness :
  let w := w_images st_images (fun _ _ => ImageError "429 Too Many Requests") None in
  fst (generate_images_from_airtable (PL := demo_literals) IMAGE_SAVE_PATH w) = Ok ImagesError /\
  posts (airtable (snd (generate_images_from_airtable (PL := demo_literals) IMAGE_SAVE_PATH w)))
    = posts (airtable w) /\
  retry_table (airtable (snd (generate_images_from_airtable (PL := demo_literals)
                                IMAGE_SAVE_PATH w))) = retry_table (airtable w).
Proof.
  intros w.
  assert (H : fst (generate_images_from_airtable (PL := demo_literals) IMAGE_SAVE_PATH w)
              = Ok ImagesError) by (vm_compute; reflexivity).
  split; [exact H|]. exact (images_pass_error_no_writes IMAGE_SAVE_PATH w H).
Defined.

(** With every Airtable request accepted, no image attempt raising and
    unique record ids, every row the image query selects ends either with
    a non-empty image URL and status Ready, or with status Failed and its
    image URL as it was; nothing else of the row changes. *)
Theorem images_pass_outcomes {PL : PyLiterals} sp w :
  (forall n r, net (airtable w) n r = Success) ->
  (forall n pr, image_attempt_ok (dalle w n pr) = true) ->
  NoDup (map fst (posts (airtable w))) ->
  forall rid p q,
    In (rid, p) (posts (airtable w)) -> query_matches QNeedImages p = true ->
    In (rid, q) (posts (airtable (snd (generate_images_from_airtable sp w)))) ->
    (exists url, url <> "" /\
       q = mkPost (f_prompt p) (f_caption p) url (f_published p) (f_media_id p)
                  (f_publish_date p) STATUS_READY) \/
    q = mkPost (f_prompt p) (f_caption p) (f_image_url p) (f_published p) (f_media_id p)
               (f_publish_date p) STATUS_FAILED.
Proof.
  intros Hnet Hd Hnd rid p q Hin Hq Hin'.
  destruct (images_pass_rows sp w Hnet Hd Hnd) as (items & F2 & FR).
  destruct (Forall2_In_right _ _ _ _ FR Hin') as [[rid' p'] [Ha [Hid Hrow]]].
  cbn [fst snd] in Hid, Hrow. subst rid'.
  rewrite (NoDup_fst_unique _ _ _ _ Hnd Ha Hin) in Hrow.
  assert (Hfst : map fst items =
                 map fst (filter has_caption
                            (filter (fun '(_, p) => query_matches QNeedImages p)
                                    (posts (airtable w)))))
    by exact (Forall2_map_fst _ _ _ (fun a b H => proj1 H) F2).
  assert (Hr : In (rid, p) (filter has_caption
                              (filter (fun '(_, p) => query_matches QNeedImages p)
                                      (posts (airtable w))))).
  { apply filter_In. split; [apply filter_In; split; assumption|].
    unfold has_caption. cbn [snd]. cbn in Hq.
    destruct (f_caption p =? ""); [discriminate|reflexivity]. }
  destruct (Forall2_In_left _ _ _ _ F2 Hr) as [[rid2 kvs] [Hit [Hf Hok]]].
  cbn [fst snd] in Hf, Hok. subst rid2.
  assert (Hnd_items : NoDup (map fst items))
    by (rewrite Hfst; do 2 apply NoDup_map_fst_filter; exact Hnd).
  rewrite (item_for_in _ _ _ Hnd_items Hit) in Hrow.
  destruct Hok as [(url & Hu & ->)| ->]; destruct p; cbn in Hrow; injection Hrow as <-.
  - left. exists url. split; [exact Hu|reflexivity].
  - right. reflexivity.
Qed.

Lemma images_pass_outcomes_witness :
  (exists url, url <> "" /\
     mkPost "sunset over mountains" "A golden sunset. #sunset #nature" CLOUD_URL "No" "" ""
            STATUS_READY =
     mkPost (f_prompt post_captioned) (f_caption post_captioned) url
            (f_published post_captioned) (f_media_id post_captioned)
            (f_publish_date post_captioned) STATUS_READY) \/
  mkPost "sunset over mountains" "A golden sunset. #sunset #nature" CLOUD_URL "No" "" ""
         STATUS_READY =
  mkPost (f_prompt post_captioned) (f_caption post_captioned) (f_image_url post_captioned)
         (f_published post_captioned) (f_media_id post_captioned)
         (f_publish_date post_captioned) STATUS_FAILED.
Proof.
  apply (images_pass_outcomes (PL := demo_literals) IMAGE_SAVE_PATH
           (w_images st_images (fun _ _ => ImageSaved) None)
           (fun _ _ => eq_refl) (fun _ _ => eq_refl)
           (NoDup_cons "rec1" (fun H : In "rec1" [] => H) (NoDup_nil _))
           "rec1" post_captioned).
  - left. reflexivity.
  - reflexivity.
  - vm_compute. left. reflexivity.
Defined.

(** Without the table schema, [validate_table_structure] falls back on the
    first record: it rejects the table when that request fails, accepts an
    empty table, and otherwise accepts exactly when all seven cells of the
    first row are non-empty.  Either way both tables are left as they
    were. *)
Theorem validate_without_schema w :
  table_info w = None ->
  fst (validate_table_structure w) =
  Ok (match net (airtable w) (calls (airtable w)) ListFirstPost with
      | Success =>
          match posts (airtable w) with
          | [] => true
          | (_, p) :: _ => forallb (fun f => negb (cell f p =? "")) REQUIRED_FIELDS
          end
      | Failure _ => false
      end) /\
  tables_same (airtable w) (airtable (snd (validate_table_structure w))).
Proof.
  intros H. destruct (validate_effects w) as (b & w' & E & T & _).
  rewrite E. split; [|exact T]. revert E.
  unfold validate_table_structure, wtry, wbind, get_table_info, lift, posts_first_record,
    request, wret.
  rewrite H. destruct (net (airtable w) (calls (airtable w)) ListFirstPost);
    [|intros E; injection E as <- _; reflexivity].
  destruct (posts (airtable w)) as [|[rid p] rest] eqn:Ep.
  - cbv beta iota zeta. cbn [tick posts]. rewrite Ep. intros E; injection E as <- _.
    reflexivity.
  - cbv beta iota zeta. cbn [tick posts]. rewrite Ep. cbn [firstn]. cbv beta iota.
    rewrite filter_negb_match, present_fields_required.
    intros E. destruct (forallb _ _); injection E as <- _; reflexivity.
Qed.

Lemma validate_without_schema_witness :
  fst (validate_table_structure (w_images st_images (fun _ _ => ImageSaved) None)) = Ok false /\
  tables_same st_images
    (airtable (snd (validate_table_structure (w_images st_images (fun _ _ => ImageSaved) None)))).
Proof. exact (validate_without_schema (w_images st_images (fun _ _ => ImageSaved) None) eq_refl).
Defined.

(** The content job never raises.  It runs its stages exactly when the
    table validates; when it does not, the job stops with both tables,
    the language model, the image model and Cloudinary untouched. *)
Theorem automate_outcome {PL : PyLiterals} w :
  exists valid,
    fst (validate_table_structure w) = Ok valid /\
    fst (automate_content_generation w) = Ok (if valid then JobDone else JobValidationFailed) /\
    (valid = false ->
     tables_same (airtable w) (airtable (snd (automate_content_generation w))) /\
     llm_calls (airtable (snd (automate_content_generation w))) = llm_calls (airtable w) /\
     dalle_calls (snd (automate_content_generation w)) = dalle_calls w /\
     cloudinary_calls (snd (automate_content_generation w)) = cloudinary_calls w).
Proof.
  destruct (validate_effects w) as (b & w1 & E & T & L & D & C).
  exists b. rewrite E. split; [reflexivity|].
  unfold automate_content_generation. rewrite (wbind_ok _ _ _ _ _ E).
  destruct b; cbn [negb].
  - split; [|discriminate].
    destruct (captions_pass_ok COMPANY_NAME (airtable w1)) as [r1 H1].
    rewrite <- (lift_fst (generate_captions_from_airtable COMPANY_NAME) w1) in H1.
    destruct (lift (generate_captions_from_airtable COMPANY_NAME) w1) as [x1 w2] eqn:E1.
    cbn in H1; subst x1. rewrite (wbind_ok _ _ _ _ _ E1).
    destruct (images_pass_ok IMAGE_SAVE_PATH w2) as [r2 H2].
    destruct (generate_images_from_airtable IMAGE_SAVE_PATH w2) as [x2 w3] eqn:E2.
    cbn in H2; subst x2. rewrite (wbind_ok _ _ _ _ _ E2).
    destruct (process_retry_queue_ok (airtable w3)) as [r3 H3].
    rewrite <- (lift_fst process_retry_queue w3) in H3.
    destruct (lift process_retry_queue w3) as [x3 w4] eqn:E3.
    cbn in H3; subst x3. rewrite (wbind_ok _ _ _ _ _ E3). reflexivity.
  - split; [reflexivity|]. intros _. cbn. auto.
Qed.

(** Every caption [generate_caption] returns, after any number of
    attempts, holds no newline and no double quote. *)
Theorem generate_caption_clean prompt st c h :
  fst (generate_caption prompt st) = Ok (CapOk c h) -> str_all caption_char_ok c = true.
Proof.
  intros H. unfold generate_caption in H.
  pose proof (retry3_result (fun r => (exists content, r = caption_from_content content) \/
                                      (exists msg, r = CapErr msg))
                            _ st _ (generate_caption_attempt_result prompt) H) as R.
  destruct R as [[content E]|[msg E]]; [|discriminate].
  apply (caption_from_content_clean content c h). symmetry; exact E.
Qed.

Lemma generate_caption_clean_witness :
  fst (generate_caption "sunset" (st_llm (LlmContent QUOTED_RESPONSE)))
    = Ok (CapOk "A golden sunset." "#sunset") /\
  str_all caption_char_ok "A golden sunset." = true.
Proof.
  assert (H : fst (generate_caption "sunset" (st_llm (LlmContent QUOTED_RESPONSE)))
              = Ok (CapOk "A golden sunset." "#sunset")) by (vm_compute; reflexivity).
  split; [exact H|]. exact (generate_caption_clean _ _ _ _ H).
Defined.

(** A request error that does not mention 429 is not retried: one attempt,
    and its message comes back as the error result. *)
Theorem generate_caption_request_error prompt st msg :
  llm st (llm_calls st) prompt = LlmRequestError msg -> Py.contains "429" msg = false ->
  generate_caption prompt st = (Ok (CapErr msg), tick_llm st).
Proof.
  intros H1 H2. unfold generate_caption, retry3, try_except, generate_caption_attempt.
  rewrite H1, H2. reflexivity.
Qed.

Lemma generate_caption_request_error_witness :
  generate_caption "sunset" (st_llm (LlmRequestError "500 Server Error"))
  = (Ok (CapErr "500 Server Error"), tick_llm (st_llm (LlmRequestError "500 Server Error"))).
Proof.
  exact (generate_caption_request_error "sunset" (st_llm (LlmRequestError "500 Server Error"))
           "500 Server Error" eq_refl eq_refl).
Defined.

(** When the first three attempts all raise, [generate_caption] gives up
    with [RetryError] after exactly those three language-model calls. *)
Theorem generate_caption_gives_up prompt st :
  (forall k, k < 3 -> llm_attempt_ok (llm st (llm_calls st + k) prompt) = false) ->
  generate_caption prompt st = (Raise RetryError, tick_llm (tick_llm (tick_llm st))).
Proof.
  intros H.
  assert (H0 := H 0 ltac:(lia)). assert (H1 := H 1 ltac:(lia)). assert (H2 := H 2 ltac:(lia)).
  rewrite Nat.add_0_r in H0.
  replace (llm_calls st + 1) with (llm_calls (tick_llm st)) in H1 by (cbn; lia).
  replace (llm_calls st + 2) with (llm_calls (tick_llm (tick_llm st))) in H2 by (cbn; lia).
  change (llm st) with (llm (tick_llm st)) in H1.
  change (llm st) with (llm (tick_llm (tick_llm st))) in H2.
  destruct (attempt_raises prompt st H0) as [e0 E0].
  destruct (attempt_raises prompt _ H1) as [e1 E1].
  destruct (attempt_raises prompt _ H2) as [e2 E2].
  unfold generate_caption, retry3.
  rewrite (try_raise _ _ _ _ _ E0), (try_raise _ _ _ _ _ E1), (try_raise _ _ _ _ _ E2).
  reflexivity.
Qed.

Lemma generate_caption_gives_up_witness :
  generate_caption "sunset" (st_llm (LlmRequestError "429 Too Many Requests"))
  = (Raise RetryError,
     tick_llm (tick_llm (tick_llm (st_llm (LlmRequestError "429 Too Many Requests"))))).
Proof.
  exact (generate_caption_gives_up "sunset" (st_llm (LlmRequestError "429 Too Many Requests"))
           (fun k _ => eq_refl)).
Defined.

(** A media ID the Graph API sends as a JSON integer is accepted, as its
    decimal text, exactly when it is not negative. *)
Theorem publish_integer_media_id api u c o o2 z :
  post_container api u c = HttpResp true (Some o) ->
  post_publish api (json_get "id" o) = HttpResp true (Some o2) ->
  json_get "id" o2 = Some (VInt z) ->
  publish_single_post api u c = if (0 <=? z)%Z then Some (z_str z) else None.
Proof.
  intros H1 H2 H3. unfold publish_single_post, publish_body.
  rewrite H1; cbn [negb]. rewrite H2; cbn [negb]. rewrite H3. cbn [py_str].
  rewrite isdigit_z_str. destruct (0 <=? z)%Z; reflexivity.
Qed.

Lemma publish_integer_media_id_witness :
  publish_single_post (api_int 1790) "https://example.com/1.jpg" "A golden sunset."
    = Some "1790" /\
  publish_single_post (api_int (-3)) "https://example.com/1.jpg" "A golden sunset." = None.
Proof.
  split.
  - exact (publish_integer_media_id (api_int 1790) "https://example.com/1.jpg"
             "A golden sunset." [("id", VStr "17")] [("id", VInt 1790)] 1790
             eq_refl eq_refl eq_refl).
  - exact (publish_integer_media_id (api_int (-3)) "https://example.com/1.jpg"
             "A golden sunset." [("id", VStr "17")] [("id", VInt (-3))] (-3)
             eq_refl eq_refl eq_refl).
Defined.

(** When the store accepts every request, ids are unique and the record
    [publish_target] names has a caption that Instagram publishes as the
    media [m], [process_next_post] reports success and that record becomes
    published: "Yes", media ID [m], the current time as publish date and
    status Completed; no other row changes. *)
Theorem process_next_post_publishes {PL : PyLiterals} api st rid p m :
  (forall n r, net st n r = Success) ->
  NoDup (map fst (posts st)) ->
  publish_target (posts st) = Some rid -> In (rid, p) (posts st) ->
  f_caption p <> "" ->
  publish_single_post api (f_image_url p) (Py.strip (f_caption p)) = Some m ->
  fst (process_next_post api st) = Ok true /\
  posts (snd (process_next_post api st)) =
  map (fun '(i, q) => if i =? rid then (i, mark_published m (clock st) q) else (i, q))
      (posts st).
Proof.
  intros Hnet Hnd Ht Hin Hc Hm.
  destruct (process_next_post_target api st rid p (Hnet _ _) (Hnet _ _) Hnd Ht Hin)
    as [Hu (st1 & P1 & R1 & I1 & N1 & C1 & E)].
  rewrite E. unfold publish_record.
  apply String.eqb_neq in Hu, Hc. rewrite Hu, Hc. cbn [orb].
  rewrite Hm. pose proof (publish_single_post_digit _ _ _ _ Hm) as Hd.
  assert (Hne : (m =? "") = false)
    by (destruct (m =? "") eqn:X; [apply String.eqb_eq in X; subst m; discriminate|reflexivity]).
  cbn [truthy]. rewrite Hne. cbn [negb].
  rewrite (bind_ok get_clock _ st1 (clock st1) st1 eq_refl).
  assert (U : update_record rid (published_fields m (clock st1)) st1 =
              (Ok true, set_posts (map (fun '(i, q) => if i =? rid
                                                      then (i, mark_published m (clock st1) q)
                                                      else (i, q)) (posts st1)) (tick st1))).
  { unfold update_record, try_except, bind, posts_update, request.
    rewrite N1, Hnet. cbn [posts tick]. unfold patch_rows.
    rewrite has_row_in by (rewrite P1; apply (in_map fst) in Hin; exact Hin).
    rewrite update_rows_published. reflexivity. }
  change [(FIELD_PUBLISHED, "Yes"); (FIELD_MEDIA_ID, m); (FIELD_PUBLISH_DATE, clock st1);
          (FIELD_STATUS, STATUS_COMPLETED)] with (published_fields m (clock st1)).
  rewrite (bind_ok _ _ _ _ _ U). cbn. rewrite P1, C1. split; reflexivity.
Qed.

Lemma process_next_post_publishes_witness :
  fst (process_next_post (PL := demo_literals) api_numeric (st_publish all_success)) = Ok true /\
  posts (snd (process_next_post (PL := demo_literals) api_numeric (st_publish all_success))) =
  [("rec1", mark_published "1790" "2026-01-01" post_ready)].
Proof.
  refine (process_next_post_publishes (PL := demo_literals) api_numeric (st_publish all_success)
            "rec1" post_ready "1790" (fun _ _ => eq_refl)
            (NoDup_cons "rec1" (fun H : In "rec1" [] => H) (NoDup_nil _))
            eq_refl (or_introl eq_refl) _ eq_refl).
  discriminate.
Defined.

(** With unique ids and both listing requests answered, [process_next_post]
    returns false when there is no record to publish, and otherwise
    whether the record has a caption and Instagram returned a media ID,
    whatever becomes of the Airtable write that follows. *)
Theorem process_next_post_result {PL : PyLiterals} api st :
  net st (calls st) (ListPosts QReadyToPublish) = Success ->
  net st (S (calls st)) (ListPosts QAnyUnpublished) = Success ->
  NoDup (map fst (posts st)) ->
  (publish_target (posts st) = None -> fst (process_next_post api st) = Ok false) /\
  (forall rid p, publish_target (posts st) = Some rid -> In (rid, p) (posts st) ->
   fst (process_next_post api st) =
   Ok (negb (f_caption p =? "") &&
       truthy (publish_single_post api (f_image_url p) (Py.strip (f_caption p))))).
Proof.
  intros N1 N2 Hnd. split.
  - intros Ht. unfold publish_target in Ht.
    assert (E1 : posts_all QReadyToPublish st =
                 (Ok (filter (fun '(_, p) => query_matches QReadyToPublish p) (posts st)),
                  tick st))
      by (unfold posts_all, request; rewrite N1; reflexivity).
    assert (E2 : posts_all QAnyUnpublished (tick st) =
                 (Ok (filter (fun '(_, p) => query_matches QAnyUnpublished p) (posts st)),
                  tick (tick st)))
      by (unfold posts_all, request; cbn [net calls tick]; rewrite N2; reflexivity).
    destruct (filter (fun '(_, p) => query_matches QReadyToPublish p) (posts st))
      as [|[i q] rest]; [|discriminate].
    destruct (filter (fun '(_, p) => query_matches QAnyUnpublished p) (posts st))
      as [|[i q] rest]; [|discriminate].
    unfold process_next_post, try_except.
    rewrite (bind_ok _ _ _ _ _ E1). cbv beta iota. rewrite (bind_ok _ _ _ _ _ E2).
    reflexivity.
  - intros rid p Ht Hin.
    destruct (process_next_post_target api st rid p N1 N2 Hnd Ht Hin)
      as [Hu (st1 & _ & _ & _ & _ & _ & E)].
    rewrite E, publish_record_result.
    apply String.eqb_neq in Hu. rewrite Hu. reflexivity.
Qed.

Lemma process_next_post_result_witness :
  fst (process_next_post (PL := demo_literals) api_numeric (st_publish reject_post_updates))
    = Ok true /\
  posts (snd (process_next_post (PL := demo_literals) api_numeric
                (st_publish reject_post_updates))) = [("rec1", post_ready)].
Proof.
  split; [|vm_compute; reflexivity].
  exact (proj2 (process_next_post_result (PL := demo_literals) api_numeric
                  (st_publish reject_post_updates) eq_refl eq_refl
                  (NoDup_cons "rec1" (fun H : In "rec1" [] => H) (NoDup_nil _)))
               "rec1" post_ready eq_refl (or_introl eq_refl)).
Defined.

(** [process_next_post] never writes the prompt, the caption or the image
    URL of any row, and never adds, drops or reorders rows. *)
Theorem process_next_post_keeps_columns {PL : PyLiterals} api :
  preserves (posts_keep [FIELD_PROMPT; FIELD_CAPTION; FIELD_IMAGE_URL]) (process_next_post api).
Proof.
  unfold process_next_post.
  assert (PA : forall q, preserves (posts_keep [FIELD_PROMPT; FIELD_CAPTION; FIELD_IMAGE_URL])
                                   (posts_all q))
    by (intros q; eapply preserves_weaken; [apply tables_same_keep|apply posts_all_tables]).
  apply preserves_try; try typeclasses eauto;
    [|intros e; apply preserves_ret; typeclasses eauto].
  apply preserves_bind; try typeclasses eauto; [apply PA|].
  intros records. apply preserves_bind; try typeclasses eauto.
  - destruct records; [apply PA|apply preserves_ret; typeclasses eauto].
  - intros [|[rid p] rest]; [apply preserves_ret; typeclasses eauto|].
    apply publish_record_keeps.
Qed.

(** A retry sweep never deletes or reorders retry entries: the table
    after it is the old table, entry for entry with the same id, operation,
    record and details and a status that is kept or set to Completed or
    Failed, followed by new entries; the id counter never goes down. *)
Theorem retry_sweep_history {PL : PyLiterals} st :
  next_retry_id st <= next_retry_id (snd (process_retry_queue st)) /\
  exists pre ext,
    retry_table (snd (process_retry_queue st)) = (pre ++ ext)%list /\
    Forall2 (fun a b => fst b = fst a /\
               r_operation (snd b) = r_operation (snd a) /\
               r_record_id (snd b) = r_record_id (snd a) /\
               r_details (snd b) = r_details (snd a) /\
               (r_status (snd b) = r_status (snd a) \/ r_status (snd b) = STATUS_COMPLETED \/
                r_status (snd b) = STATUS_FAILED))
            (retry_table st) pre.
Proof.
  destruct (process_retry_queue_grows st) as (_ & Hid & pre & ext & E & F).
  split; [exact Hid|]. exists pre, ext. split; [exact E|].
  eapply Forall2_impl; [|exact F].
  intros [i e] [i' e'] [Hi He]. cbn [fst snd] in *. subst i'.
  split; [reflexivity|].
  destruct He as [->|(s & Hs & ->)]; [repeat split; auto|].
  cbn. destruct Hs as [->| ->]; repeat split; auto.
Qed.

(** With unique ids in the retry table, an entry that is not Pending is
    left exactly as it is, at its place, by a retry sweep. *)
Theorem retry_sweep_keeps_done {PL : PyLiterals} st k i e :
  NoDup (map fst (retry_table st)) ->
  nth_error (retry_table st) k = Some (i, e) -> is_pending e = false ->
  nth_error (retry_table (snd (process_retry_queue st))) k = Some (i, e).
Proof.
  intros Hnd Hk Hp. unfold process_retry_queue. rewrite try_ret_state.
  pose proof (retry_first_same st) as S1.
  destruct (retry_first st) as [[r1|x1] st1] eqn:E1; cbn in S1;
    [|rewrite (bind_raise _ _ _ _ _ E1); cbn; destruct S1 as [-> _]; exact Hk].
  rewrite (bind_ok _ _ _ _ _ E1).
  pose proof (retry_all_pending_same st1) as S2.
  destruct (retry_all_pending st1) as [[L|x2] st2] eqn:E2; cbn in S2;
    [|rewrite (bind_raise _ _ _ _ _ E2); cbn; destruct S2 as [-> _];
      destruct S1 as [-> _]; exact Hk].
  rewrite (bind_ok _ _ _ _ _ E2).
  assert (HL : L = filter (fun '(_, e) => is_pending e) (retry_table st1)).
  { revert E2. unfold retry_all_pending, request.
    destruct (net st1 (calls st1) ListPendingRetry); [|discriminate].
    intros E; injection E as <- _. reflexivity. }
  destruct S1 as [T1 _]. destruct S2 as [T2 _].
  assert (Hn : ~ In (fst (i, e)) (map fst L)).
  { cbn [fst]. intros Hx. apply in_map_iff in Hx as [[i' e'] [Hi Hx]]. cbn in Hi. subst i'.
    rewrite HL, T1 in Hx. apply filter_In in Hx as [Hx Hpe].
    rewrite (NoDup_fst_unique _ _ _ _ Hnd Hx (nth_error_In _ _ Hk)) in Hpe.
    rewrite Hp in Hpe. discriminate. }
  apply (for_each_retry_keep k (i, e) L Hn st2). rewrite T2, T1. exact Hk.
Qed.

Lemma retry_sweep_keeps_done_witness :
  nth_error (retry_table (snd (process_retry_queue (PL := demo_literals) st_two_entries))) 0
  = Some (0, entry_done).
Proof.
  apply (retry_sweep_keeps_done (PL := demo_literals) st_two_entries 0 0 entry_done).
  - vm_compute. constructor; [intros [H|H]; [discriminate|exact H]|].
    constructor; [intros H; exact H|constructor].
  - reflexivity.
  - reflexivity.
Defined.

(** When Airtable rejects an update (the request fails, or the record or
    one of the fields does not exist), [update_record] returns false,
    leaves the posts as they were and appends one Pending "update" entry
    for the record to the retry table, unless that creation is rejected
    too, in which case the retry table is unchanged. *)
Theorem update_record_rejected {PL : PyLiterals} rid kvs st :
  net st (calls st) (UpdatePost rid kvs) <> Success \/ patch_rows rid kvs (posts st) = None ->
  fst (update_record rid kvs st) = Ok false /\
  posts (snd (update_record rid kvs st)) = posts st /\
  retry_table (snd (update_record rid kvs st)) =
  match net st (S (calls st)) (CreateRetry (dead_letter (rid, kvs))) with
  | Success => (retry_table st ++ [(next_retry_id st, dead_letter (rid, kvs))])%list
  | Failure _ => retry_table st
  end.
Proof. exact (update_record_reject_effect rid kvs st). Qed.

Lemma update_record_rejected_witness :
  fst (update_record (PL := demo_literals) "rec9" [(FIELD_STATUS, STATUS_FAILED)]
         (st_publish all_success)) = Ok false /\
  posts (snd (update_record (PL := demo_literals) "rec9" [(FIELD_STATUS, STATUS_FAILED)]
                (st_publish all_success))) = posts (st_publish all_success) /\
  retry_table (snd (update_record (PL := demo_literals) "rec9" [(FIELD_STATUS, STATUS_FAILED)]
                      (st_publish all_success))) =
  [(0, dead_letter (PL := demo_literals) ("rec9", [(FIELD_STATUS, STATUS_FAILED)]))].
Proof.
  exact (update_record_rejected (PL := demo_literals) "rec9" [(FIELD_STATUS, STATUS_FAILED)]
           (st_publish all_success) (or_intror eq_refl)).
Defined.
